(** * Go-IM gateway: frame codec, connection registry, offline mailbox and
      message dispatcher, embedded from the Go sources.

    Layout of the development:
    - [protocol]: the length-prefixed frame codec ([Pack], [Unpack]);
    - [redis]: the part of the key-value store the services rely on
      (sorted sets, counters, plain keys, publish), with unreachable-store
      faults;
    - [server]: [Connection] objects living in a heap, the outbound queue,
      [Send], and the [ConnectionManager] registry;
    - [service]: session directory, sequence allocator, offline mailbox and
      the message handler;
    - [app]: authentication handling of the main program.
    The vocabulary of the statements and the theorems follow the
    definitions. *)

From Stdlib Require Import ZArith List Lia Bool Sorting.Sorted.
From Stdlib Require Import Strings.Byte.
From stdpp Require Import base option list gmap strings.

Local Open Scope Z_scope.

(** ** Go error values used across the packages *)

Inductive error : Type :=
  | ErrPayloadTooLarge      (* protocol.ErrPayloadTooLarge *)
  | ErrInvalidHeader        (* protocol.ErrInvalidHeader *)
  | EOF                     (* io.EOF *)
  | ErrUnexpectedEOF        (* io.ErrUnexpectedEOF *)
  | ErrClosed               (* net.ErrClosed *)
  | RedisNil                (* redis.Nil: the key does not exist *)
  | ErrStore                (* the store could not be reached / command failed *)
  | ErrMarshal              (* encoding/json reported an error *)
  | ErrInvalidToken         (* service.ErrInvalidToken *)
  | ErrTokenExpired.        (* service.ErrTokenExpired *)

Inductive result (A : Type) : Type :=
  | Ok (a : A)
  | Err (e : error).
Arguments Ok {A} a.
Arguments Err {A} e.

#[global] Instance error_eq_dec : EqDecision error.
Proof. solve_decision. Defined.

#[global] Instance byte_eq_dec : EqDecision byte := Byte.byte_eq_dec.

(** ** Package protocol *)

Module protocol.

Definition HeaderLength : Z := 8.
Definition MaxPayloadLength : Z := 1024 * 1024.
Definition ProtocolVersion : Z := 1.

Definition CmdTypeHeartbeat : Z := 1.
Definition CmdTypeAuth : Z := 2.
Definition CmdTypeAuthAck : Z := 3.
Definition CmdTypeMessage : Z := 4.
Definition CmdTypeMessageAck : Z := 5.
Definition CmdTypeKick : Z := 6.

(** [Length] is a uint32, [Version] and [CmdType] are uint16; a nil body and
    an empty body are both the empty list. *)
Record Message : Type := mkMessage {
  Length : Z;
  Version : Z;
  CmdType : Z;
  Body : list byte
}.

Definition uint16 (z : Z) : Z := Z.land z (Z.ones 16).
Definition uint32 (z : Z) : Z := Z.land z (Z.ones 32).

(** The conversion [byte(v)] keeps the low eight bits. *)
Definition byte_of_Z (z : Z) : byte :=
  match Byte.of_N (Z.to_N (Z.land z (Z.ones 8))) with
  | Some b => b
  | None => x00
  end.

Definition Z_of_byte (b : byte) : Z := Z.of_N (Byte.to_N b).

(** encoding/binary, BigEndian *)
Definition PutUint32 (v : Z) : list byte :=
  [byte_of_Z (Z.shiftr v 24); byte_of_Z (Z.shiftr v 16);
   byte_of_Z (Z.shiftr v 8); byte_of_Z v].

Definition PutUint16 (v : Z) : list byte :=
  [byte_of_Z (Z.shiftr v 8); byte_of_Z v].

Definition Uint32 (b : list byte) : Z :=
  match b with
  | [b0; b1; b2; b3] =>
      Z.lor (Z.lor (Z.lor (Z_of_byte b3) (Z.shiftl (Z_of_byte b2) 8))
                   (Z.shiftl (Z_of_byte b1) 16))
            (Z.shiftl (Z_of_byte b0) 24)
  | _ => 0
  end.

Definition Uint16 (b : list byte) : Z :=
  match b with
  | [b0; b1] => Z.lor (Z_of_byte b1) (Z.shiftl (Z_of_byte b0) 8)
  | _ => 0
  end.

(** [Pack] writes [Length] and [Version] into the message it is given (the
    argument is a pointer), so the message as left by [Pack] is returned
    next to the produced bytes. *)
Definition Pack (msg : Message) : Message * result (list byte) :=
  let bodyLen := Z.of_nat (length (Body msg)) in
  if bodyLen >? MaxPayloadLength then (msg, Err ErrPayloadTooLarge)
  else
    let msg := {| Length := uint32 (4 + bodyLen);
                  Version := ProtocolVersion;
                  CmdType := CmdType msg;
                  Body := Body msg |} in
    let data := PutUint32 (Length msg) ++ PutUint16 (Version msg)
                ++ PutUint16 (CmdType msg) ++ Body msg in
    (msg, Ok data).

(** A reader is the sequence of bytes that will still arrive before the
    stream ends.  [ReadFull] is io.ReadFull on a buffer of [n] bytes: all
    [n] bytes, [EOF] when nothing could be read, [ErrUnexpectedEOF] when the
    stream ended part-way. *)
Definition Reader : Type := list byte.

Definition ReadFull (n : nat) (reader : Reader) : Reader * result (list byte) :=
  match n with
  | O => (reader, Ok [])
  | _ =>
      if bool_decide (reader = []) then (reader, Err EOF)
      else if bool_decide (length reader < n)%nat then ([], Err ErrUnexpectedEOF)
      else (drop n reader, Ok (take n reader))
  end.

Definition Unpack (reader : Reader) : Reader * result Message :=
  match ReadFull (Z.to_nat HeaderLength) reader with
  | (reader, Err e) => (reader, Err e)
  | (reader, Ok header) =>
      let msg := {| Length := Uint32 (take 4 header);
                    Version := Uint16 (take 2 (drop 4 header));
                    CmdType := Uint16 (take 2 (drop 6 header));
                    Body := [] |} in
      let bodyLen := Length msg - 4 in
      if bodyLen <? 0 then (reader, Err ErrInvalidHeader)
      else if bodyLen >? MaxPayloadLength then (reader, Err ErrPayloadTooLarge)
      else if bodyLen >? 0 then
        match ReadFull (Z.to_nat bodyLen) reader with
        | (reader, Err e) => (reader, Err e)
        | (reader, Ok body) =>
            (reader, Ok {| Length := Length msg; Version := Version msg;
                           CmdType := CmdType msg; Body := body |})
        end
      else (reader, Ok msg)
  end.

(** The read loops of the server call [Unpack] on the same reader until it
    reports an error; every decoded message is handed to the handler.
    [readLoop] returns the messages handed over, in order, and the error
    that ended the loop.  [fuel] bounds the number of iterations. *)
Fixpoint readLoop (fuel : nat) (reader : Reader) : option (list Message * error) :=
  match fuel with
  | O => None
  | S fuel =>
      match Unpack reader with
      | (_, Err e) => Some ([], e)
      | (reader, Ok msg) =>
          match readLoop fuel reader with
          | Some (msgs, e) => Some (msg :: msgs, e)
          | None => None
          end
      end
  end.

(** The bytes [Pack] produces for a message, when it accepts it. *)
Definition encode (msg : Message) : list byte :=
  match Pack msg with
  | (_, Ok data) => data
  | (_, Err _) => []
  end.

(** The message as [Pack] leaves it. *)
Definition packed (msg : Message) : Message := fst (Pack msg).

End protocol.

(** ** The shared store (Redis), as far as the services use it *)

Module redis.

(** [float64(n)] for an int64 [n]: the nearest double, ties to even.  The
    result is always an integer, so scores are kept in [Z].  Sorted-set
    scores are doubles, and the store parses a decimal bound the same way. *)
Definition float64_of_int64 (n : Z) : Z :=
  let a := Z.abs n in
  if a <? 2 ^ 53 then n
  else
    let e := Z.log2 a - 52 in
    let q := Z.shiftr a e in
    let r := Z.land a (Z.ones e) in
    let half := Z.shiftl 1 (e - 1) in
    let q' := if r <? half then q
              else if half <? r then q + 1
              else if Z.even q then q else q + 1 in
    Z.sgn n * Z.shiftl q' e.

(** A field value written into a hash: text, or a number sent in decimal. *)
Inductive hvalue : Type :=
  | HStr (s : string)
  | HInt (n : Z).

(** redis.Z: one element of a sorted set. *)
Record ZEntry (M : Type) : Type := mkZ { Score : Z; Member : M }.
Arguments mkZ {M} Score Member.
Arguments Score {M} _.
Arguments Member {M} _.

(** Sorted sets.  A sorted set is kept as the list of its elements in rank
    order: ascending score, elements of equal score in the order of their
    members ([member_ltb], the byte-wise order of the member strings).  A
    member occurs at most once. *)
Section zset.
Context {M : Type} `{!EqDecision M} (member_ltb : M -> M -> bool).

Definition entry_ltb (a b : ZEntry M) : bool :=
  (Score a <? Score b)
  || ((Score a =? Score b) && member_ltb (Member a) (Member b)).

Fixpoint zinsert (e : ZEntry M) (zs : list (ZEntry M)) : list (ZEntry M) :=
  match zs with
  | [] => [e]
  | x :: zs' => if entry_ltb e x then e :: zs else x :: zinsert e zs'
  end.

(** ZADD key score member: a member already present is moved to its new
    score, otherwise the element is added. *)
Definition zadd (e : ZEntry M) (zs : list (ZEntry M)) : list (ZEntry M) :=
  zinsert e (filter (fun x => Member x <> Member e) zs).

(** Rank ranges: negative indices count from the end; the result is the
    first rank and the number of ranks selected, if any. *)
Definition rank_range (len start stop : Z) : option (nat * nat) :=
  let start := if start <? 0 then len + start else start in
  let stop := if stop <? 0 then len + stop else stop in
  let start := if start <? 0 then 0 else start in
  if (start >? stop) || (start >=? len) then None
  else
    let stop := if stop >=? len then len - 1 else stop in
    Some (Z.to_nat start, Z.to_nat (stop - start + 1)).

(** ZREMRANGEBYRANK key start stop *)
Definition zremrangebyrank (start stop : Z) (zs : list (ZEntry M)) : list (ZEntry M) :=
  match rank_range (Z.of_nat (length zs)) start stop with
  | None => zs
  | Some (i, n) => take i zs ++ drop (i + n) zs
  end.

(** ZREVRANGE key start stop: members from the highest rank down. *)
Definition zrevrange (start stop : Z) (zs : list (ZEntry M)) : list M :=
  match rank_range (Z.of_nat (length zs)) start stop with
  | None => []
  | Some (i, n) => Member <$> take n (drop i (reverse zs))
  end.

(** ZRANGEBYSCORE key min +inf LIMIT offset count (a negative count
    returns everything from the offset). *)
Definition zrangebyscore_from (min : Z) (offset count : Z) (zs : list (ZEntry M)) : list M :=
  let sel := drop (Z.to_nat offset) (filter (fun x => min <= Score x) zs) in
  Member <$> (if count <? 0 then sel else take (Z.to_nat count) sel).

(** ZREMRANGEBYSCORE key -inf max *)
Definition zremrangebyscore_upto (max : Z) (zs : list (ZEntry M)) : list (ZEntry M) :=
  filter (fun x => ~ Score x <= max) zs.

Definition zcard (zs : list (ZEntry M)) : Z := Z.of_nat (length zs).
End zset.

(** The store.  Keys of different Redis types live in different maps; the
    key prefixes used by the services never collide.  Expiry is driven by
    real time and is not part of the state.  [faults] is the fate of the
    coming round trips: [true] means the store cannot be reached for that
    round trip; when the list is exhausted every round trip succeeds. *)
Record DB (M : Type) : Type := mkDB {
  strings : gmap string string;
  counters : gmap string Z;
  hashes : gmap string (gmap string hvalue);
  zsets : gmap string (list (ZEntry M));
  published : list (string * list byte);
  faults : list bool
}.
Arguments mkDB {M}.
Arguments strings {M} _.
Arguments counters {M} _.
Arguments hashes {M} _.
Arguments zsets {M} _.
Arguments published {M} _.
Arguments faults {M} _.

Section commands.
Context {M : Type} `{!EqDecision M} (member_ltb : M -> M -> bool).

Definition empty : DB M := mkDB ∅ ∅ ∅ ∅ [] [].

Definition set_faults (fs : list bool) (s : DB M) : DB M :=
  mkDB (strings s) (counters s) (hashes s) (zsets s) (published s) fs.
Definition set_strings (m : gmap string string) (s : DB M) : DB M :=
  mkDB m (counters s) (hashes s) (zsets s) (published s) (faults s).
Definition set_counters (m : gmap string Z) (s : DB M) : DB M :=
  mkDB (strings s) m (hashes s) (zsets s) (published s) (faults s).
Definition set_hashes (m : gmap string (gmap string hvalue))
    (s : DB M) : DB M :=
  mkDB (strings s) (counters s) m (zsets s) (published s) (faults s).
Definition set_zsets (m : gmap string (list (ZEntry M))) (s : DB M) : DB M :=
  mkDB (strings s) (counters s) (hashes s) m (published s) (faults s).
Definition set_published (p : list (string * list byte)) (s : DB M) : DB M :=
  mkDB (strings s) (counters s) (hashes s) (zsets s) p (faults s).

(** One round trip to the store. *)
Definition roundtrip {A : Type} (cmd : DB M -> DB M * result A)
    (s : DB M) : DB M * result A :=
  match faults s with
  | true :: fs => (set_faults fs s, Err ErrStore)
  | false :: fs => cmd (set_faults fs s)
  | [] => cmd s
  end.

(** The sorted set under a key; a missing key is the empty set, and a set
    that becomes empty is deleted. *)
Definition zset_at (key : string) (s : DB M) : list (ZEntry M) :=
  default [] (zsets s !! key).
Definition put_zset (key : string) (zs : list (ZEntry M)) (s : DB M) : DB M :=
  match zs with
  | [] => set_zsets (delete key (zsets s)) s
  | _ => set_zsets (<[key := zs]> (zsets s)) s
  end.

Definition Incr (key : string) : DB M -> DB M * result Z :=
  roundtrip (fun s =>
    let v := default 0 (counters s !! key) in
    if v >=? 2 ^ 63 - 1 then (s, Err ErrStore)
    else (set_counters (<[key := v + 1]> (counters s)) s, Ok (v + 1))).

(** INCRBY key n: refused when the sum leaves the range of an int64. *)
Definition IncrBy (key : string) (incr : Z) : DB M -> DB M * result Z :=
  roundtrip (fun s =>
    let v := default 0 (counters s !! key) in
    if ((incr <? 0) && (v <? 0) && (incr <? - 2 ^ 63 - v))
       || ((incr >? 0) && (v >? 0) && (incr >? 2 ^ 63 - 1 - v))
    then (s, Err ErrStore)
    else (set_counters (<[key := v + incr]> (counters s)) s, Ok (v + incr))).

(** GET key read as an int64 ([Get(...).Int64()]) on a key that holds a
    counter. *)
Definition GetInt64 (key : string) : DB M -> DB M * result Z :=
  roundtrip (fun s =>
    match counters s !! key with
    | Some v => (s, Ok v)
    | None => (s, Err RedisNil)
    end).

Definition Get (key : string) : DB M -> DB M * result string :=
  roundtrip (fun s =>
    match strings s !! key with
    | Some v => (s, Ok v)
    | None => (s, Err RedisNil)
    end).

Definition Exists (key : string) : DB M -> DB M * result Z :=
  roundtrip (fun s =>
    (s, Ok (if bool_decide (is_Some (hashes s !! key)) then 1 else 0))).

Definition ZAdd (key : string) (e : ZEntry M) : DB M -> DB M * result unit :=
  roundtrip (fun s => (put_zset key (zadd member_ltb e (zset_at key s)) s, Ok tt)).

Definition ZRemRangeByRank (key : string) (start stop : Z)
    : DB M -> DB M * result unit :=
  roundtrip (fun s =>
    (put_zset key (zremrangebyrank start stop (zset_at key s)) s, Ok tt)).

Definition ZRemRangeByScore_upto (key : string) (max : Z)
    : DB M -> DB M * result unit :=
  roundtrip (fun s =>
    (put_zset key (zremrangebyscore_upto max (zset_at key s)) s, Ok tt)).

Definition ZRevRange (key : string) (start stop : Z)
    : DB M -> DB M * result (list M) :=
  roundtrip (fun s => (s, Ok (zrevrange start stop (zset_at key s)))).

(** The client adds LIMIT offset count to the command only when one of the
    two is not zero; without it the store returns the whole score range. *)
Definition ZRangeByScore_from (key : string) (min offset count : Z)
    : DB M -> DB M * result (list M) :=
  roundtrip (fun s =>
    (s, Ok (if (offset =? 0) && (count =? 0)
            then zrangebyscore_from min 0 (-1) (zset_at key s)
            else zrangebyscore_from min offset count (zset_at key s)))).

Definition ZCard (key : string) : DB M -> DB M * result Z :=
  roundtrip (fun s => (s, Ok (zcard (zset_at key s)))).

Definition Del (key : string) (s : DB M) : DB M :=
  mkDB (delete key (strings s)) (delete key (counters s))
          (delete key (hashes s)) (delete key (zsets s))
          (published s) (faults s).

(** EXPIRE only changes the time to live. *)
Definition Expire (key : string) : DB M -> DB M * result unit :=
  roundtrip (fun s => (s, Ok tt)).

Definition Publish (channel : string) (data : list byte)
    : DB M -> DB M * result unit :=
  roundtrip (fun s => (set_published (published s ++ [(channel, data)]) s, Ok tt)).
End commands.

End redis.

(** ** Package server: connections and the connection registry *)

Module server.

(** A [*Connection] is an address in the heap of connection objects. *)
Abbreviation loc := positive (only parsing).

(** The fields of a [Connection] that the dispatcher observes: [writeChan]
    holds the queued frames, oldest first; [closed] tells whether [closeChan]
    has been closed; [written] is what [writeLoop] has written to the
    socket so far. *)
Record Connection : Type := mkConnection {
  ID : Z;
  UserID : string;
  writeChan : list (list byte);
  closed : bool;
  written : list (list byte)
}.

Definition writeChanCap : nat := 256.

Definition NewConnection (id : Z) : Connection :=
  {| ID := id; UserID := EmptyString; writeChan := []; closed := false; written := [] |}.

Definition set_UserID (uid : string) (c : Connection) : Connection :=
  {| ID := ID c; UserID := uid; writeChan := writeChan c;
     closed := closed c; written := written c |}.

Definition set_writeChan (q : list (list byte)) (c : Connection) : Connection :=
  {| ID := ID c; UserID := UserID c; writeChan := q;
     closed := closed c; written := written c |}.

(** The communications of the [select] in [Send], in source order. *)
Inductive select_case : Type :=
  | CaseEnqueue     (* case c.writeChan <- data *)
  | CaseClosed      (* case <-c.closeChan *)
  | CaseDefault.    (* default *)

(** The communications that can proceed: a send on the buffered channel
    when it has room, a receive on [closeChan] once it is closed. *)
Definition ready (c : Connection) : list select_case :=
  (if bool_decide (length (writeChan c) < writeChanCap)%nat then [CaseEnqueue] else [])
  ++ (if closed c then [CaseClosed] else []).

(** A [select] with a default never waits: when no communication can
    proceed it takes the default, otherwise the runtime picks one of those
    that can; [pick] is the runtime's choice. *)
Definition select (pick : nat) (c : Connection) : select_case :=
  match ready c with
  | [] => CaseDefault
  | rs => nth (pick mod length rs)%nat rs CaseDefault
  end.

(** [Send] on the connection object; [None] is a nil error. *)
Definition Connection_Send (pick : nat) (msg : protocol.Message) (c : Connection)
    : Connection * option error :=
  match protocol.Pack msg with
  | (_, Err e) => (c, Some e)
  | (_, Ok data) =>
      match select pick c with
      | CaseEnqueue => (set_writeChan (writeChan c ++ [data]) c, None)
      | CaseClosed => (c, Some ErrClosed)
      | CaseDefault => (c, None)
      end
  end.

(** One iteration of [writeLoop] that receives from [writeChan] and writes
    the frame to the socket. *)
Definition writeLoop_step (c : Connection) : Connection :=
  match writeChan c with
  | data :: q =>
      {| ID := ID c; UserID := UserID c; writeChan := q;
         closed := closed c; written := written c ++ [data] |}
  | [] => c
  end.

Definition Close (c : Connection) : Connection :=
  {| ID := ID c; UserID := UserID c; writeChan := writeChan c;
     closed := true; written := written c |}.

(** [IsClosed]: a [select] on [closeChan] with a default. *)
Definition IsClosed (c : Connection) : bool :=
  if closed c then true else false.

(** The communications of the [select] in [writeLoop], in source order. *)
Inductive writeLoop_case : Type :=
  | CaseCloseSignal   (* case <-c.closeChan *)
  | CaseReceive.      (* case data := <-c.writeChan *)

(** [writeChan] is never closed, so a receive can proceed exactly when a
    frame is queued. *)
Definition writeLoop_ready (c : Connection) : list writeLoop_case :=
  (if closed c then [CaseCloseSignal] else [])
  ++ (match writeChan c with [] => [] | _ :: _ => [CaseReceive] end).

(** How a run of [writeLoop] ends: the goroutine waits in its [select]
    (nothing can proceed until another goroutine sends or closes), or the
    loop has returned. *)
Inductive writeLoop_end : Type :=
  | WriteLoopWaiting
  | WriteLoopReturned.

(** [writeLoop].  [pick i] is the runtime's choice in the [select] of
    iteration [i]; [fails i] tells whether the [Write] of that iteration
    reports an error.  The deferred [Close] runs when the loop returns.
    [fuel] bounds the number of iterations. *)
Fixpoint writeLoop (fuel : nat) (pick : nat -> nat) (fails : nat -> bool)
    (i : nat) (c : Connection) : option (Connection * writeLoop_end) :=
  match fuel with
  | O => None
  | S fuel =>
      match writeLoop_ready c with
      | [] => Some (c, WriteLoopWaiting)
      | rs =>
          match nth (pick i mod length rs)%nat rs CaseCloseSignal with
          | CaseCloseSignal => Some (Close c, WriteLoopReturned)
          | CaseReceive =>
              match writeChan c with
              | [] => Some (c, WriteLoopWaiting)
              | data :: q =>
                  if fails i
                  then Some (Close (set_writeChan q c), WriteLoopReturned)
                  else writeLoop fuel pick fails (S i) (writeLoop_step c)
              end
          end
      end
  end.

(** The connection objects.  Go pointers are never dangling; at an address
    outside the heap the operations below leave the heap as it is. *)
Abbreviation Heap := (gmap loc Connection) (only parsing).

Definition Send (pick : nat) (conn : loc) (msg : protocol.Message) (h : Heap)
    : Heap * option error :=
  match h !! conn with
  | Some c =>
      let '(c', e) := Connection_Send pick msg c in (<[conn := c']> h, e)
  | None => (h, None)
  end.

Definition SetUserID (conn : loc) (uid : string) (h : Heap) : Heap :=
  alter (set_UserID uid) conn h.

Definition GetUserID (conn : loc) (h : Heap) : string :=
  match h !! conn with
  | Some c => UserID c
  | None => EmptyString
  end.

Definition GetID (conn : loc) (h : Heap) : Z :=
  match h !! conn with
  | Some c => ID c
  | None => 0
  end.

(** ConnectionManager: the two sync.Map tables. *)
Record ConnectionManager : Type := mkManager {
  connections : gmap Z loc;
  userConns : gmap string loc
}.

Definition NewConnectionManager : ConnectionManager := mkManager ∅ ∅.

(** The registry operations read and write connection objects, so they
    act on the heap together with the manager. *)
Record Registry : Type := mkRegistry {
  heap : Heap;
  manager : ConnectionManager
}.

Definition Add (conn : loc) (r : Registry) : Registry :=
  {| heap := heap r;
     manager := {| connections := <[GetID conn (heap r) := conn]> (connections (manager r));
                   userConns := userConns (manager r) |} |}.

Definition Remove (conn : loc) (r : Registry) : Registry :=
  let conns := delete (GetID conn (heap r)) (connections (manager r)) in
  let uid := GetUserID conn (heap r) in
  {| heap := heap r;
     manager := {| connections := conns;
                   userConns := if bool_decide (uid <> EmptyString)
                                then delete uid (userConns (manager r))
                                else userConns (manager r) |} |}.

Definition BindUser (uid : string) (conn : loc) (r : Registry) : Registry :=
  {| heap := SetUserID conn uid (heap r);
     manager := {| connections := connections (manager r);
                   userConns := <[uid := conn]> (userConns (manager r)) |} |}.

Definition GetByUserID (uid : string) (r : Registry) : option loc :=
  userConns (manager r) !! uid.

Definition GetByConnID (id : Z) (r : Registry) : option loc :=
  connections (manager r) !! id.

Definition Count (r : Registry) : Z := Z.of_nat (size (connections (manager r))).

(** [Broadcast].  sync.Map.Range visits the entries in no particular order:
    [visit] is the order of the visit.  Every [Send] is handed the same
    message object, as the previous [Pack] left it; [pick k] resolves the
    [select] of the [k]-th [Send]. *)
Fixpoint Broadcast_range (pick : nat -> nat) (k : nat) (msg : protocol.Message)
    (visit : list (Z * loc)) (h : Heap) : Heap :=
  match visit with
  | [] => h
  | (_, conn) :: visit =>
      Broadcast_range pick (S k) (fst (protocol.Pack msg)) visit
        (fst (Send (pick k) conn msg h))
  end.

Definition Broadcast (pick : nat -> nat) (visit : list (Z * loc))
    (msg : protocol.Message) (r : Registry) : Registry :=
  {| heap := Broadcast_range pick 0 msg visit (heap r); manager := manager r |}.

(** *** TCPServer *)

Definition handleHeartbeat (pick : nat) (conn : loc) (h : Heap) : Heap :=
  let ack := {| protocol.Length := 0; protocol.Version := 0;
                protocol.CmdType := protocol.CmdTypeHeartbeat;
                protocol.Body := ["p"; "o"; "n"; "g"]%byte |} in
  fst (Send pick conn ack h).


(** The start of [handleConnection] for the accepted socket: the new
    connection object, at a fresh address, is added to the registry. *)
Definition handleConnection_open (connID : Z) (r : Registry) : loc * Registry :=
  let conn := fresh (dom (heap r)) in
  (conn, Add conn {| heap := <[conn := NewConnection connID]> (heap r);
                     manager := manager r |}).

(** [acceptLoop] hands each accepted socket the next value of the uint64
    counter.  [accept] is one successful iteration: the new counter, and
    the registry once [handleConnection] has registered the connection. *)
Definition uint64 (z : Z) : Z := Z.land z (Z.ones 64).

Definition accept (connID : Z) (r : Registry) : Z * loc * Registry :=
  let connID := uint64 (connID + 1) in
  let '(conn, r) := handleConnection_open connID r in
  (connID, conn, r).

End server.

(** ** Package service *)

Module service.

Definition MsgTypePrivate : Z := 1.
Definition MsgTypeGroup : Z := 2.
Definition MsgTypeSystem : Z := 3.

Definition SessionKeyPrefix : string := "user_session:".
Definition GatewayKeyPrefix : string := "user_gateway:".
Definition OfflineBoxPrefix : string := "msg_box:".
Definition SequenceKeyPrefix : string := "seq:".
Definition MaxOfflineMessages : Z := 1000.

(** Message contents are byte sequences; [string(content)] and
    [[]byte(s)] copy the same bytes.  Times are instants on the clock. *)
Module ChatMessage.
Record t : Type := mk {
  FromUserID : string;
  ToUserID : string;
  Content : list byte;
  MsgType : Z;
  SeqID : Z;
  Timestamp : Z
}.
End ChatMessage.

Module OfflineMessage.
Record t : Type := mk {
  FromUserID : string;
  ToUserID : string;
  Content : list byte;
  MsgType : Z;
  SeqID : Z;
  Timestamp : Z
}.
Definition set_Timestamp (ts : Z) (m : t) : t :=
  mk (FromUserID m) (ToUserID m) (Content m) (MsgType m) (SeqID m) ts.
End OfflineMessage.

Module PubSubMessage.
Record t : Type := mk {
  FromUserID : string;
  ToUserID : string;
  Content : list byte;
  MsgType : Z;
  SeqID : Z
}.
End PubSubMessage.

Module Claims.
Record t : Type := mk {
  UserID : string;
  Username : string
}.
End Claims.

(** encoding/json, on the values this program encodes and decodes.  [Text]
    is a JSON document held in a Go string, as stored in a sorted set;
    [Text_ltb] is the byte-wise order of such strings. *)
Class Json : Type := {
  Text : Type;
  Text_eq_dec :: EqDecision Text;
  Text_ltb : Text -> Text -> bool;
  Marshal_OfflineMessage : OfflineMessage.t -> result Text;
  Unmarshal_OfflineMessage : Text -> result OfflineMessage.t;
  Marshal_ChatMessage : ChatMessage.t -> result (list byte);
  Marshal_PubSubMessage : PubSubMessage.t -> result (list byte);
  (* map[string]interface{}{"success": ..., "message": ...} *)
  Marshal_AuthResponse : bool -> string -> list byte;
  (* struct{ Token string `json:"token"` } *)
  Unmarshal_AuthRequest : list byte -> result string;
  (* struct{ SeqID int64 `json:"seq_id"` } *)
  Unmarshal_AckMsg : list byte -> result Z;
  (* struct{ ToUserID string; Content string } *)
  Unmarshal_chatMsg : list byte -> result (string * list byte)
}.

(** What the program relies on: a stored document decodes to the message
    it was made from. *)
Class JsonLaws `{Json} : Prop := {
  Unmarshal_Marshal_OfflineMessage :
    forall m : OfflineMessage.t,
      exists data, Marshal_OfflineMessage m = Ok data
                   /\ Unmarshal_OfflineMessage data = Ok m
}.

(** Decoding on the subscriber's side of the publish/subscribe bus. *)
Class JsonPubSub `{Json} : Type := {
  Unmarshal_PubSubMessage : list byte -> result PubSubMessage.t
}.

(** github.com/golang-jwt/jwt: the outcome of [jwt.ParseWithClaims] with the
    configured secret. *)
Inductive parse_outcome : Type :=
  | Parsed (claims : Claims.t) (valid : bool)
  | ParseErrExpired
  | ParseErrOther.

Class Jwt : Type := {
  ParseWithClaims : string -> parse_outcome
}.

Definition ValidateToken `{Jwt} (tokenString : string) : result Claims.t :=
  match ParseWithClaims tokenString with
  | ParseErrExpired => Err ErrTokenExpired
  | ParseErrOther => Err ErrInvalidToken
  | Parsed claims valid =>
      if valid then Ok claims else Err ErrInvalidToken
  end.

(** [err.Error()] for the errors of [ValidateToken]. *)
Definition Error_text (e : error) : string :=
  match e with
  | ErrInvalidToken => "invalid token"
  | ErrTokenExpired => "token expired"
  | ErrPayloadTooLarge => "payload exceeds maximum allowed size"
  | ErrInvalidHeader => "invalid message header"
  | EOF => "EOF"
  | ErrUnexpectedEOF => "unexpected EOF"
  | ErrClosed => "use of closed network connection"
  | RedisNil => "redis: nil"
  | ErrStore => "store error"
  | ErrMarshal => "json error"
  end.

(** Conversion to int64 wraps around. *)
Definition int64 (z : Z) : Z := (z + 2 ^ 63) mod 2 ^ 64 - 2 ^ 63.

Definition getConversationID (user1 user2 : string) : string :=
  if String.ltb user1 user2 then user1 +:+ ":" +:+ user2
  else user2 +:+ ":" +:+ user1.

(** The state the services act on: the shared store and this gateway's
    connection registry. *)
Record World `{Json} : Type := mkWorld {
  store : redis.DB Text;
  registry : server.Registry
}.

Section services.
Context `{Json}.

Definition set_store (s : redis.DB Text) (w : World) : World :=
  {| store := s; registry := registry w |}.
Definition set_registry (r : server.Registry) (w : World) : World :=
  {| store := store w; registry := r |}.
Definition set_heap (h : server.Heap) (w : World) : World :=
  set_registry {| server.heap := h;
                  server.manager := server.manager (registry w) |} w.

(** *** SessionManager *)

(** The pipeline of [Login] is one round trip: HSET and EXPIRE on the
    session key, SET on the gateway key. *)
Definition Login (gatewayID userID : string) (connID now : Z)
    (s : redis.DB Text) : redis.DB Text * option error :=
  let sessionKey := SessionKeyPrefix +:+ userID in
  let gatewayKey := GatewayKeyPrefix +:+ userID in
  let fields : gmap string redis.hvalue :=
    {[ "gateway_id" := redis.HStr gatewayID;
       "conn_id" := redis.HInt connID;
       "login_time" := redis.HInt now ]} in
  match redis.roundtrip (fun s =>
          (redis.set_strings (<[gatewayKey := gatewayID]> (redis.strings s))
             (redis.set_hashes
                (<[sessionKey := fields ∪ default ∅ (redis.hashes s !! sessionKey)]>
                   (redis.hashes s)) s),
           Ok tt)) s with
  | (s, Err e) => (s, Some e)
  | (s, Ok _) => (s, None)
  end.

Definition Logout (userID : string) (s : redis.DB Text)
    : redis.DB Text * option error :=
  match redis.roundtrip (fun s =>
          (redis.Del (GatewayKeyPrefix +:+ userID)
             (redis.Del (SessionKeyPrefix +:+ userID) s), Ok tt)) s with
  | (s, Err e) => (s, Some e)
  | (s, Ok _) => (s, None)
  end.

Definition GetUserGateway (userID : string) (s : redis.DB Text)
    : redis.DB Text * result string :=
  redis.Get (GatewayKeyPrefix +:+ userID) s.

Definition IsOnline (userID : string) (s : redis.DB Text)
    : redis.DB Text * bool :=
  match redis.Exists (SessionKeyPrefix +:+ userID) s with
  | (s, Ok n) => (s, bool_decide (n > 0))
  | (s, Err _) => (s, false)
  end.

(** The pipeline of [Heartbeat], one round trip: EXPIRE on both keys. *)
Definition Heartbeat (userID : string) (s : redis.DB Text)
    : redis.DB Text * option error :=
  match redis.roundtrip (fun s => (s, Ok tt)) s with
  | (s, Err e) => (s, Some e)
  | (s, Ok _) => (s, None)
  end.

(** *** SequenceManager *)

Definition NextSeq (conversationID : string) (s : redis.DB Text)
    : redis.DB Text * result Z :=
  redis.Incr (SequenceKeyPrefix +:+ conversationID) s.

(** The start of the batch is computed in int64 arithmetic. *)
Definition NextSeqBatch (conversationID : string) (count : Z) (s : redis.DB Text)
    : redis.DB Text * result (Z * Z) :=
  let key := SequenceKeyPrefix +:+ conversationID in
  match redis.IncrBy key count s with
  | (s, Err e) => (s, Err e)
  | (s, Ok endSeq) => (s, Ok (int64 (endSeq - count + 1), endSeq))
  end.

Definition GetCurrentSeq (conversationID : string) (s : redis.DB Text)
    : redis.DB Text * result Z :=
  let key := SequenceKeyPrefix +:+ conversationID in
  match redis.GetInt64 key s with
  | (s, Err e) =>
      if bool_decide (Error_text e = "redis: nil") then (s, Ok 0)
      else (s, Err e)
  | (s, Ok seq) => (s, Ok seq)
  end.

Definition ResetSeq (conversationID : string) (s : redis.DB Text)
    : redis.DB Text * option error :=
  let key := SequenceKeyPrefix +:+ conversationID in
  match redis.roundtrip (fun s => (redis.Del key s, Ok tt)) s with
  | (s, Err e) => (s, Some e)
  | (s, Ok _) => (s, None)
  end.

(** *** OfflineManager *)

Definition Store (userID : string) (msg : OfflineMessage.t) (now : Z)
    (s : redis.DB Text) : redis.DB Text * option error :=
  let key := OfflineBoxPrefix +:+ userID in
  let msg := OfflineMessage.set_Timestamp now msg in
  match Marshal_OfflineMessage msg with
  | Err e => (s, Some e)
  | Ok data =>
      match redis.ZAdd Text_ltb key
              (redis.mkZ (redis.float64_of_int64 (OfflineMessage.SeqID msg)) data) s with
      | (s, Err e) => (s, Some e)
      | (s, Ok _) =>
          let s := fst (redis.ZRemRangeByRank key 0 (- MaxOfflineMessages - 1) s) in
          let s := fst (redis.Expire key s) in
          (s, None)
      end
  end.

(** Decoding the fetched documents; one that does not decode is skipped. *)
Fixpoint decode_messages (results : list Text) : list OfflineMessage.t :=
  match results with
  | [] => []
  | data :: results =>
      match Unmarshal_OfflineMessage data with
      | Ok msg => msg :: decode_messages results
      | Err _ => decode_messages results
      end
  end.

Definition Fetch (userID : string) (startSeq count : Z) (s : redis.DB Text)
    : redis.DB Text * result (list OfflineMessage.t) :=
  let key := OfflineBoxPrefix +:+ userID in
  match redis.ZRangeByScore_from key (redis.float64_of_int64 startSeq) 0 count s with
  | (s, Err e) => (s, Err e)
  | (s, Ok results) => (s, Ok (decode_messages results))
  end.

Definition FetchLatest (userID : string) (count : Z) (s : redis.DB Text)
    : redis.DB Text * result (list OfflineMessage.t) :=
  let key := OfflineBoxPrefix +:+ userID in
  match redis.ZRevRange key 0 (count - 1) s with
  | (s, Err e) => (s, Err e)
  | (s, Ok results) => (s, Ok (decode_messages results))
  end.

(** The bound is sent in decimal and read by the store as a double. *)
Definition Remove (userID : string) (maxSeqID : Z) (s : redis.DB Text)
    : redis.DB Text * option error :=
  let key := OfflineBoxPrefix +:+ userID in
  match redis.ZRemRangeByScore_upto key (redis.float64_of_int64 maxSeqID) s with
  | (s, Err e) => (s, Some e)
  | (s, Ok _) => (s, None)
  end.

Definition Count (userID : string) (s : redis.DB Text)
    : redis.DB Text * result Z :=
  redis.ZCard (OfflineBoxPrefix +:+ userID) s.

Definition Clear (userID : string) (s : redis.DB Text)
    : redis.DB Text * option error :=
  match redis.roundtrip (fun s => (redis.Del (OfflineBoxPrefix +:+ userID) s, Ok tt)) s with
  | (s, Err e) => (s, Some e)
  | (s, Ok _) => (s, None)
  end.

(** *** PubSubManager *)

Definition Publish (targetGatewayID : string) (msg : PubSubMessage.t)
    (s : redis.DB Text) : redis.DB Text * option error :=
  match Marshal_PubSubMessage msg with
  | Err e => (s, Some e)
  | Ok data =>
      let channelKey := "channel:gateway_" +:+ targetGatewayID in
      match redis.Publish channelKey data s with
      | (s, Err e) => (s, Some e)
      | (s, Ok _) => (s, None)
      end
  end.

End services.

(** *** MessageHandler *)

Section handler.
Context `{Json}.

(** The handler of one gateway. *)
Variable gatewayID : string.

Definition storeOfflineMessage (fromUserID toUserID : string)
    (content : list byte) (seqID : Z) (now : Z) (w : World)
    : World * option error :=
  let offlineMsg :=
    {| OfflineMessage.FromUserID := fromUserID;
       OfflineMessage.ToUserID := toUserID;
       OfflineMessage.Content := content;
       OfflineMessage.MsgType := MsgTypePrivate;
       OfflineMessage.SeqID := seqID;
       OfflineMessage.Timestamp := 0 |} in
  let '(s, e) := Store toUserID offlineMsg now (store w) in
  (set_store s w, e).

Definition deliverLocal (pick : nat) (now : Z) (userID : string)
    (msg : ChatMessage.t) (w : World) : World * option error :=
  match server.GetByUserID userID (registry w) with
  | None =>
      storeOfflineMessage (ChatMessage.FromUserID msg) (ChatMessage.ToUserID msg)
        (ChatMessage.Content msg) (ChatMessage.SeqID msg) now w
  | Some conn =>
      match Marshal_ChatMessage msg with
      | Err e => (w, Some e)
      | Ok data =>
          let protoMsg := {| protocol.Length := 0; protocol.Version := 0;
                             protocol.CmdType := protocol.CmdTypeMessage;
                             protocol.Body := data |} in
          let '(h, e) := server.Send pick conn protoMsg (server.heap (registry w)) in
          (set_heap h w, e)
      end
  end.

Definition deliverRemote (targetGateway : string) (msg : ChatMessage.t)
    (w : World) : World * option error :=
  let pubsubMsg :=
    {| PubSubMessage.FromUserID := ChatMessage.FromUserID msg;
       PubSubMessage.ToUserID := ChatMessage.ToUserID msg;
       PubSubMessage.Content := ChatMessage.Content msg;
       PubSubMessage.MsgType := ChatMessage.MsgType msg;
       PubSubMessage.SeqID := ChatMessage.SeqID msg |} in
  let '(s, e) := Publish targetGateway pubsubMsg (store w) in
  (set_store s w, e).

Definition SendPrivateMessage (pick : nat) (now : Z)
    (fromUserID toUserID : string) (content : list byte) (w : World)
    : World * option error :=
  let conversationID := getConversationID fromUserID toUserID in
  match NextSeq conversationID (store w) with
  | (s, Err e) => (set_store s w, Some e)
  | (s, Ok seqID) =>
      match GetUserGateway toUserID s with
      | (s, Err _) =>
          storeOfflineMessage fromUserID toUserID content seqID now (set_store s w)
      | (s, Ok targetGateway) =>
          let w := set_store s w in
          let msg :=
            {| ChatMessage.FromUserID := fromUserID;
               ChatMessage.ToUserID := toUserID;
               ChatMessage.Content := content;
               ChatMessage.MsgType := MsgTypePrivate;
               ChatMessage.SeqID := seqID;
               ChatMessage.Timestamp := 0 |} in
          if bool_decide (targetGateway = gatewayID)
          then deliverLocal pick now toUserID msg w
          else deliverRemote targetGateway msg w
      end
  end.


Definition chat_of_offline (msg : OfflineMessage.t) : ChatMessage.t :=
  {| ChatMessage.FromUserID := OfflineMessage.FromUserID msg;
     ChatMessage.ToUserID := OfflineMessage.ToUserID msg;
     ChatMessage.Content := OfflineMessage.Content msg;
     ChatMessage.MsgType := OfflineMessage.MsgType msg;
     ChatMessage.SeqID := OfflineMessage.SeqID msg;
     ChatMessage.Timestamp := 0 |}.

(** The loop of [DeliverOfflineMessages] over the fetched messages; the
    [i]-th iteration's [select] is decided by [pick i]. *)
Fixpoint push_each (pick : nat -> nat) (i : nat) (conn : server.loc)
    (messages : list OfflineMessage.t) (h : server.Heap) : server.Heap :=
  match messages with
  | [] => h
  | msg :: messages =>
      match Marshal_ChatMessage (chat_of_offline msg) with
      | Err _ => push_each pick (S i) conn messages h
      | Ok data =>
          let protoMsg := {| protocol.Length := 0; protocol.Version := 0;
                             protocol.CmdType := protocol.CmdTypeMessage;
                             protocol.Body := data |} in
          push_each pick (S i) conn messages
            (fst (server.Send (pick i) conn protoMsg h))
      end
  end.

Definition DeliverOfflineMessages (pick : nat -> nat) (userID : string)
    (conn : server.loc) (w : World) : World * option error :=
  match FetchLatest userID 100 (store w) with
  | (s, Err e) => (set_store s w, Some e)
  | (s, Ok messages) =>
      let w := set_store s w in
      (set_heap (push_each pick 0 conn messages (server.heap (registry w))) w, None)
  end.
End handler.

End service.

(** ** The main program: dispatch of decoded frames *)

Module app.

Import service.

(** A goroutine started by a handler. *)
Inductive goroutine : Type :=
  | GoDeliverOfflineMessages (userID : string) (conn : server.loc).

Section app.
Context `{Json} `{Jwt}.

Variable gatewayID : string.

Definition sendAuthResponse (pick : nat) (conn : server.loc)
    (success : bool) (message : string) (w : World) : World :=
  let data := Marshal_AuthResponse success message in
  let msg := {| protocol.Length := 0; protocol.Version := 0;
                protocol.CmdType := protocol.CmdTypeAuthAck;
                protocol.Body := data |} in
  set_heap (fst (server.Send pick conn msg (server.heap (registry w)))) w.

Definition handleAuth (pick : nat) (now : Z) (conn : server.loc)
    (msg : protocol.Message) (w : World) : World * list goroutine :=
  match Unmarshal_AuthRequest (protocol.Body msg) with
  | Err _ => (sendAuthResponse pick conn false "Invalid request" w, [])
  | Ok token =>
      match ValidateToken token with
      | Err err => (sendAuthResponse pick conn false (Error_text err) w, [])
      | Ok claims =>
          let w := set_registry
                     (server.BindUser (Claims.UserID claims) conn (registry w)) w in
          let '(s, _) := Login gatewayID (Claims.UserID claims)
                           (server.GetID conn (server.heap (registry w))) now
                           (store w) in
          let w := set_store s w in
          let w := sendAuthResponse pick conn true (Claims.UserID claims) w in
          (w, [GoDeliverOfflineMessages (Claims.UserID claims) conn])
      end
  end.

Definition handleMessage (pick : nat) (now : Z) (conn : server.loc)
    (msg : protocol.Message) (w : World) : World :=
  let userID := server.GetUserID conn (server.heap (registry w)) in
  if bool_decide (userID = EmptyString) then w
  else
    match Unmarshal_chatMsg (protocol.Body msg) with
    | Err _ => w
    | Ok (toUserID, content) =>
        fst (SendPrivateMessage gatewayID pick now userID toUserID content w)
    end.

Definition handleMessageAck (conn : server.loc) (msg : protocol.Message)
    (w : World) : World :=
  let userID := server.GetUserID conn (server.heap (registry w)) in
  if bool_decide (userID = EmptyString) then w
  else
    match Unmarshal_AckMsg (protocol.Body msg) with
    | Err _ => w
    | Ok seqID => set_store (fst (Remove userID seqID (store w))) w
    end.

Definition HandleConnection (pick : nat) (now : Z) (conn : server.loc)
    (msg : protocol.Message) (w : World) : World * list goroutine :=
  if protocol.CmdType msg =? protocol.CmdTypeAuth
  then handleAuth pick now conn msg w
  else if protocol.CmdType msg =? protocol.CmdTypeMessage
  then (handleMessage pick now conn msg w, [])
  else if protocol.CmdType msg =? protocol.CmdTypeMessageAck
  then (handleMessageAck conn msg w, [])
  else (w, []).

(** The body of the loop of [TCPServer.handleConnection] for a decoded
    frame, with the [App] as the server's handler ([Initialize] sets it):
    a heartbeat is answered by the server itself, any other frame goes to
    [HandleConnection]. *)
Definition handleConnection_frame (pick : nat) (now : Z) (conn : server.loc)
    (msg : protocol.Message) (w : World) : World * list goroutine :=
  if protocol.CmdType msg =? protocol.CmdTypeHeartbeat
  then (set_heap (server.handleHeartbeat pick conn (server.heap (registry w))) w, [])
  else HandleConnection pick now conn msg w.
End app.

End app.

(** * Vocabulary of the statements *)

(** ** Frames *)

(** A message that fits a frame: the body within the limit, and the command
    code a uint16 (which the Go type guarantees). *)
Definition fits (msg : protocol.Message) : Prop :=
  Z.of_nat (length (protocol.Body msg)) <= protocol.MaxPayloadLength
  /\ 0 <= protocol.CmdType msg < 2 ^ 16.

(** The header and body layout of the frame of a message. *)
Definition frame_bytes (msg : protocol.Message) : list byte :=
  (protocol.PutUint32 (4 + Z.of_nat (length (protocol.Body msg)))
   ++ protocol.PutUint16 protocol.ProtocolVersion
   ++ protocol.PutUint16 (protocol.CmdType msg))
  ++ protocol.Body msg.

(** ** Histories of the registry *)

Module registry_ops.
Import server.

(** The operations of the manager that change the registry. *)
Inductive op : Type :=
  | OpAdd (conn : loc)
  | OpRemove (conn : loc)
  | OpBindUser (uid : string) (conn : loc).

Definition apply (r : Registry) (o : op) : Registry :=
  match o with
  | OpAdd conn => Add conn r
  | OpRemove conn => Remove conn r
  | OpBindUser uid conn => BindUser uid conn r
  end.

Definition run (ops : list op) (r : Registry) : Registry := fold_left apply ops r.

End registry_ops.

(** ** The outbound queue *)

Definition queue_full (c : server.Connection) : Prop :=
  (server.writeChanCap <= length (server.writeChan c))%nat.

Definition enqueued (data : list byte) (c : server.Connection) : server.Connection :=
  server.set_writeChan (server.writeChan c ++ [data]) c.

(** ** Mailboxes *)

(** Sequence numbers that a double holds exactly, and apart from each other. *)
Definition exact_seq (n : Z) : Prop := Z.abs n < 2 ^ 53.

Definition lt_score {M : Type} (a b : redis.ZEntry M) : Prop :=
  redis.Score a < redis.Score b.

(** One insertion: the message handed to [Store] and the clock reading
    [Store] stamps it with. *)
Definition insertion : Type := service.OfflineMessage.t * Z.

Definition stamped (i : insertion) : service.OfflineMessage.t :=
  service.OfflineMessage.set_Timestamp i.2 i.1.

Definition ins_seq (i : insertion) : Z := service.OfflineMessage.SeqID i.1.

Section mailbox_vocabulary.
Import redis service.
Context `{Json}.

(** The mailbox of a user in the store. *)
Definition mailbox (userID : string) (s : DB Text) : list (ZEntry Text) :=
  zset_at (OfflineBoxPrefix +:+ userID) s.

(** A run of successful or failed [Store] calls for one user. *)
Definition Store_all (userID : string) (ins : list insertion) (s : DB Text)
    : DB Text :=
  fold_left (fun s i => fst (service.Store userID i.1 i.2 s)) ins s.

(** The element [e] is what [Store] wrote for the insertion [i]. *)
Definition holds (i : insertion) (e : ZEntry Text) : Prop :=
  Marshal_OfflineMessage (stamped i) = Ok (Member e) /\ Score e = ins_seq i.

(** What holds of a mailbox after the insertions [done]: its elements come
    from them, it is in strictly ascending score order, it holds at most
    the cap, and an insertion that is no longer there lies below everything
    that is. *)
Record mailbox_inv (done : list insertion) (zs : list (ZEntry Text)) : Prop := {
  inv_from : Forall (fun e => exists i, i ∈ done /\ holds i e) zs;
  inv_sorted : StronglySorted lt_score zs;
  inv_length : length zs = Nat.min (length done) 1000;
  inv_evicted :
    forall i, i ∈ done ->
      ins_seq i ∈ (Score <$> zs)
      \/ (length zs = 1000%nat /\ Forall (fun e => ins_seq i < Score e) zs)
}.

(** A mailbox as [Store] builds it: every element is the document of a
    message and carries that message's sequence number as its score. *)
Definition mailbox_wf (zs : list (ZEntry Text)) : Prop :=
  Forall (fun e => exists m, Unmarshal_OfflineMessage (Member e) = Ok m
                             /\ Score e = float64_of_int64 (OfflineMessage.SeqID m)
                             /\ exact_seq (OfflineMessage.SeqID m)) zs.

(** The sequence number of an element lies above [S]. *)
Definition seq_above (S : Z) (e : ZEntry Text) : Prop :=
  match Unmarshal_OfflineMessage (Member e) with
  | Ok m => S < OfflineMessage.SeqID m
  | Err _ => False
  end.

#[global] Instance seq_above_dec (S : Z) (e : ZEntry Text) : Decision (seq_above S e).
Proof. unfold seq_above. destruct (Unmarshal_OfflineMessage (Member e)); apply _. Defined.

(** Everything in the store but the fate of coming round trips. *)
Definition same_content (a b : DB Text) : Prop :=
  strings a = strings b /\ counters a = counters b /\ hashes a = hashes b
  /\ zsets a = zsets b /\ published a = published b.

(** The chat body of a fetched message can be framed. *)
Definition chat_body_ok (m : OfflineMessage.t) : Prop :=
  exists body, Marshal_ChatMessage (chat_of_offline m) = Ok body
               /\ Z.of_nat (length body) <= protocol.MaxPayloadLength.

(** The frame [DeliverOfflineMessages] queues for a fetched message. *)
Definition chat_frame (m : OfflineMessage.t) : list byte :=
  match Marshal_ChatMessage (chat_of_offline m) with
  | Ok body =>
      frame_bytes {| protocol.Length := 0; protocol.Version := 0;
                     protocol.CmdType := protocol.CmdTypeMessage;
                     protocol.Body := body |}
  | Err _ => []
  end.

(** The reply to an authentication request. *)
Definition authAck (success : bool) (message : string) : protocol.Message :=
  {| protocol.Length := 0; protocol.Version := 0;
     protocol.CmdType := protocol.CmdTypeAuthAck;
     protocol.Body := Marshal_AuthResponse success message |}.

End mailbox_vocabulary.

(** ** Runs of operations, and what the statements below speak of *)

(** A run of [Send] calls on one connection; [pick k] resolves the
    [select] of the [k]-th call. *)
Fixpoint Send_all (pick : nat -> nat) (k : nat) (msgs : list protocol.Message)
    (c : server.Connection) : server.Connection :=
  match msgs with
  | [] => c
  | msg :: msgs => Send_all pick (S k) msgs (fst (server.Connection_Send (pick k) msg c))
  end.

(** [n] successful iterations of [acceptLoop]. *)
Fixpoint accept_all (n : nat) (connID : Z) (r : server.Registry) : Z * server.Registry :=
  match n with
  | O => (connID, r)
  | S n => let '(connID, _, r) := server.accept connID r in accept_all n connID r
  end.

(** The registered connections carry the IDs handed out so far: each is
    registered under its own ID, between 1 and the counter. *)
Definition ids_up_to (connID : Z) (r : server.Registry) : Prop :=
  0 <= connID
  /\ forall id conn, server.GetByConnID id r = Some conn ->
       1 <= id <= connID /\ server.GetID conn (server.heap r) = id.

(** [n] calls of [NextSeq] for one conversation, with their results. *)
Fixpoint NextSeq_all `{service.Json} (n : nat) (conversationID : string)
    (s : redis.DB service.Text) : list (result Z) * redis.DB service.Text :=
  match n with
  | O => ([], s)
  | S n =>
      let '(s, r) := service.NextSeq conversationID s in
      let '(rs, s) := NextSeq_all n conversationID s in
      (r :: rs, s)
  end.

(** The value of the counter of a conversation; a missing key counts as 0. *)
Definition counter_of `{service.Json} (conversationID : string)
    (s : redis.DB service.Text) : Z :=
  default 0 (redis.counters s !! (service.SequenceKeyPrefix +:+ conversationID)).

Section more_mailbox_vocabulary.
Import redis service.
Context `{Json}.

(** The messages of a user's mailbox, in rank order. *)
Definition stored_messages (userID : string) (s : DB Text) : list OfflineMessage.t :=
  decode_messages (Member <$> mailbox userID s).

(** Strictly ascending sequence numbers. *)
Definition ascending (msgs : list OfflineMessage.t) : Prop :=
  StronglySorted Z.lt (OfflineMessage.SeqID <$> msgs).

(** The limit of a range query: a positive count keeps that many
    elements, any other count keeps all. *)
Definition limited {A : Type} (count : Z) (l : list A) : list A :=
  if 0 <? count then take (Z.to_nat count) l else l.
End more_mailbox_vocabulary.

Section routing_vocabulary.
Import service.
Context `{Json}.

(** The chat message [SendPrivateMessage] builds. *)
Definition private_chat (fromUserID toUserID : string) (content : list byte)
    (seqID : Z) : ChatMessage.t :=
  {| ChatMessage.FromUserID := fromUserID;
     ChatMessage.ToUserID := toUserID;
     ChatMessage.Content := content;
     ChatMessage.MsgType := MsgTypePrivate;
     ChatMessage.SeqID := seqID;
     ChatMessage.Timestamp := 0 |}.

(** The frame that carries a chat body. *)
Definition message_frame (body : list byte) : protocol.Message :=
  {| protocol.Length := 0; protocol.Version := 0;
     protocol.CmdType := protocol.CmdTypeMessage;
     protocol.Body := body |}.

(** What travels between gateways for a chat message. *)
Definition pubsub_of_chat (msg : ChatMessage.t) : PubSubMessage.t :=
  {| PubSubMessage.FromUserID := ChatMessage.FromUserID msg;
     PubSubMessage.ToUserID := ChatMessage.ToUserID msg;
     PubSubMessage.Content := ChatMessage.Content msg;
     PubSubMessage.MsgType := ChatMessage.MsgType msg;
     PubSubMessage.SeqID := ChatMessage.SeqID msg |}.


(** The channel a gateway subscribes to. *)
Definition channel_of (gatewayID : string) : string :=
  "channel:gateway_" +:+ gatewayID.
End routing_vocabulary.

(** ** A codec to run the model on concrete inputs

    It keeps messages as they are: a stored document is the message itself,
    a chat body is the sequence number in one byte followed by the content,
    and every non-empty token is valid and names its user. *)

Module plain.
Import service.

#[local] Instance OfflineMessage_eq_dec : EqDecision OfflineMessage.t.
Proof. solve_decision. Defined.

Definition json : Json :=
  {| Text := OfflineMessage.t;
     Text_eq_dec := OfflineMessage_eq_dec;
     Text_ltb := fun a b => OfflineMessage.SeqID a <? OfflineMessage.SeqID b;
     Marshal_OfflineMessage := Ok;
     Unmarshal_OfflineMessage := Ok;
     Marshal_ChatMessage := fun m =>
       Ok (protocol.byte_of_Z (ChatMessage.SeqID m) :: ChatMessage.Content m);
     Marshal_PubSubMessage := fun m =>
       Ok (protocol.byte_of_Z (PubSubMessage.SeqID m) :: PubSubMessage.Content m);
     Marshal_AuthResponse := fun success message =>
       (if success then "1"%byte else "0"%byte) :: String.list_byte_of_string message;
     Unmarshal_AuthRequest := fun body => Ok (String.string_of_list_byte body);
     Unmarshal_AckMsg := fun body =>
       match body with
       | [b] => Ok (protocol.Z_of_byte b)
       | _ => Err ErrMarshal
       end;
     Unmarshal_chatMsg := fun body =>
       match body with
       | b :: content => Ok (String.string_of_list_byte [b], content)
       | [] => Err ErrMarshal
       end |}.

Definition jwt : Jwt :=
  {| ParseWithClaims := fun token =>
       if bool_decide (token = EmptyString) then ParseErrOther
       else Parsed (Claims.mk token token) true |}.

Definition message (fromUserID toUserID : string) (seqID : Z) : OfflineMessage.t :=
  {| OfflineMessage.FromUserID := fromUserID;
     OfflineMessage.ToUserID := toUserID;
     OfflineMessage.Content := ["h"; "i"]%byte;
     OfflineMessage.MsgType := MsgTypePrivate;
     OfflineMessage.SeqID := seqID;
     OfflineMessage.Timestamp := 0 |}.

(** [n] insertions for bob, with sequence numbers 1 to [n], stored at
    times 1 to [n]. *)
Definition insertions (n : nat) : list insertion :=
  (fun k => (message "alice" "bob" k, k)) <$> seqZ 1 (Z.of_nat n).

(** Bob's mailbox after these insertions into an empty store. *)
Definition bob_box (n : nat) : redis.DB (@Text json) :=
  @Store_all json "bob" (insertions n) (redis.empty (M := @Text json)).

(** What [Store] writes for the [k]-th of them. *)
Definition stored (k : Z) : redis.ZEntry (@Text json) :=
  redis.mkZ k (OfflineMessage.set_Timestamp k (message "alice" "bob" k)).

(** Two open connections, at addresses 1 and 2, and an empty registry. *)
Definition two_conns : server.Registry :=
  {| server.heap := {[ 1%positive := server.NewConnection 1;
                       2%positive := server.NewConnection 2 ]};
     server.manager := server.NewConnectionManager |}.

(** A gateway with one open connection, at address 1, and a store whose
    coming round trips have the fates [fs]. *)
Definition one_conn (fs : list bool) : @World json :=
  {| store := redis.set_faults fs (redis.empty (M := @Text json));
     registry := {| server.heap := {[ 1%positive := server.NewConnection 7 ]};
                    server.manager := server.NewConnectionManager |} |}.

(** The subscriber's side of this codec: a payload is read back as a
    private message from alice to bob with the sequence number and the
    content it carries. *)
Definition pubsub : @JsonPubSub json :=
  {| Unmarshal_PubSubMessage := fun payload =>
       match payload with
       | b :: content =>
           Ok {| PubSubMessage.FromUserID := "alice";
                 PubSubMessage.ToUserID := "bob";
                 PubSubMessage.Content := content;
                 PubSubMessage.MsgType := MsgTypePrivate;
                 PubSubMessage.SeqID := protocol.Z_of_byte b |}
       | [] => Err ErrMarshal
       end |}.

(** The gateway [one_conn] once bob has logged in on its connection, with
    the session recorded for the gateway [gatewayID]. *)
Definition bob_at (gatewayID : string) : @World json :=
  {| store := fst (@Login json gatewayID "bob" 7 0 (redis.empty (M := @Text json)));
     registry := server.BindUser "bob" 1 (registry (one_conn [])) |}.

(** The same, with the queue of bob's connection full. *)
Definition bob_busy : @World json :=
  {| store := store (bob_at "gateway_1");
     registry :=
       {| server.heap :=
            {[ 1%positive :=
                 server.set_writeChan (replicate 256 [x00]%byte)
                   (server.set_UserID "bob" (server.NewConnection 7)) ]};
          server.manager := server.manager (registry (bob_at "gateway_1")) |} |}.

End plain.

(** * Theorems *)

(** ** Frame codec *)

Section codec.
Import protocol.

Lemma Z_of_byte_of_Z (z : Z) : Z_of_byte (byte_of_Z z) = Z.land z (Z.ones 8).
Proof.
  unfold Z_of_byte, byte_of_Z.
  assert (Hr : 0 <= Z.land z (Z.ones 8) < 2 ^ 8).
  { rewrite Z.land_ones by lia. apply Z.mod_pos_bound. lia. }
  destruct (Byte.of_N (Z.to_N (Z.land z (Z.ones 8)))) as [b|] eqn:Hb.
  - apply Byte.to_of_N in Hb. rewrite Hb. lia.
  - apply Byte.of_N_None_iff in Hb. lia.
Qed.

Lemma Z_of_byte_range (b : byte) : 0 <= Z_of_byte b < 256.
Proof.
  unfold Z_of_byte. pose proof (Byte.to_N_bounded b). lia.
Qed.

Lemma testbit_low8 (z : Z) (n : Z) :
  0 <= n -> Z.testbit (Z.land z (Z.ones 8)) n = Z.testbit z n && (n <? 8).
Proof.
  intros Hn. rewrite Z.land_spec, Z.testbit_ones_nonneg by lia. reflexivity.
Qed.

Lemma testbit_above (v k n : Z) :
  0 <= v < 2 ^ k -> 0 <= k <= n -> Z.testbit v n = false.
Proof.
  intros Hv Hk.
  destruct (Z.eq_dec v 0) as [->|Hnz]; [apply Z.testbit_0_l|].
  apply Z.bits_above_log2; [lia|].
  assert (Z.log2 v < k); [|lia].
  apply Z.log2_lt_pow2; lia.
Qed.

Lemma Uint16_PutUint16 (v : Z) : 0 <= v < 2 ^ 16 -> Uint16 (PutUint16 v) = v.
Proof.
  intros Hv. unfold Uint16, PutUint16. rewrite !Z_of_byte_of_Z.
  apply Z.bits_inj'. intros n Hn.
  rewrite Z.lor_spec, Z.shiftl_spec, testbit_low8 by lia.
  destruct (Z.ltb_spec n 8) as [H8|H8].
  - rewrite (Z.testbit_neg_r _ (n - 8)) by lia.
    rewrite andb_true_r, orb_false_r. reflexivity.
  - rewrite testbit_low8, Z.shiftr_spec by lia.
    rewrite andb_false_r. simpl. replace (n - 8 + 8) with n by lia.
    destruct (Z.ltb_spec (n - 8) 8) as [H16|H16].
    + apply andb_true_r.
    + rewrite andb_false_r. symmetry. apply (testbit_above v 16); lia.
Qed.

Lemma Uint32_PutUint32 (v : Z) : 0 <= v < 2 ^ 32 -> Uint32 (PutUint32 v) = v.
Proof.
  intros Hv. unfold Uint32, PutUint32. rewrite !Z_of_byte_of_Z.
  apply Z.bits_inj'. intros n Hn.
  rewrite !Z.lor_spec, !Z.shiftl_spec, testbit_low8 by lia.
  destruct (Z.ltb_spec n 8) as [H8|H8].
  { rewrite !(Z.testbit_neg_r _ (n - _)) by lia.
    rewrite andb_true_r, !orb_false_r. reflexivity. }
  rewrite andb_false_r. simpl.
  rewrite (testbit_low8 _ (n - 8)), Z.shiftr_spec by lia.
  replace (n - 8 + 8) with n by lia.
  destruct (Z.ltb_spec (n - 8) 8) as [H16|H16].
  { rewrite !(Z.testbit_neg_r _ (n - _)) by lia.
    rewrite andb_true_r, !orb_false_r. reflexivity. }
  rewrite andb_false_r. simpl.
  rewrite (testbit_low8 _ (n - 16)), Z.shiftr_spec by lia.
  replace (n - 16 + 16) with n by lia.
  destruct (Z.ltb_spec (n - 16) 8) as [H24|H24].
  { rewrite !(Z.testbit_neg_r _ (n - _)) by lia.
    rewrite andb_true_r, !orb_false_r. reflexivity. }
  rewrite andb_false_r. simpl.
  rewrite (testbit_low8 _ (n - 24)), Z.shiftr_spec by lia.
  replace (n - 24 + 24) with n by lia.
  destruct (Z.ltb_spec (n - 24) 8) as [H32|H32].
  { apply andb_true_r. }
  rewrite andb_false_r. symmetry. apply (testbit_above v 32); lia.
Qed.

Lemma ReadFull_app (n : nat) (xs rest : list byte) :
  length xs = n -> ReadFull n (xs ++ rest) = (rest, Ok xs).
Proof.
  intros Hn. unfold ReadFull. destruct n as [|n].
  - destruct xs; [reflexivity | discriminate].
  - rewrite bool_decide_eq_false_2 by (destruct xs; [discriminate | simpl; congruence]).
    rewrite bool_decide_eq_false_2 by (rewrite length_app; lia).
    rewrite drop_app_length' by done.
    rewrite take_app_length' by done. reflexivity.
Qed.

Lemma Pack_fits (msg : Message) :
  fits msg ->
  Pack msg = ({| Length := 4 + Z.of_nat (length (Body msg));
                 Version := ProtocolVersion;
                 CmdType := CmdType msg;
                 Body := Body msg |}, Ok (frame_bytes msg)).
Proof.
  intros [Hlen Hcmd]. unfold Pack.
  destruct (Z.gtb_spec (Z.of_nat (length (Body msg))) MaxPayloadLength) as [Hgt|_]; [lia|].
  assert (Hu : uint32 (4 + Z.of_nat (length (Body msg)))
               = 4 + Z.of_nat (length (Body msg))).
  { unfold uint32. rewrite Z.land_ones by lia.
    unfold MaxPayloadLength in Hlen. apply Z.mod_small. lia. }
  cbv zeta. cbn [Length Version CmdType Body]. rewrite Hu.
  unfold frame_bytes. rewrite <- !app_assoc. reflexivity.
Qed.

Lemma Unpack_encode_app (msg : Message) (rest : list byte) :
  fits msg -> Unpack (encode msg ++ rest) = (rest, Ok (packed msg)).
Proof.
  intros Hfit. pose proof (Pack_fits msg Hfit) as HP.
  destruct Hfit as [Hlen Hcmd]. unfold MaxPayloadLength in Hlen.
  unfold encode, packed. rewrite HP. unfold fst, frame_bytes, Unpack.
  rewrite <- (app_assoc _ (Body msg) rest).
  rewrite ReadFull_app by reflexivity.
  change (take 4 (PutUint32 ?v ++ ?r)) with (PutUint32 v).
  change (take 2 (drop 4 (PutUint32 ?v ++ PutUint16 ?a ++ ?r))) with (PutUint16 a).
  change (take 2 (drop 6 (PutUint32 ?v ++ PutUint16 ?a ++ PutUint16 ?b))) with (PutUint16 b).
  rewrite Uint32_PutUint32 by lia.
  rewrite !Uint16_PutUint16 by (unfold ProtocolVersion; lia).
  cbv beta zeta. cbn [Length Version CmdType Body].
  replace (4 + Z.of_nat (length (Body msg)) - 4) with (Z.of_nat (length (Body msg))) by lia.
  destruct (Z.ltb_spec (Z.of_nat (length (Body msg))) 0) as [?|_]; [lia|].
  destruct (Z.gtb_spec (Z.of_nat (length (Body msg))) MaxPayloadLength) as [Hgt|_];
    [unfold MaxPayloadLength in Hgt; lia|].
  destruct (Z.gtb_spec (Z.of_nat (length (Body msg))) 0) as [Hpos|Hzero].
  - rewrite ReadFull_app by lia. reflexivity.
  - destruct (Body msg) as [|b body] eqn:Hbody; [reflexivity | simpl in Hzero; lia].
Qed.

Lemma length_encode (msg : Message) :
  fits msg -> (8 <= length (encode msg))%nat.
Proof.
  intros Hfit. unfold encode. rewrite (Pack_fits msg Hfit).
  unfold frame_bytes. rewrite !length_app. simpl. lia.
Qed.

Lemma readLoop_frames (msgs : list Message) :
  Forall fits msgs ->
  forall (fuel : nat), (length msgs < fuel)%nat ->
    readLoop fuel (concat (encode <$> msgs)) = Some (packed <$> msgs, EOF).
Proof.
  induction 1 as [|msg msgs Hfit _ IH]; intros fuel Hfuel.
  - destruct fuel as [|fuel]; [simpl in Hfuel; lia | reflexivity].
  - destruct fuel as [|fuel]; [simpl in Hfuel; lia|].
    rewrite fmap_cons. simpl concat. simpl readLoop.
    rewrite (Unpack_encode_app msg _ Hfit).
    rewrite IH by (simpl in Hfuel; lia). reflexivity.
Qed.

Lemma length_frames (msgs : list Message) :
  Forall fits msgs -> (length msgs <= length (concat (encode <$> msgs)))%nat.
Proof.
  induction 1 as [|msg msgs Hfit _ IH]; [simpl; lia|].
  rewrite fmap_cons. simpl. rewrite length_app.
  pose proof (length_encode msg Hfit). lia.
Qed.

(** C1.  For messages whose body is at most 1 MiB (and whose command code
    is a uint16, as the Go type has it): [Pack] accepts each message, and
    [Unpack] on the produced bytes yields the message as [Pack] left it,
    with the protocol version, the command code and the body of the
    message that was packed, and nothing left to read; the read loop on
    the concatenation of the frames hands over exactly these messages, in
    order, and then ends on EOF. *)
Theorem pack_unpack_roundtrip (msgs : list Message) :
  Forall fits msgs ->
  (forall msg, msg ∈ msgs ->
     exists data,
       Pack msg = (packed msg, Ok data)
       /\ Unpack data = ([], Ok (packed msg))
       /\ Version (packed msg) = ProtocolVersion
       /\ CmdType (packed msg) = CmdType msg
       /\ Body (packed msg) = Body msg)
  /\ (exists frames,
        Forall2 (fun msg data => Pack msg = (packed msg, Ok data)) msgs frames
        /\ readLoop (S (length (concat frames))) (concat frames)
           = Some (packed <$> msgs, EOF)).
Proof.
  intros Hfits. split.
  - intros msg Hin.
    assert (Hfit : fits msg) by (rewrite Forall_forall in Hfits; auto).
    exists (encode msg).
    pose proof (Unpack_encode_app msg [] Hfit) as HU. rewrite app_nil_r in HU.
    unfold packed, encode in *. rewrite (Pack_fits msg Hfit) in *.
    simpl. repeat split; assumption.
  - exists (encode <$> msgs). split.
    + clear -Hfits. induction Hfits as [|msg msgs Hfit _ IH]; [constructor|].
      rewrite fmap_cons. constructor; [|exact IH].
      unfold packed, encode. rewrite (Pack_fits msg Hfit). reflexivity.
    + apply readLoop_frames; [assumption|].
      pose proof (length_frames msgs Hfits). lia.
Qed.

Lemma Unpack_consumes (reader reader' : Reader) (msg : Message) :
  Unpack reader = (reader', Ok msg) -> (length reader' < length reader)%nat.
Proof.
  unfold Unpack, ReadFull. change (Z.to_nat HeaderLength) with 8%nat.
  cbv beta iota.
  destruct (bool_decide (reader = [])); [discriminate|].
  case_bool_decide as Hlen; [discriminate|].
  cbv beta zeta iota. cbn [Length].
  set (bodyLen := Uint32 (take 4 (take 8 reader)) - 4).
  destruct (bodyLen <? 0); [discriminate|].
  destruct (bodyLen >? MaxPayloadLength); [discriminate|].
  destruct (bodyLen >? 0).
  - destruct (Z.to_nat bodyLen) as [|n]; cbv beta iota.
    + intros Heq. injection Heq as <- _. rewrite length_drop. lia.
    + case_bool_decide; [cbv beta iota; intros Heq; discriminate Heq|].
      case_bool_decide; cbv beta iota; intros Heq; [discriminate Heq|].
      injection Heq as <- _. rewrite !length_drop. lia.
  - intros Heq. injection Heq as <- _. rewrite length_drop. lia.
Qed.

(** The read loop always ends: its fuel never runs out when it is
    given one more than the number of bytes to come. *)
Lemma readLoop_total (fuel : nat) :
  forall reader : Reader, (length reader < fuel)%nat ->
    exists res, readLoop fuel reader = Some res.
Proof.
  induction fuel as [|fuel IH]; intros reader Hlen; [lia|].
  simpl. destruct (Unpack reader) as [reader' [msg|e]] eqn:HU.
  - apply Unpack_consumes in HU.
    destruct (IH reader') as [[msgs e] Hres]; [lia|].
    rewrite Hres. eauto.
  - eauto.
Qed.

(** C3, as amended.  Once the eight header bytes have been read, [Unpack]
    fails with [ErrInvalidHeader] whenever the length field is less than 4,
    whatever the version field holds.  (The version field is not examined:
    see [Unpack_accepts_other_version].) *)
Theorem Unpack_short_length (reader rest : Reader) (header : list byte) :
  ReadFull (Z.to_nat HeaderLength) reader = (rest, Ok header) ->
  Uint32 (take 4 header) < 4 ->
  Unpack reader = (rest, Err ErrInvalidHeader).
Proof.
  intros HR Hlt. unfold Unpack. rewrite HR. cbv beta zeta iota. cbn [Length].
  destruct (Z.ltb_spec (Uint32 (take 4 header) - 4) 0); [reflexivity | lia].
Qed.

(** C3, as stated, fails: a header with length 4 and version 2 is decoded
    into a message, not refused. *)
Lemma Unpack_accepts_other_version :
  let reader := [x00; x00; x00; x04; x00; x02; x00; x01]%byte in
  Uint16 (take 2 (drop 4 reader)) = 2
  /\ 2 <> ProtocolVersion
  /\ Unpack reader = ([], Ok {| Length := 4; Version := 2; CmdType := 1; Body := [] |}).
Proof. repeat split; [discriminate]. Qed.
End codec.

Example hello_frame :
  protocol.encode (protocol.mkMessage 0 0 protocol.CmdTypeMessage
                     ["H"; "e"; "l"; "l"; "o"]%byte)
  = [x00; x00; x00; x09; x00; x01; x00; x04; "H"; "e"; "l"; "l"; "o"]%byte.
Proof. reflexivity. Qed.

(** ** Connection registry *)

Section registry.
Import server registry_ops.

Lemma GetUserID_SetUserID (h : Heap) (conn : loc) (uid : string) :
  is_Some (h !! conn) -> GetUserID conn (SetUserID conn uid h) = uid.
Proof.
  intros [c Hc]. unfold GetUserID, SetUserID.
  rewrite lookup_alter_eq, Hc. reflexivity.
Qed.

Lemma GetUserID_SetUserID_ne (h : Heap) (conn conn' : loc) (uid : string) :
  conn <> conn' -> GetUserID conn' (SetUserID conn uid h) = GetUserID conn' h.
Proof.
  intros Hne. unfold GetUserID, SetUserID.
  rewrite lookup_alter_ne by assumption. reflexivity.
Qed.

Lemma GetByUserID_BindUser (r : Registry) (uid : string) (conn : loc) :
  GetByUserID uid (BindUser uid conn r) = Some conn.
Proof. unfold GetByUserID, BindUser. simpl. apply lookup_insert_eq. Qed.

Lemma apply_keeps_unbound (r : Registry) (o : op) (uid : string) (conn : loc) :
  o <> OpBindUser uid conn ->
  GetByUserID uid r <> Some conn ->
  GetByUserID uid (apply r o) <> Some conn.
Proof.
  intros Ho Hr. destruct o as [c|c|u c]; simpl.
  - exact Hr.
  - unfold GetByUserID, Remove in *. simpl.
    case_bool_decide; [|exact Hr].
    destruct (decide (GetUserID c (heap r) = uid)) as [->|Hne].
    + rewrite lookup_delete_eq. discriminate.
    + rewrite lookup_delete_ne by assumption. exact Hr.
  - unfold GetByUserID, BindUser in *. simpl.
    destruct (decide (u = uid)) as [->|Hne].
    + rewrite lookup_insert_eq. intros [= ->]. apply Ho. reflexivity.
    + rewrite lookup_insert_ne by assumption. exact Hr.
Qed.

Lemma run_keeps_unbound (ops : list op) (uid : string) (conn : loc) :
  Forall (fun o => o <> OpBindUser uid conn) ops ->
  forall r : Registry,
    GetByUserID uid r <> Some conn ->
    GetByUserID uid (run ops r) <> Some conn.
Proof.
  induction 1 as [|o ops Ho _ IH]; intros r Hr; [exact Hr|].
  simpl. apply IH. apply apply_keeps_unbound; assumption.
Qed.

(** C8.  After [BindUser u c1] and then [BindUser u c2] the lookup of [u]
    returns [c2], and after any further registry operations that do not
    bind [u] to [c1] again it never returns [c1]; the table holds one
    connection per user, and binding replaces it. *)
Theorem BindUser_replaces_binding (r : Registry) (u : string) (c1 c2 : loc) :
  c1 <> c2 ->
  let r2 := BindUser u c2 (BindUser u c1 r) in
  GetByUserID u (BindUser u c1 r) = Some c1
  /\ GetByUserID u r2 = Some c2
  /\ (forall c : loc, GetByUserID u r2 = Some c -> c = c2)
  /\ (forall ops : list op,
        Forall (fun o => o <> OpBindUser u c1) ops ->
        GetByUserID u (run ops r2) <> Some c1).
Proof.
  intros Hne r2. split; [apply GetByUserID_BindUser|].
  split; [apply GetByUserID_BindUser|].
  split; [unfold r2; rewrite GetByUserID_BindUser; congruence|].
  intros ops Hops. apply run_keeps_unbound; [assumption|].
  unfold r2. rewrite GetByUserID_BindUser. congruence.
Qed.

(** C10.  [Remove] deletes the entry under the user ID of the connection
    being removed, whichever connection that entry points to; so after
    [BindUser u c1] and [BindUser u c2], removing [c1] leaves the lookup of
    [u] without a connection although [c2] was bound. *)
Theorem Remove_deletes_by_user (r : Registry) (u : string) (c1 c2 : loc) :
  u <> EmptyString ->
  is_Some (heap r !! c1) ->
  (forall (r0 : Registry) (c : loc),
     GetUserID c (heap r0) <> EmptyString ->
     GetByUserID (GetUserID c (heap r0)) (Remove c r0) = None)
  /\ GetByUserID u (BindUser u c2 (BindUser u c1 r)) = Some c2
  /\ GetByUserID u (Remove c1 (BindUser u c2 (BindUser u c1 r))) = None.
Proof.
  intros Hu Hc1. split.
  { intros r0 c Hc. unfold GetByUserID, Remove. simpl.
    rewrite bool_decide_eq_true_2 by assumption. apply lookup_delete_eq. }
  split; [apply GetByUserID_BindUser|].
  assert (Huid : GetUserID c1 (heap (BindUser u c2 (BindUser u c1 r))) = u).
  { simpl. destruct (decide (c2 = c1)) as [->|Hne].
    - apply GetUserID_SetUserID. unfold SetUserID.
      rewrite lookup_alter_eq. destruct Hc1 as [c ->]. simpl. eauto.
    - rewrite GetUserID_SetUserID_ne by assumption.
      apply GetUserID_SetUserID. assumption. }
  unfold GetByUserID, Remove. cbn [manager userConns]. rewrite Huid.
  rewrite bool_decide_eq_true_2 by assumption. apply lookup_delete_eq.
Qed.
End registry.

(** ** Scores of sorted-set elements *)

Section float64.
Import redis.

Lemma float64_exact (n : Z) : exact_seq n -> float64_of_int64 n = n.
Proof.
  unfold exact_seq, float64_of_int64. intros Hn. cbv zeta.
  destruct (Z.ltb_spec (Z.abs n) (2 ^ 53)); [reflexivity | lia].
Qed.

(** Beyond the exact range the rounded value stays beyond it, on the
    same side. *)
Lemma float64_large (n : Z) :
  2 ^ 53 <= Z.abs n ->
  2 ^ 53 <= Z.sgn n * float64_of_int64 n.
Proof.
  intros Hn. unfold float64_of_int64. cbv zeta.
  destruct (Z.ltb_spec (Z.abs n) (2 ^ 53)) as [?|_]; [lia|].
  set (a := Z.abs n) in *.
  assert (Hlog : 53 <= Z.log2 a) by (apply Z.log2_le_pow2; lia).
  set (e := Z.log2 a - 52).
  assert (He : 1 <= e) by (unfold e; lia).
  assert (Hq : 2 ^ 52 <= Z.shiftr a e).
  { rewrite Z.shiftr_div_pow2 by lia.
    apply Z.div_le_lower_bound; [apply Z.pow_pos_nonneg; lia|].
    rewrite Z.mul_comm, <- Z.pow_add_r by lia.
    replace (52 + e) with (Z.log2 a) by (unfold e; lia).
    apply Z.log2_spec. lia. }
  set (q := Z.shiftr a e) in *.
  set (q' := if _ <? _ then q else _).
  assert (Hq' : q <= q').
  { unfold q'. repeat match goal with |- context [if ?b then _ else _] => destruct b end; lia. }
  rewrite Z.shiftl_mul_pow2 by lia.
  assert (Hpow : 2 <= 2 ^ e).
  { change 2 with (2 ^ 1) at 1. apply Z.pow_le_mono_r; lia. }
  assert (Hsq : Z.sgn n * Z.sgn n = 1) by (unfold a in *; lia).
  rewrite Z.mul_assoc, Hsq, Z.mul_1_l. nia.
Qed.

(** Above 2^53 neighbouring integers share a double. *)
Example float64_rounds :
  float64_of_int64 (2 ^ 53 + 1) = 2 ^ 53
  /\ float64_of_int64 (2 ^ 53 + 3) = 2 ^ 53 + 4.
Proof. split; reflexivity. Qed.
End float64.

(** ** Sorted sets *)

Section zset_facts.
Import redis.
Context {M : Type} `{!EqDecision M} (member_ltb : M -> M -> bool).

Lemma zinsert_perm (e : ZEntry M) (zs : list (ZEntry M)) :
  zinsert member_ltb e zs ≡ₚ e :: zs.
Proof.
  induction zs as [|x zs IH]; simpl; [reflexivity|].
  destruct (entry_ltb member_ltb e x); [reflexivity|].
  rewrite IH. apply Permutation_swap.
Qed.

Lemma zinsert_sorted (e : ZEntry M) (zs : list (ZEntry M)) :
  StronglySorted lt_score zs ->
  Forall (fun x => Score x <> Score e) zs ->
  StronglySorted lt_score (zinsert member_ltb e zs).
Proof.
  induction 1 as [|x zs Hs IH Hx]; intros Hne; simpl.
  - repeat constructor.
  - apply Forall_cons in Hne as [Hxe Hne].
    destruct (entry_ltb member_ltb e x) eqn:Hlt.
    + assert (He : Score e < Score x).
      { unfold entry_ltb in Hlt. apply orb_true_iff in Hlt as [Hlt|Hlt].
        - apply Z.ltb_lt. exact Hlt.
        - apply andb_true_iff in Hlt as [Heq _]. apply Z.eqb_eq in Heq. congruence. }
      constructor; [constructor; assumption|].
      constructor; [exact He|].
      eapply Forall_impl; [exact Hx|]. unfold lt_score. simpl. intros; lia.
    + assert (He : Score x < Score e).
      { unfold entry_ltb in Hlt. apply orb_false_iff in Hlt as [Hlt _].
        apply Z.ltb_ge in Hlt. lia. }
      constructor; [apply IH; exact Hne|].
      rewrite zinsert_perm. constructor; assumption.
Qed.

Lemma zadd_fresh (e : ZEntry M) (zs : list (ZEntry M)) :
  Forall (fun x => Member x <> Member e) zs ->
  zadd member_ltb e zs = zinsert member_ltb e zs.
Proof.
  intros Hf. unfold zadd. f_equal.
  induction Hf as [|x zs Hx _ IH]; [reflexivity|].
  rewrite filter_cons_True by exact Hx. f_equal. exact IH.
Qed.

(** Trimming to the [cap] highest ranks, as [Store] asks for it. *)
Lemma trim_within (cap : Z) (zs : list (ZEntry M)) :
  0 < cap -> Z.of_nat (length zs) <= cap ->
  zremrangebyrank 0 (- cap - 1) zs = zs.
Proof.
  intros Hcap Hlen. unfold zremrangebyrank, rank_range. cbv zeta.
  change (0 <? 0) with false. cbv iota. change (0 <? 0) with false. cbv iota.
  destruct (Z.ltb_spec (- cap - 1) 0) as [_|?]; [|lia].
  destruct (Z.gtb_spec 0 (Z.of_nat (length zs) + (- cap - 1))) as [_|?]; [|lia].
  reflexivity.
Qed.

Lemma trim_beyond (cap : Z) (zs : list (ZEntry M)) :
  0 < cap -> cap < Z.of_nat (length zs) ->
  zremrangebyrank 0 (- cap - 1) zs
  = drop (length zs - Z.to_nat cap) zs.
Proof.
  intros Hcap Hlen. unfold zremrangebyrank, rank_range. cbv zeta.
  change (0 <? 0) with false. cbv iota. change (0 <? 0) with false. cbv iota.
  destruct (Z.ltb_spec (- cap - 1) 0) as [_|?]; [|lia].
  destruct (Z.gtb_spec 0 (Z.of_nat (length zs) + (- cap - 1))) as [?|_]; [lia|].
  destruct (Z.geb_spec 0 (Z.of_nat (length zs))) as [?|_]; [lia|].
  simpl orb. cbv iota.
  destruct (Z.geb_spec (Z.of_nat (length zs) + (- cap - 1)) (Z.of_nat (length zs)))
    as [?|_]; [lia|].
  change (Z.to_nat 0) with 0%nat. rewrite take_0. simpl app. f_equal. lia.
Qed.

Lemma zremrangebyscore_upto_spec (max : Z) (zs : list (ZEntry M)) (e : ZEntry M) :
  e ∈ zremrangebyscore_upto max zs <-> e ∈ zs /\ max < Score e.
Proof.
  unfold zremrangebyscore_upto. rewrite list_elem_of_filter. split.
  - intros [H1 H2]. split; [exact H2 | lia].
  - intros [H1 H2]. split; [lia | exact H1].
Qed.

End zset_facts.

(** ** The store under [Store] *)

Section store_facts.
Import redis service.
Context `{JsonLaws}.

Lemma Marshal_OfflineMessage_inv (m : OfflineMessage.t) (data : Text) :
  Marshal_OfflineMessage m = Ok data -> Unmarshal_OfflineMessage data = Ok m.
Proof.
  intros Hm. destruct (Unmarshal_Marshal_OfflineMessage m) as (d & Hd & Hu).
  congruence.
Qed.

Lemma roundtrip_reachable {A : Type} (cmd : DB Text -> DB Text * result A)
    (s : DB Text) :
  faults s = [] -> roundtrip cmd s = cmd s.
Proof. intros Hf. unfold roundtrip. rewrite Hf. reflexivity. Qed.

Lemma zset_at_put_zset (key : string) (zs : list (ZEntry Text)) (s : DB Text) :
  zset_at key (put_zset key zs s) = zs.
Proof.
  unfold zset_at, put_zset. destruct zs as [|z zs]; simpl.
  - rewrite lookup_delete_eq. reflexivity.
  - rewrite lookup_insert_eq. reflexivity.
Qed.

Lemma zset_at_put_zset_ne (key key' : string) (zs : list (ZEntry Text))
    (s : DB Text) :
  key <> key' -> zset_at key' (put_zset key zs s) = zset_at key' s.
Proof.
  intros Hne. unfold zset_at, put_zset. destruct zs as [|z zs]; simpl.
  - rewrite lookup_delete_ne by assumption. reflexivity.
  - rewrite lookup_insert_ne by assumption. reflexivity.
Qed.

Lemma faults_put_zset (key : string) (zs : list (ZEntry Text)) (s : DB Text) :
  faults (put_zset key zs s) = faults s.
Proof. unfold put_zset. destruct zs; reflexivity. Qed.


(** [Store] against a reachable store. *)
Lemma Store_reachable (userID : string) (msg : OfflineMessage.t) (now : Z)
    (data : Text) (s : DB Text) :
  faults s = [] ->
  Marshal_OfflineMessage (OfflineMessage.set_Timestamp now msg) = Ok data ->
  exists s',
    service.Store userID msg now s = (s', None)
    /\ faults s' = []
    /\ mailbox userID s'
       = zremrangebyrank 0 (- MaxOfflineMessages - 1)
           (zadd Text_ltb
              (mkZ (float64_of_int64 (OfflineMessage.SeqID msg)) data)
              (mailbox userID s)).
Proof.
  intros Hf Hm. unfold service.Store. rewrite Hm.
  unfold ZAdd. rewrite roundtrip_reachable by exact Hf.
  set (key := OfflineBoxPrefix +:+ userID).
  set (s1 := put_zset key _ s).
  assert (Hf1 : faults s1 = []) by (unfold s1; rewrite faults_put_zset; exact Hf).
  unfold ZRemRangeByRank. rewrite (roundtrip_reachable _ s1 Hf1). cbn [fst].
  set (s2 := put_zset key _ s1).
  assert (Hf2 : faults s2 = []) by (unfold s2; rewrite faults_put_zset; exact Hf1).
  unfold Expire. rewrite (roundtrip_reachable _ s2 Hf2). cbn [fst].
  exists s2. split; [reflexivity|]. split; [exact Hf2|].
  unfold mailbox. fold key. unfold s2. rewrite zset_at_put_zset.
  unfold s1. rewrite zset_at_put_zset. reflexivity.
Qed.
End store_facts.

(** ** The cap of the mailbox *)

Section mailbox_cap.
Import redis service.
Context `{JsonLaws}.

Lemma mailbox_inv_nil : mailbox_inv [] [].
Proof.
  split; [constructor | constructor | reflexivity |].
  intros i Hi. apply elem_of_nil in Hi. destruct Hi.
Qed.

Lemma mailbox_inv_step (done : list insertion) (zs : list (ZEntry Text))
    (i : insertion) (data : Text) :
  mailbox_inv done zs ->
  exact_seq (ins_seq i) ->
  ins_seq i ∉ (ins_seq <$> done) ->
  Marshal_OfflineMessage (stamped i) = Ok data ->
  mailbox_inv (i :: done)
    (zremrangebyrank 0 (- MaxOfflineMessages - 1)
       (zadd Text_ltb (mkZ (float64_of_int64 (ins_seq i)) data) zs)).
Proof.
  intros [Hfrom Hsorted Hlen Hev] Hexact Hnew Hdata.
  rewrite float64_exact by exact Hexact.
  set (e := mkZ (ins_seq i) data).
  assert (Hother : forall x, x ∈ zs -> Member x <> Member e /\ Score x <> Score e).
  { intros x Hx. rewrite Forall_forall in Hfrom.
    destruct (Hfrom x Hx) as (i0 & Hi0 & Hm0 & Hs0).
    assert (Hne : ins_seq i0 <> ins_seq i).
    { intros Heq. apply Hnew. rewrite <- Heq.
      apply list_elem_of_fmap. exists i0. split; [reflexivity | exact Hi0]. }
    split; [|simpl; congruence].
    simpl. intros Heq. rewrite Heq in Hm0.
    apply Marshal_OfflineMessage_inv in Hm0, Hdata.
    apply Hne. unfold ins_seq.
    change (OfflineMessage.SeqID i0.1) with (OfflineMessage.SeqID (stamped i0)).
    change (OfflineMessage.SeqID i.1) with (OfflineMessage.SeqID (stamped i)).
    congruence. }
  rewrite zadd_fresh by (apply Forall_forall; intros x Hx; apply Hother, Hx).
  pose proof (zinsert_perm Text_ltb e zs) as Hperm.
  assert (Hsorted' : StronglySorted lt_score (zinsert Text_ltb e zs)).
  { apply zinsert_sorted; [exact Hsorted|].
    apply Forall_forall. intros x Hx. apply Hother, Hx. }
  assert (Hlen' : length (zinsert Text_ltb e zs) = S (length zs)).
  { rewrite Hperm. reflexivity. }
  assert (Hfrom' : Forall (fun x => exists i0, i0 ∈ i :: done /\ holds i0 x)
                     (zinsert Text_ltb e zs)).
  { rewrite Hperm. constructor.
    - exists i. split; [left|]. split; [exact Hdata | reflexivity].
    - eapply Forall_impl; [exact Hfrom|].
      intros x (i0 & Hi0 & Hh). exists i0. split; [right; exact Hi0 | exact Hh]. }
  unfold MaxOfflineMessages.
  destruct (decide (length zs < 1000)%nat) as [Hshort|Hfull].
  - rewrite trim_within by lia.
    split; [exact Hfrom' | exact Hsorted' | simpl; lia |].
    intros i0 Hi0. left. apply elem_of_cons in Hi0 as [->|Hi0].
    + rewrite Hperm. simpl. left.
    + destruct (Hev i0 Hi0) as [Hin|[Hfull _]]; [|lia].
      rewrite Hperm. simpl. right. exact Hin.
  - assert (Hz : length zs = 1000%nat) by lia.
    rewrite trim_beyond by lia.
    replace (length (zinsert Text_ltb e zs) - Z.to_nat 1000)%nat with 1%nat by lia.
    destruct (zinsert Text_ltb e zs) as [|h t] eqn:Hins; [discriminate|].
    simpl drop. rewrite drop_0.
    apply StronglySorted_inv in Hsorted' as [Ht Hh].
    apply Forall_cons in Hfrom' as [_ Hfrom'].
    simpl in Hlen'.
    assert (Hmem : forall x, x ∈ zs -> x = h \/ x ∈ t).
    { intros x Hx. assert (Hx' : x ∈ h :: t) by (rewrite Hperm; right; exact Hx).
      apply elem_of_cons in Hx'. exact Hx'. }
    assert (He : e = h \/ e ∈ t).
    { assert (Hx' : e ∈ h :: t) by (rewrite Hperm; left).
      apply elem_of_cons in Hx'. exact Hx'. }
    assert (Hbelow : forall v, v = Score h -> length t = 1000%nat /\ Forall (fun y => v < Score y) t).
    { intros v ->. split; [lia|]. exact Hh. }
    split; [exact Hfrom' | exact Ht | simpl; lia |].
    intros i0 Hi0. apply elem_of_cons in Hi0 as [->|Hi0].
    + destruct He as [<-|He]; [right; apply Hbelow; reflexivity|].
      left. apply list_elem_of_fmap. exists e. split; [reflexivity | exact He].
    + destruct (Hev i0 Hi0) as [Hin|[_ Hlow]].
      * apply list_elem_of_fmap in Hin as (x & Hsx & Hx).
        destruct (Hmem x Hx) as [->|Hxt].
        -- right. apply Hbelow. exact Hsx.
        -- left. apply list_elem_of_fmap. exists x. split; assumption.
      * right. split; [lia|]. apply Forall_forall. intros y Hy.
        assert (Hy' : y ∈ e :: zs) by (rewrite <- Hperm; right; exact Hy).
        rewrite Forall_forall in Hlow, Hh.
        apply elem_of_cons in Hy' as [->|Hy']; [|apply Hlow, Hy'].
        specialize (Hh e Hy). unfold lt_score in Hh.
        assert (Hhz : h ∈ zs).
        { assert (Hh' : h ∈ e :: zs) by (rewrite <- Hperm; left).
          apply elem_of_cons in Hh' as [->|Hh']; [lia | exact Hh']. }
        specialize (Hlow h Hhz). lia.
Qed.

Lemma Store_all_inv (userID : string) (ins : list insertion) :
  forall (done : list insertion) (s : DB Text),
    faults s = [] ->
    mailbox_inv done (mailbox userID s) ->
    NoDup (ins_seq <$> ins) ->
    (forall i, i ∈ ins -> ins_seq i ∉ (ins_seq <$> done)) ->
    Forall (fun i => exact_seq (ins_seq i)) ins ->
    faults (Store_all userID ins s) = []
    /\ mailbox_inv (reverse ins ++ done) (mailbox userID (Store_all userID ins s)).
Proof.
  induction ins as [|i ins IH]; intros done s Hf Hinv Hnd Hnew Hexact.
  - split; [exact Hf | exact Hinv].
  - apply Forall_cons in Hexact as [Hi Hexact].
    rewrite fmap_cons in Hnd. apply NoDup_cons in Hnd as [Hi_new Hnd].
    destruct (Unmarshal_Marshal_OfflineMessage (stamped i)) as (data & Hdata & _).
    destruct (Store_reachable userID i.1 i.2 data s Hf Hdata) as (s' & HS & Hf' & Hbox).
    simpl Store_all. rewrite HS. cbn [fst].
    rewrite reverse_cons, <- app_assoc. simpl app.
    apply IH; [exact Hf' | | exact Hnd | | exact Hexact].
    + rewrite Hbox. apply mailbox_inv_step; [exact Hinv | exact Hi | | exact Hdata].
      apply Hnew. left.
    + intros j Hj. rewrite fmap_cons. intros Hin.
      apply elem_of_cons in Hin as [Heq|Hin].
      * apply Hi_new. rewrite <- Heq. apply list_elem_of_fmap.
        exists j. split; [reflexivity | exact Hj].
      * revert Hin. apply Hnew. right. exact Hj.
Qed.

Lemma elem_of_decode_messages (r : OfflineMessage.t) (docs : list Text) :
  r ∈ decode_messages docs
  <-> exists d, d ∈ docs /\ Unmarshal_OfflineMessage d = Ok r.
Proof.
  induction docs as [|d docs IH]; simpl.
  - split; [intros Hr; apply elem_of_nil in Hr; destruct Hr|].
    intros (d & Hd & _). apply elem_of_nil in Hd. destruct Hd.
  - destruct (Unmarshal_OfflineMessage d) as [m|err] eqn:Hd.
    + rewrite elem_of_cons, IH. split.
      * intros [->|(d' & Hd' & Hu)]; [exists d; split; [left | exact Hd]|].
        exists d'. split; [right; exact Hd' | exact Hu].
      * intros (d' & Hd' & Hu). apply elem_of_cons in Hd' as [->|Hd'].
        -- left. congruence.
        -- right. exists d'. split; assumption.
    + rewrite IH. split.
      * intros (d' & Hd' & Hu). exists d'. split; [right; exact Hd' | exact Hu].
      * intros (d' & Hd' & Hu). apply elem_of_cons in Hd' as [->|Hd'].
        -- congruence.
        -- exists d'. split; assumption.
Qed.


Lemma NoDup_fmap_eq {A B : Type} (f : A -> B) (l : list A) (x y : A) :
  NoDup (f <$> l) -> x ∈ l -> y ∈ l -> f x = f y -> x = y.
Proof.
  induction l as [|a l IH]; intros Hnd Hx Hy Hf.
  - apply elem_of_nil in Hx. destruct Hx.
  - rewrite fmap_cons in Hnd. apply NoDup_cons in Hnd as [Ha Hnd].
    apply elem_of_cons in Hx as [->|Hx]; apply elem_of_cons in Hy as [->|Hy].
    + reflexivity.
    + exfalso. apply Ha. rewrite Hf. apply list_elem_of_fmap. eauto.
    + exfalso. apply Ha. rewrite <- Hf. apply list_elem_of_fmap. eauto.
    + apply IH; assumption.
Qed.

End mailbox_cap.

(** ** Acknowledged messages *)

Section mailbox_ack.
Import redis service.
Context `{JsonLaws}.


Lemma same_content_set_faults (fs : list bool) (s : DB Text) :
  same_content (set_faults fs s) s.
Proof. repeat split. Qed.




(** The mailboxes that [Store] builds are of this kind. *)
Lemma Store_all_mailbox_wf (userID : string) (ins : list insertion) (s0 : DB Text) :
  faults s0 = [] ->
  mailbox userID s0 = [] ->
  NoDup (ins_seq <$> ins) ->
  Forall (fun i => exact_seq (ins_seq i)) ins ->
  mailbox_wf (mailbox userID (Store_all userID ins s0)).
Proof.
  intros Hf Hempty Hnd Hexact.
  destruct (Store_all_inv userID ins [] s0 Hf) as [_ Hinv];
    [rewrite Hempty; apply mailbox_inv_nil | exact Hnd | | exact Hexact |].
  { intros i _ Hin. apply elem_of_nil in Hin. destruct Hin. }
  rewrite app_nil_r in Hinv. destruct Hinv as [Hfrom _ _ _].
  eapply Forall_impl; [exact Hfrom|].
  intros e (i & Hi & Hm & Hs). rewrite elem_of_reverse in Hi.
  rewrite Forall_forall in Hexact. specialize (Hexact i Hi).
  exists (stamped i). split; [apply Marshal_OfflineMessage_inv; exact Hm|].
  change (OfflineMessage.SeqID (stamped i)) with (ins_seq i).
  split; [rewrite float64_exact by exact Hexact; exact Hs | exact Hexact].
Qed.

End mailbox_ack.

(** ** Sending on a connection *)

Section send.
Import server.

Lemma ready_cases (c : Connection) :
  ready c = (if bool_decide (queue_full c) then [] else [CaseEnqueue])
            ++ (if closed c then [CaseClosed] else []).
Proof.
  unfold ready, queue_full. f_equal.
  repeat case_bool_decide; try reflexivity; lia.
Qed.

Lemma select_resolves (pick : nat) (c : Connection) :
  (ready c = [] /\ select pick c = CaseDefault)
  \/ (ready c <> [] /\ select pick c ∈ ready c).
Proof.
  unfold select. destruct (ready c) as [|r rs] eqn:Hr; [left; split; reflexivity|].
  right. split; [discriminate|].
  apply list_elem_of_In, nth_In, Nat.mod_upper_bound. discriminate.
Qed.

(** An open connection with room in its queue takes the frame. *)
Lemma Connection_Send_room (pick : nat) (msg : protocol.Message)
    (c : Connection) (data : list byte) :
  snd (protocol.Pack msg) = Ok data ->
  closed c = false ->
  ~ queue_full c ->
  Connection_Send pick msg c = (enqueued data c, None).
Proof.
  intros HP Hc Hq. unfold Connection_Send.
  destruct (protocol.Pack msg) as [msg' [d|e]]; simpl in HP; [|discriminate].
  injection HP as ->.
  pose proof (select_resolves pick c) as Hsel.
  rewrite ready_cases, Hc, bool_decide_eq_false_2 in Hsel by exact Hq.
  destruct Hsel as [[Hr _]|[_ Hs]]; [discriminate Hr|].
  apply list_elem_of_singleton in Hs. rewrite Hs. reflexivity.
Qed.

(** C6, as amended.  For a message that [Pack] accepts: on a closed
    connection [Send] returns [ErrClosed] when the queue is full, and when
    the queue has room it either returns [ErrClosed] or queues the frame
    and returns nil; on an open connection with a full queue it drops the
    message and returns nil, and with room it queues the frame and returns
    nil.  The [select] never waits: it takes the default exactly when no
    communication can proceed. *)
Theorem Connection_Send_outcomes (pick : nat) (msg : protocol.Message)
    (c : Connection) (data : list byte) :
  snd (protocol.Pack msg) = Ok data ->
  (closed c = true -> queue_full c ->
     Connection_Send pick msg c = (c, Some ErrClosed))
  /\ (closed c = true -> ~ queue_full c ->
        Connection_Send pick msg c = (c, Some ErrClosed)
        \/ Connection_Send pick msg c = (enqueued data c, None))
  /\ (closed c = false -> queue_full c ->
        Connection_Send pick msg c = (c, None))
  /\ (closed c = false -> ~ queue_full c ->
        Connection_Send pick msg c = (enqueued data c, None))
  /\ ((ready c = [] /\ select pick c = CaseDefault)
      \/ (ready c <> [] /\ select pick c ∈ ready c)).
Proof.
  intros HP. unfold Connection_Send.
  destruct (protocol.Pack msg) as [msg' [d|e]]; simpl in HP; [|discriminate].
  injection HP as ->.
  pose proof (select_resolves pick c) as Hsel.
  rewrite ready_cases in Hsel.
  split; [|split; [|split; [|split]]].
  - intros Hc Hq. rewrite Hc, bool_decide_eq_true_2 in Hsel by exact Hq.
    destruct Hsel as [[Hr _]|[_ Hs]]; [discriminate Hr|].
    apply list_elem_of_singleton in Hs. rewrite Hs. reflexivity.
  - intros Hc Hq. rewrite Hc, bool_decide_eq_false_2 in Hsel by exact Hq.
    destruct Hsel as [[Hr _]|[_ Hs]]; [discriminate Hr|].
    apply elem_of_cons in Hs as [Hs|Hs].
    + right. rewrite Hs. reflexivity.
    + left. apply list_elem_of_singleton in Hs. rewrite Hs. reflexivity.
  - intros Hc Hq. rewrite Hc, bool_decide_eq_true_2 in Hsel by exact Hq.
    destruct Hsel as [[_ Hs]|[Hr _]]; [|destruct Hr; reflexivity].
    rewrite Hs. reflexivity.
  - intros Hc Hq. rewrite Hc, bool_decide_eq_false_2 in Hsel by exact Hq.
    destruct Hsel as [[Hr _]|[_ Hs]]; [discriminate Hr|].
    apply list_elem_of_singleton in Hs. rewrite Hs. reflexivity.
  - exact (select_resolves pick c).
Qed.

(** C6, as stated, fails: on a closed connection whose queue has room the
    [select] may take the send case, and [Send] then queues the frame and
    returns nil. *)
Lemma Connection_Send_closed_may_enqueue :
  let c := {| ID := 1; UserID := EmptyString; writeChan := []; closed := true; written := [] |} in
  let msg := protocol.mkMessage 0 0 protocol.CmdTypeHeartbeat [] in
  closed c = true
  /\ Connection_Send 0 msg c
     = (enqueued [x00; x00; x00; x04; x00; x01; x00; x01]%byte c, None).
Proof. split; reflexivity. Qed.
End send.

(** ** Routing a private message *)

Section dispatch.
Import redis service.
Context `{Json}.





End dispatch.

(** ** Authentication *)

Section auth.
Import redis server service app.
Context `{Json} `{Jwt}.

Lemma Send_enqueues (pick : nat) (conn : loc) (msg : protocol.Message)
    (h : Heap) (c : Connection) :
  h !! conn = Some c ->
  closed c = false ->
  ~ queue_full c ->
  fits msg ->
  server.Send pick conn msg h
  = (<[conn := enqueued (frame_bytes msg) c]> h, None).
Proof.
  intros Hc Hopen Hroom Hfit. unfold server.Send. rewrite Hc.
  rewrite (Connection_Send_room pick msg c (frame_bytes msg));
    [reflexivity | | exact Hopen | exact Hroom].
  rewrite (Pack_fits msg Hfit). reflexivity.
Qed.

(** C9.  When the request decodes, the token validates and [Login] returns
    an error, [handleAuth] still sends [AuthAck] with success set and the
    user ID as message (on an open connection with room the frame is
    queued), the user stays bound to the connection in the registry, and
    the delivery of the offline messages is started. *)
Theorem handleAuth_login_failure (gatewayID : string) (pick : nat) (now : Z)
    (conn : loc) (msg : protocol.Message) (w : World)
    (token : string) (claims : Claims.t) (err : error) :
  Unmarshal_AuthRequest (protocol.Body msg) = Ok token ->
  ValidateToken token = Ok claims ->
  let uid := Claims.UserID claims in
  let bound := BindUser uid conn (registry w) in
  snd (Login gatewayID uid (GetID conn (heap bound)) now (store w)) = Some err ->
  let w' := fst (handleAuth gatewayID pick now conn msg w) in
  heap (registry w') = fst (server.Send pick conn (authAck true uid) (heap bound))
  /\ GetByUserID uid (registry w') = Some conn
  /\ snd (handleAuth gatewayID pick now conn msg w)
     = [GoDeliverOfflineMessages uid conn]
  /\ (forall c,
        heap (registry w) !! conn = Some c ->
        closed c = false ->
        ~ queue_full c ->
        fits (authAck true uid) ->
        heap (registry w') !! conn
        = Some (enqueued (frame_bytes (authAck true uid)) (set_UserID uid c))).
Proof.
  intros Hreq Htok uid bound Hlogin w'.
  assert (Hw' : handleAuth gatewayID pick now conn msg w
                = (sendAuthResponse pick conn true uid
                     (set_store (fst (Login gatewayID uid (GetID conn (heap bound)) now
                                        (store w)))
                        (set_registry bound w)),
                   [GoDeliverOfflineMessages uid conn])).
  { unfold handleAuth. rewrite Hreq, Htok. cbv zeta. cbn [store registry set_registry].
    fold uid. fold bound.
    destruct (Login gatewayID uid (GetID conn (heap bound)) now (store w)) as [s e].
    reflexivity. }
  unfold w'. rewrite Hw'. cbn [fst snd].
  unfold sendAuthResponse. cbn [registry set_heap set_registry set_store heap manager].
  fold (authAck true uid).
  split; [reflexivity|]. split; [apply GetByUserID_BindUser|]. split; [reflexivity|].
  intros c Hc Hopen Hroom Hfit.
  assert (Hb : heap bound !! conn = Some (set_UserID uid c)).
  { unfold bound, BindUser, SetUserID. cbn [heap].
    rewrite lookup_alter_eq, Hc. reflexivity. }
  rewrite (Send_enqueues pick conn _ _ _ Hb Hopen Hroom Hfit). cbn [fst].
  apply lookup_insert_eq.
Qed.
End auth.

(** ** Delivery of the offline messages *)

Section replay.
Import redis server service.
Context `{Json}.

Lemma zrevrange_latest (n : Z) (zs : list (ZEntry Text)) :
  0 < n ->
  zrevrange 0 (n - 1) zs = Member <$> take (Z.to_nat n) (reverse zs).
Proof.
  intros Hn. unfold zrevrange, rank_range. cbv zeta.
  change (0 <? 0) with false. cbv iota. change (0 <? 0) with false. cbv iota.
  destruct (Z.ltb_spec (n - 1) 0) as [?|_]; [lia|].
  destruct (Z.gtb_spec 0 (n - 1)) as [?|_]; [lia|].
  simpl orb.
  destruct (Z.geb_spec 0 (Z.of_nat (length zs))) as [Hlen|Hlen].
  - destruct zs; [|simpl in Hlen; lia]. rewrite reverse_nil, take_nil. reflexivity.
  - change (Z.to_nat 0) with 0%nat. rewrite drop_0. f_equal.
    destruct (Z.geb_spec (n - 1) (Z.of_nat (length zs))) as [Hge|Hlt].
    + rewrite !take_ge by (rewrite length_reverse; lia). reflexivity.
    + f_equal. lia.
Qed.

Lemma set_writeChan_same (c : Connection) : set_writeChan (writeChan c) c = c.
Proof. destruct c; reflexivity. Qed.

Lemma push_each_enqueues (pick : nat -> nat) (conn : loc)
    (msgs : list OfflineMessage.t) :
  forall (i : nat) (h : Heap) (c : Connection),
    h !! conn = Some c ->
    closed c = false ->
    (length (writeChan c) + length msgs <= writeChanCap)%nat ->
    Forall chat_body_ok msgs ->
    push_each pick i conn msgs h
    = <[conn := set_writeChan (writeChan c ++ (chat_frame <$> msgs)) c]> h.
Proof.
  induction msgs as [|m msgs IH]; intros i h c Hc Hopen Hroom Hok.
  - simpl. rewrite app_nil_r, set_writeChan_same. symmetry. apply insert_id. exact Hc.
  - apply Forall_cons in Hok as [(body & Hbody & Hlen) Hok].
    simpl in Hroom. simpl push_each. rewrite Hbody.
    set (frame := {| protocol.Length := 0; protocol.Version := 0;
                     protocol.CmdType := protocol.CmdTypeMessage;
                     protocol.Body := body |}).
    assert (Hcf : chat_frame m = frame_bytes frame).
    { unfold chat_frame. rewrite Hbody. reflexivity. }
    rewrite fmap_cons, Hcf.
    rewrite (Send_enqueues (pick i) conn frame h c Hc Hopen).
    + cbn [fst].
      rewrite (IH (S i) _ (enqueued (frame_bytes frame) c)).
      * rewrite insert_insert_eq. f_equal.
        unfold enqueued, set_writeChan. cbn [writeChan ID UserID closed written].
        rewrite <- app_assoc. reflexivity.
      * apply lookup_insert_eq.
      * exact Hopen.
      * unfold enqueued. simpl. rewrite length_app. simpl. lia.
      * exact Hok.
    + unfold queue_full. lia.
    + split; [exact Hlen | simpl; unfold protocol.CmdTypeMessage; lia].
Qed.

(** C2.  What the code does: [DeliverOfflineMessages] queues the frames of
    the fetched messages from the highest rank of the mailbox downwards,
    that is newest first, not in ascending sequence order. *)
Theorem DeliverOfflineMessages_newest_first (pick : nat -> nat)
    (userID : string) (conn : loc) (w : World) (c : Connection) :
  hd false (faults (store w)) = false ->
  heap (registry w) !! conn = Some c ->
  closed c = false ->
  let msgs := decode_messages
                (Member <$> take 100 (reverse (mailbox userID (store w)))) in
  Forall chat_body_ok msgs ->
  (length (writeChan c) + length msgs <= writeChanCap)%nat ->
  let w' := fst (DeliverOfflineMessages pick userID conn w) in
  heap (registry w') !! conn
  = Some (set_writeChan (writeChan c ++ (chat_frame <$> msgs)) c).
Proof.
  intros Hreach Hc Hopen msgs Hok Hroom w'.
  unfold w', DeliverOfflineMessages, FetchLatest, ZRevRange, roundtrip.
  assert (Hfetch : forall s0, mailbox userID s0 = mailbox userID (store w) ->
            decode_messages (zrevrange 0 (100 - 1)
                               (zset_at (OfflineBoxPrefix +:+ userID) s0)) = msgs).
  { intros s0 Hs0. rewrite zrevrange_latest by lia. unfold msgs.
    fold (mailbox userID s0). rewrite Hs0. reflexivity. }
  destruct (faults (store w)) as [|[|] fs] eqn:Hf; [|discriminate Hreach|].
  - rewrite Hfetch by reflexivity. cbn [fst registry set_heap set_registry set_store heap].
    rewrite (push_each_enqueues pick conn msgs 0 _ c Hc Hopen Hroom Hok).
    apply lookup_insert_eq.
  - rewrite Hfetch by reflexivity. cbn [fst registry set_heap set_registry set_store heap].
    rewrite (push_each_enqueues pick conn msgs 0 _ c Hc Hopen Hroom Hok).
    apply lookup_insert_eq.
Qed.
End replay.

Lemma plain_laws : @service.JsonLaws plain.json.
Proof. constructor. intros m. exists m. split; reflexivity. Qed.

(** ** The statements at concrete inputs *)

Section witnesses.
Import redis server service app.
#[local] Existing Instance plain.json.
#[local] Existing Instance plain_laws.
#[local] Existing Instance plain.jwt.

Lemma pack_unpack_roundtrip_witness :
  let hello := protocol.mkMessage 0 0 protocol.CmdTypeMessage
                 ["H"; "e"; "l"; "l"; "o"]%byte in
  let ping := protocol.mkMessage 0 0 protocol.CmdTypeHeartbeat [] in
  exists frames,
    Forall2 (fun msg data => protocol.Pack msg = (protocol.packed msg, Ok data))
      [hello; ping] frames
    /\ protocol.readLoop (S (length (concat frames))) (concat frames)
       = Some ([protocol.mkMessage 9 1 4 ["H"; "e"; "l"; "l"; "o"]%byte;
                protocol.mkMessage 4 1 1 []], EOF).
Proof.
  intros hello ping.
  apply (pack_unpack_roundtrip [hello; ping]).
  apply Forall_cons_2; [|apply Forall_cons_2; [|apply Forall_nil_2]];
    (split; [apply Z.leb_le; reflexivity
            | split; [apply Z.leb_le | apply Z.ltb_lt]; reflexivity]).
Defined.

Lemma Unpack_short_length_witness :
  protocol.Unpack [x00; x00; x00; x03; x00; x01; x00; x01; "x"]%byte
  = (["x"]%byte, Err ErrInvalidHeader).
Proof.
  apply (Unpack_short_length _ _ [x00; x00; x00; x03; x00; x01; x00; x01]%byte).
  - reflexivity.
  - vm_compute. reflexivity.
Defined.


Lemma bob_box_3 : mailbox "bob" (plain.bob_box 3) = [plain.stored 1; plain.stored 2; plain.stored 3].
Proof. vm_compute. reflexivity. Qed.


Lemma Connection_Send_outcomes_witness :
  let ping := protocol.mkMessage 0 0 protocol.CmdTypeHeartbeat [] in
  let frame := [x00; x00; x00; x04; x00; x01; x00; x01]%byte in
  let busy := {| ID := 1; UserID := "bob"; writeChan := replicate 256 frame;
                 closed := false; written := [] |} in
  Connection_Send 7 ping busy = (busy, None)
  /\ Connection_Send 7 ping (Close busy) = (Close busy, Some ErrClosed)
  /\ Connection_Send 7 ping (NewConnection 2)
     = (enqueued frame (NewConnection 2), None).
Proof.
  intros ping frame busy.
  assert (HP : snd (protocol.Pack ping) = Ok frame) by reflexivity.
  assert (Hfull : queue_full busy) by (vm_compute; lia).
  assert (Hroom : ~ queue_full (NewConnection 2)) by (vm_compute; lia).
  split; [|split].
  - apply (Connection_Send_outcomes 7 ping busy frame HP); [reflexivity | exact Hfull].
  - apply (Connection_Send_outcomes 7 ping (Close busy) frame HP);
      [reflexivity | exact Hfull].
  - apply (Connection_Send_outcomes 7 ping (NewConnection 2) frame HP);
      [reflexivity | exact Hroom].
Defined.

Lemma BindUser_replaces_binding_witness :
  let r2 := BindUser "bob" 2 (BindUser "bob" 1 plain.two_conns) in
  GetByUserID "bob" r2 = Some 2%positive
  /\ GetByUserID "bob"
       (registry_ops.run [registry_ops.OpAdd 1; registry_ops.OpBindUser "carol" 1;
                          registry_ops.OpRemove 2] r2)
     <> Some 1%positive.
Proof.
  intros r2.
  destruct (BindUser_replaces_binding plain.two_conns "bob" 1 2) as (_ & Hnow & _ & Hlater);
    [discriminate|].
  split; [exact Hnow|]. apply Hlater.
  repeat (apply Forall_cons_2; [discriminate|]). apply Forall_nil_2.
Defined.

Lemma Remove_deletes_by_user_witness :
  GetByUserID "bob" (BindUser "bob" 2 (BindUser "bob" 1 plain.two_conns)) = Some 2%positive
  /\ GetByUserID "bob"
       (server.Remove 1 (BindUser "bob" 2 (BindUser "bob" 1 plain.two_conns))) = None.
Proof.
  apply (Remove_deletes_by_user plain.two_conns "bob" 1 2).
  - discriminate.
  - exists (NewConnection 1). reflexivity.
Defined.


Lemma handleAuth_login_failure_witness :
  let request := protocol.mkMessage 9 1 protocol.CmdTypeAuth
                   ["a"; "l"; "i"; "c"; "e"]%byte in
  let w' := fst (handleAuth "gateway_1" 0 100 1 request (plain.one_conn [true])) in
  snd (Login "gateway_1" "alice" 7 100 (store (plain.one_conn [true]))) = Some ErrStore
  /\ GetByUserID "alice" (registry w') = Some 1%positive
  /\ heap (registry w') !! 1%positive
     = Some {| ID := 7; UserID := "alice";
               writeChan := [[x00; x00; x00; x0a; x00; x01; x00; x03;
                              "1"; "a"; "l"; "i"; "c"; "e"]%byte];
               closed := false; written := [] |}.
Proof.
  intros request w'.
  destruct (handleAuth_login_failure "gateway_1" 0 100 1 request (plain.one_conn [true])
              "alice" (Claims.mk "alice" "alice") ErrStore)
    as (_ & Hbound & _ & Hreply); [reflexivity | reflexivity | reflexivity |].
  split; [reflexivity|]. split; [exact Hbound|].
  fold w' in Hreply.
  rewrite (Hreply (NewConnection 7)); [reflexivity | reflexivity | reflexivity | |].
  - vm_compute. lia.
  - split; [apply Z.leb_le; reflexivity
           | split; [apply Z.leb_le | apply Z.ltb_lt]; reflexivity].
Defined.

Lemma DeliverOfflineMessages_newest_first_witness :
  let w := {| store := plain.bob_box 3; registry := registry (plain.one_conn []) |} in
  let w' := fst (DeliverOfflineMessages (fun _ => 0%nat) "bob" 1 w) in
  OfflineMessage.SeqID <$> decode_messages (Member <$> mailbox "bob" (plain.bob_box 3))
  = [1; 2; 3]
  /\ heap (registry w') !! 1%positive
     = Some {| ID := 7; UserID := EmptyString;
               writeChan :=
                 [[x00; x00; x00; x07; x00; x01; x00; x04; x03; "h"; "i"];
                  [x00; x00; x00; x07; x00; x01; x00; x04; x02; "h"; "i"];
                  [x00; x00; x00; x07; x00; x01; x00; x04; x01; "h"; "i"]]%byte;
               closed := false; written := [] |}.
Proof.
  intros w w'. split; [rewrite bob_box_3; reflexivity|].
  unfold w'.
  rewrite (DeliverOfflineMessages_newest_first (fun _ => 0%nat) "bob" 1 w
             (NewConnection 7)).
  - simpl store. rewrite bob_box_3. reflexivity.
  - reflexivity.
  - reflexivity.
  - reflexivity.
  - simpl store. rewrite bob_box_3.
    repeat (apply Forall_cons_2;
            [eexists; split; [reflexivity | apply Z.leb_le; reflexivity]|]).
    apply Forall_nil_2.
  - simpl store. rewrite bob_box_3. vm_compute. lia.
Defined.
End witnesses.

(** * Further properties of the code *)

(** ** Keys of the store *)

Section keys.

(** Keys with the same prefix differ when what follows the prefix does. *)
Lemma append_inj (p a b : string) : p +:+ a = p +:+ b -> a = b.
Proof.
  induction p as [|x p IH]; simpl; [auto|]. intros [= H]. auto.
Qed.

End keys.

(** ** Frames read back *)

Section codec_decode.
Import protocol.

Lemma byte_of_Z_of_byte (z : Z) (b : byte) :
  Z.land z (Z.ones 8) = Z_of_byte b -> byte_of_Z z = b.
Proof.
  intros Hz. unfold byte_of_Z. rewrite Hz. unfold Z_of_byte.
  rewrite N2Z.id, Byte.of_to_N. reflexivity.
Qed.

Lemma testbit_byte (b : byte) (j : Z) :
  ~ 0 <= j < 8 -> Z.testbit (Z_of_byte b) j = false.
Proof.
  intros Hj. destruct (Z.lt_ge_cases j 0) as [Hneg|Hpos].
  - apply Z.testbit_neg_r. exact Hneg.
  - apply (testbit_above _ 8); [|lia].
    pose proof (Z_of_byte_range b). lia.
Qed.

Lemma Uint16_range (b : list byte) : 0 <= Uint16 b < 2 ^ 16.
Proof.
  unfold Uint16. destruct b as [|b0 [|b1 [|? ?]]]; try lia.
  pose proof (Z_of_byte_range b0). pose proof (Z_of_byte_range b1).
  rewrite Z.shiftl_mul_pow2 by lia.
  rewrite <- Z.add_nocarry_lor.
  - lia.
  - apply Z.bits_inj'. intros n Hn. rewrite Z.land_spec, Z.testbit_0_l.
    rewrite <- Z.shiftl_mul_pow2 by lia. rewrite Z.shiftl_spec by lia.
    destruct (Z.lt_ge_cases n 8).
    + rewrite (Z.testbit_neg_r _ (n - 8)) by lia. apply andb_false_r.
    + rewrite (testbit_byte b1 n) by lia. reflexivity.
Qed.

Lemma Uint32_bits (b0 b1 b2 b3 : byte) (n : Z) :
  0 <= n ->
  Z.testbit (Uint32 [b0; b1; b2; b3]) n
  = Z.testbit (Z_of_byte b3) n || Z.testbit (Z_of_byte b2) (n - 8)
    || Z.testbit (Z_of_byte b1) (n - 16) || Z.testbit (Z_of_byte b0) (n - 24).
Proof.
  intros Hn. unfold Uint32. rewrite !Z.lor_spec, !Z.shiftl_spec by lia. reflexivity.
Qed.

Lemma Uint32_range (b : list byte) : 0 <= Uint32 b < 2 ^ 32.
Proof.
  destruct b as [|b0 [|b1 [|b2 [|b3 [|? ?]]]]]; try (unfold Uint32; lia).
  assert (Hnn : 0 <= Uint32 [b0; b1; b2; b3]).
  { unfold Uint32. rewrite !Z.lor_nonneg, !Z.shiftl_nonneg.
    repeat split; apply Z_of_byte_range. }
  split; [exact Hnn|].
  destruct (Z.eq_dec (Uint32 [b0; b1; b2; b3]) 0) as [->|Hnz]; [lia|].
  apply Z.log2_lt_pow2; [lia|].
  destruct (Z.lt_ge_cases (Z.log2 (Uint32 [b0; b1; b2; b3])) 32) as [Hlt|Hge]; [exact Hlt|].
  exfalso.
  assert (Hbit : Z.testbit (Uint32 [b0; b1; b2; b3]) (Z.log2 (Uint32 [b0; b1; b2; b3])) = true)
    by (apply Z.bit_log2; lia).
  rewrite Uint32_bits in Hbit by lia.
  rewrite !testbit_byte in Hbit by lia. discriminate Hbit.
Qed.

Lemma PutUint16_Uint16 (b0 b1 : byte) : PutUint16 (Uint16 [b0; b1]) = [b0; b1].
Proof.
  unfold PutUint16. f_equal; [|f_equal]; apply byte_of_Z_of_byte;
    apply Z.bits_inj'; intros n Hn; rewrite testbit_low8 by lia;
    rewrite ?Z.shiftr_spec by lia; unfold Uint16;
    rewrite Z.lor_spec, Z.shiftl_spec by lia;
    destruct (Z.ltb_spec n 8) as [H8|H8];
    rewrite ?andb_false_r, ?andb_true_r.
  - rewrite (testbit_byte b1 (n + 8)) by lia.
    replace (n + 8 - 8) with n by lia. reflexivity.
  - symmetry. apply testbit_byte. lia.
  - rewrite (testbit_byte b0 (n - 8)) by lia. apply orb_false_r.
  - symmetry. apply testbit_byte. lia.
Qed.

Lemma PutUint32_Uint32 (b0 b1 b2 b3 : byte) :
  PutUint32 (Uint32 [b0; b1; b2; b3]) = [b0; b1; b2; b3].
Proof.
  unfold PutUint32. f_equal; [|f_equal; [|f_equal; [|f_equal]]];
    apply byte_of_Z_of_byte;
    apply Z.bits_inj'; intros n Hn; rewrite testbit_low8 by lia;
    rewrite ?Z.shiftr_spec by lia; rewrite Uint32_bits by lia;
    destruct (Z.ltb_spec n 8) as [H8|H8];
    rewrite ?andb_false_r, ?andb_true_r;
    try (symmetry; apply testbit_byte; lia).
  - rewrite (testbit_byte b3), (testbit_byte b2), (testbit_byte b1) by lia.
    replace (n + 24 - 24) with n by lia. reflexivity.
  - rewrite (testbit_byte b3), (testbit_byte b2), (testbit_byte b0) by lia.
    replace (n + 16 - 16) with n by lia. simpl. apply orb_false_r.
  - rewrite (testbit_byte b3), (testbit_byte b1), (testbit_byte b0) by lia.
    replace (n + 8 - 8) with n by lia. simpl. rewrite !orb_false_r. reflexivity.
  - rewrite (testbit_byte b2), (testbit_byte b1), (testbit_byte b0) by lia.
    rewrite !orb_false_r. reflexivity.
Qed.

(** What [ReadFull] returns when it succeeds. *)
Lemma ReadFull_Ok (n : nat) (reader rest : Reader) (buf : list byte) :
  ReadFull n reader = (rest, Ok buf) ->
  reader = buf ++ rest /\ length buf = n.
Proof.
  unfold ReadFull. destruct n as [|n].
  - intros [= <- <-]. split; reflexivity.
  - case_bool_decide; [discriminate|].
    case_bool_decide as Hlen; [discriminate|].
    intros [= <- <-]. split; [symmetry; apply take_drop|].
    rewrite length_take. lia.
Qed.

Lemma ReadFull_Err (n : nat) (reader rest : Reader) (e : error) :
  ReadFull n reader = (rest, Err e) ->
  (reader = [] /\ e = EOF) \/ (reader <> [] /\ (length reader < n)%nat /\ e = ErrUnexpectedEOF).
Proof.
  unfold ReadFull. destruct n as [|n]; [discriminate|].
  case_bool_decide as Hnil; [intros [= <- <-]; left; split; [exact Hnil | reflexivity]|].
  case_bool_decide as Hlen; [|discriminate].
  intros [= <- <-]. right. repeat split; assumption.
Qed.

(** The header of eight bytes, split into its fields. *)
Lemma header_fields (header : list byte) :
  length header = 8%nat ->
  header = PutUint32 (Uint32 (take 4 header))
           ++ PutUint16 (Uint16 (take 2 (drop 4 header)))
           ++ PutUint16 (Uint16 (take 2 (drop 6 header))).
Proof.
  intros Hlen.
  destruct header as [|b0 [|b1 [|b2 [|b3 [|b4 [|b5 [|b6 [|b7 [|? ?]]]]]]]]];
    try discriminate Hlen.
  cbn [take drop]. rewrite PutUint32_Uint32, !PutUint16_Uint16. reflexivity.
Qed.

(** X1.  A message that [Unpack] returns was on the stream in the layout of
    a frame, followed by what is left of the stream: its length field
    counts the version, the command code and a body of at most 1 MiB; and
    when it carries the protocol version, [Pack] accepts it unchanged and
    produces exactly the bytes that were read. *)
Theorem Unpack_sound (reader rest : Reader) (msg : Message) :
  Unpack reader = (rest, Ok msg) ->
  Length msg = 4 + Z.of_nat (length (Body msg))
  /\ Z.of_nat (length (Body msg)) <= MaxPayloadLength
  /\ 0 <= Version msg < 2 ^ 16
  /\ 0 <= CmdType msg < 2 ^ 16
  /\ reader = (PutUint32 (Length msg) ++ PutUint16 (Version msg)
               ++ PutUint16 (CmdType msg)) ++ Body msg ++ rest
  /\ (Version msg = ProtocolVersion ->
      Pack msg = (msg, Ok (frame_bytes msg))
      /\ reader = frame_bytes msg ++ rest).
Proof.
  unfold Unpack. change (Z.to_nat HeaderLength) with 8%nat.
  destruct (ReadFull 8 reader) as [r1 [header|e]] eqn:HR; [|discriminate].
  apply ReadFull_Ok in HR as [-> Hlen].
  pose proof (header_fields header Hlen) as Hhdr.
  pose proof (Uint32_range (take 4 header)) as HL.
  pose proof (Uint16_range (take 2 (drop 4 header))) as HV.
  pose proof (Uint16_range (take 2 (drop 6 header))) as HC.
  cbv beta zeta iota. cbn [Length Version CmdType].
  set (len := Uint32 (take 4 header)) in *.
  set (ver := Uint16 (take 2 (drop 4 header))) in *.
  set (cmd := Uint16 (take 2 (drop 6 header))) in *.
  destruct (Z.ltb_spec (len - 4) 0) as [?|Hlo]; [discriminate|].
  destruct (Z.gtb_spec (len - 4) MaxPayloadLength) as [?|Hhi]; [discriminate|].
  assert (Hmain : forall body,
            Z.of_nat (length body) = len - 4 ->
            let m := {| Length := len; Version := ver; CmdType := cmd; Body := body |} in
            Length m = 4 + Z.of_nat (length (Body m))
            /\ Z.of_nat (length (Body m)) <= MaxPayloadLength
            /\ 0 <= Version m < 2 ^ 16
            /\ 0 <= CmdType m < 2 ^ 16
            /\ (PutUint32 (Length m) ++ PutUint16 (Version m) ++ PutUint16 (CmdType m))
               = header
            /\ (Version m = ProtocolVersion ->
                Pack m = (m, Ok (frame_bytes m))
                /\ frame_bytes m = header ++ body)).
  { intros body Hbody m. cbn [Length Version CmdType Body m].
    split; [lia|]. split; [lia|]. split; [exact HV|]. split; [exact HC|].
    split; [symmetry; exact Hhdr|].
    intros Hver.
    assert (Hfit : fits m) by (split; cbn [Body CmdType m]; [lia | exact HC]).
    rewrite (Pack_fits m Hfit). cbn [Body CmdType m].
    split.
    - f_equal. unfold m. f_equal; [lia | symmetry; exact Hver].
    - unfold frame_bytes. cbn [Body CmdType m]. f_equal.
      etransitivity; [|symmetry; exact Hhdr].
      cbn [Version m] in Hver. rewrite <- Hver.
      f_equal. f_equal. lia. }
  destruct (Z.gtb_spec (len - 4) 0) as [Hpos|Hzero].
  - destruct (ReadFull (Z.to_nat (len - 4)) r1) as [r2 [body|e]] eqn:HB; [|discriminate].
    apply ReadFull_Ok in HB as [-> Hblen].
    intros [= <- <-].
    destruct (Hmain body) as (H1 & H2 & H3 & H4 & H5 & H6); [lia|].
    split; [exact H1|]. split; [exact H2|]. split; [exact H3|]. split; [exact H4|].
    split; [rewrite H5; reflexivity|].
    intros Hver. destruct (H6 Hver) as [HP Hfb]. split; [exact HP|].
    rewrite Hfb, <- app_assoc. reflexivity.
  - intros [= <- <-].
    destruct (Hmain []) as (H1 & H2 & H3 & H4 & H5 & H6); [simpl; lia|].
    split; [exact H1|]. split; [exact H2|]. split; [exact H3|]. split; [exact H4|].
    split; [rewrite H5; reflexivity|].
    intros Hver. destruct (H6 Hver) as [HP Hfb]. split; [exact HP|].
    rewrite Hfb, <- app_assoc. reflexivity.
Qed.


(** [Unpack] on a stream that starts with a header. *)
Lemma Unpack_header (len ver cmd : Z) (s : Reader) :
  0 <= len < 2 ^ 32 -> 0 <= ver < 2 ^ 16 -> 0 <= cmd < 2 ^ 16 ->
  Unpack ((PutUint32 len ++ PutUint16 ver ++ PutUint16 cmd) ++ s)
  = if len - 4 <? 0 then (s, Err ErrInvalidHeader)
    else if len - 4 >? MaxPayloadLength then (s, Err ErrPayloadTooLarge)
    else if len - 4 >? 0 then
      match ReadFull (Z.to_nat (len - 4)) s with
      | (r, Err e) => (r, Err e)
      | (r, Ok body) =>
          (r, Ok {| Length := len; Version := ver; CmdType := cmd; Body := body |})
      end
    else (s, Ok {| Length := len; Version := ver; CmdType := cmd; Body := [] |}).
Proof.
  intros Hlen Hver Hcmd. unfold Unpack.
  rewrite ReadFull_app by reflexivity.
  change (take 4 (PutUint32 ?v ++ ?r)) with (PutUint32 v).
  change (take 2 (drop 4 (PutUint32 ?v ++ PutUint16 ?a ++ ?r))) with (PutUint16 a).
  change (take 2 (drop 6 (PutUint32 ?v ++ PutUint16 ?a ++ PutUint16 ?b))) with (PutUint16 b).
  rewrite Uint32_PutUint32 by exact Hlen.
  rewrite !Uint16_PutUint16 by assumption.
  cbv beta zeta. cbn [Length Version CmdType]. reflexivity.
Qed.

(** X2.  How [Unpack] fails.  On an empty stream it reports [EOF]; on a
    stream that ends inside the header, [ErrUnexpectedEOF].  After a header
    of eight bytes: a length field above 4 + 1 MiB is refused with
    [ErrPayloadTooLarge] before any byte of the body is read; when a body
    is announced and the stream ends right after the header the error is
    [EOF], and when it ends inside the body, [ErrUnexpectedEOF]. *)
Theorem Unpack_failures (reader header rest : Reader) :
  Unpack [] = ([], Err EOF)
  /\ ((0 < length reader < 8)%nat -> Unpack reader = ([], Err ErrUnexpectedEOF))
  /\ (length header = 8%nat ->
      let bodyLen := Uint32 (take 4 header) - 4 in
      (MaxPayloadLength < bodyLen ->
         Unpack (header ++ rest) = (rest, Err ErrPayloadTooLarge))
      /\ (0 < bodyLen <= MaxPayloadLength ->
            Unpack header = ([], Err EOF))
      /\ (0 < bodyLen <= MaxPayloadLength ->
            (0 < Z.of_nat (length rest) < bodyLen) ->
            Unpack (header ++ rest) = ([], Err ErrUnexpectedEOF))).
Proof.
  split; [reflexivity|]. split.
  { intros Hlen. unfold Unpack, ReadFull. change (Z.to_nat HeaderLength) with 8%nat.
    cbv beta iota.
    rewrite bool_decide_eq_false_2 by (intros ->; simpl in Hlen; lia).
    rewrite bool_decide_eq_true_2 by lia. reflexivity. }
  intros Hlen bodyLen.
  pose proof (header_fields header Hlen) as Hhdr.
  pose proof (Uint32_range (take 4 header)) as HL.
  pose proof (Uint16_range (take 2 (drop 4 header))) as HV.
  pose proof (Uint16_range (take 2 (drop 6 header))) as HC.
  assert (HU : forall s, Unpack (header ++ s) = _)
    by (intros s; rewrite Hhdr at 1; apply (Unpack_header _ _ _ s HL HV HC)).
  fold bodyLen in HU.
  split; [|split].
  - intros Hbig. rewrite HU.
    destruct (Z.ltb_spec bodyLen 0); [unfold MaxPayloadLength in Hbig; lia|].
    destruct (Z.gtb_spec bodyLen MaxPayloadLength); [reflexivity | lia].
  - intros Hin. rewrite <- (app_nil_r header) at 1. rewrite HU.
    destruct (Z.ltb_spec bodyLen 0); [lia|].
    destruct (Z.gtb_spec bodyLen MaxPayloadLength); [lia|].
    destruct (Z.gtb_spec bodyLen 0); [|lia].
    unfold ReadFull. destruct (Z.to_nat bodyLen) eqn:Hn; [lia|]. reflexivity.
  - intros Hin Hrest. rewrite HU.
    destruct (Z.ltb_spec bodyLen 0); [lia|].
    destruct (Z.gtb_spec bodyLen MaxPayloadLength); [lia|].
    destruct (Z.gtb_spec bodyLen 0); [|lia].
    unfold ReadFull. destruct (Z.to_nat bodyLen) eqn:Hn; [lia|].
    rewrite bool_decide_eq_false_2 by (intros ->; simpl in Hrest; lia).
    rewrite bool_decide_eq_true_2 by lia. reflexivity.
Qed.

(** A stream that ends inside a frame. *)
Lemma Unpack_cut (msg : Message) (tail rest : list byte) :
  fits msg -> encode msg = tail ++ rest -> rest <> [] ->
  exists e, Unpack tail = ([], Err e)
            /\ (e = EOF \/ e = ErrUnexpectedEOF)
            /\ (e = EOF <-> tail = [] \/ length tail = 8%nat).
Proof.
  intros Hfit Henc Hrest.
  pose proof (Pack_fits msg Hfit) as HP. destruct Hfit as [Hlen Hcmd].
  unfold encode in Henc. rewrite HP in Henc. unfold frame_bytes in Henc.
  set (header := PutUint32 _ ++ _ ++ _) in Henc.
  assert (Hh : length header = 8%nat) by reflexivity.
  assert (Hcut : (length tail + length rest = 8 + length (Body msg))%nat).
  { rewrite <- length_app, <- Henc, length_app, Hh. reflexivity. }
  assert (Hrest' : (0 < length rest)%nat) by (destruct rest; [congruence | simpl; lia]).
  destruct (decide (length tail < 8)%nat) as [Hshort|Hlong].
  - destruct tail as [|b tail'] eqn:Ht.
    + exists EOF. split; [reflexivity|]. split; [left; reflexivity|]. split; auto.
    + exists ErrUnexpectedEOF. split.
      * unfold Unpack, ReadFull. change (Z.to_nat HeaderLength) with 8%nat. cbv beta iota.
        rewrite bool_decide_eq_false_2 by discriminate.
        rewrite bool_decide_eq_true_2 by exact Hshort. reflexivity.
      * split; [right; reflexivity|]. split; [discriminate|].
        intros [?|?]; [discriminate | lia].
  - assert (Htail : tail = header ++ drop 8 tail).
    { rewrite <- (take_drop 8 tail) at 1. f_equal.
      assert (take 8 (tail ++ rest) = take 8 (header ++ Body msg)) by (rewrite Henc; reflexivity).
      rewrite take_app_le in H by lia. rewrite H.
      rewrite take_app_length' by exact Hh. reflexivity. }
    assert (Hbody : Body msg = drop 8 tail ++ rest).
    { assert (drop 8 (header ++ Body msg) = drop 8 (tail ++ rest)) by (rewrite Henc; reflexivity).
      rewrite drop_app_length' in H by exact Hh. rewrite H.
      rewrite drop_app_le by lia. reflexivity. }
    assert (Hblen : (length (drop 8 tail) < length (Body msg))%nat).
    { rewrite Hbody, length_app. lia. }
    rewrite Htail. unfold header.
    unfold MaxPayloadLength in Hlen.
    rewrite Unpack_header; [| lia | unfold ProtocolVersion; lia | exact Hcmd].
    replace (4 + Z.of_nat (length (Body msg)) - 4) with (Z.of_nat (length (Body msg))) by lia.
    destruct (Z.ltb_spec (Z.of_nat (length (Body msg))) 0); [lia|].
    destruct (Z.gtb_spec (Z.of_nat (length (Body msg))) MaxPayloadLength);
      [unfold MaxPayloadLength in *; lia|].
    destruct (Z.gtb_spec (Z.of_nat (length (Body msg))) 0); [|lia].
    rewrite Nat2Z.id. unfold ReadFull.
    destruct (length (Body msg)) as [|n] eqn:Hn; [lia|].
    fold header. rewrite <- Htail.
    destruct (drop 8 tail) as [|b t] eqn:Hd.
    + exists EOF. split; [reflexivity|]. split; [left; reflexivity|].
      split; [|reflexivity]. intros _. right.
      assert (length (drop 8 tail) = 0%nat) by (rewrite Hd; reflexivity).
      rewrite length_drop in H2. lia.
    + exists ErrUnexpectedEOF.
      rewrite bool_decide_eq_false_2 by discriminate.
      rewrite bool_decide_eq_true_2 by exact Hblen.
      split; [reflexivity|]. split; [right; reflexivity|].
      split; [discriminate|].
      assert (length (drop 8 tail) = S (length t)) by (rewrite Hd; reflexivity).
      rewrite length_drop in H2.
      intros [->|?]; [simpl in Hlong; lia | lia].
Qed.

(** X3.  A stream of whole frames that ends inside a further frame: the
    read loop hands over every whole frame, in order, never the cut one,
    and ends on [EOF] when the cut falls on a frame boundary or right
    after a header, on [ErrUnexpectedEOF] otherwise. *)
Theorem readLoop_cut_stream (msgs : list Message) (msg : Message)
    (tail rest : list byte) (fuel : nat) :
  Forall fits msgs -> fits msg ->
  encode msg = tail ++ rest -> rest <> [] ->
  (length msgs < fuel)%nat ->
  exists e,
    readLoop fuel (concat (encode <$> msgs) ++ tail) = Some (packed <$> msgs, e)
    /\ (e = EOF \/ e = ErrUnexpectedEOF)
    /\ (e = EOF <-> tail = [] \/ length tail = 8%nat).
Proof.
  intros Hfits Hfit Henc Hrest.
  destruct (Unpack_cut msg tail rest Hfit Henc Hrest) as (e & HU & He & Hiff).
  revert fuel. induction Hfits as [|m msgs Hm _ IH]; intros fuel Hfuel.
  - exists e. destruct fuel as [|fuel]; [simpl in Hfuel; lia|].
    simpl. rewrite HU. auto.
  - destruct fuel as [|fuel]; [simpl in Hfuel; lia|].
    destruct (IH fuel) as (e' & HR & He' & Hiff'); [simpl in Hfuel; lia|].
    exists e'. rewrite fmap_cons. simpl concat. rewrite <- app_assoc.
    simpl readLoop. rewrite (Unpack_encode_app m _ Hm), HR. auto.
Qed.

End codec_decode.

Section write_loop.
Import server.

(** X4.  What [writeLoop] does to a connection, whatever the runtime picks
    and whichever writes fail.  With fuel above the length of the queue the
    loop ends; it has written the frames at the front of the queue, in
    queue order, and nothing else; what it has not written stays queued,
    except the frame whose write failed, which is lost; it returns only
    with the connection closed (on the close signal or a failed write),
    and it waits only on an open connection whose queue is empty.  The ID
    and the user of the connection are not touched. *)
Theorem writeLoop_outcome (fuel : nat) (pick : nat -> nat) (fails : nat -> bool) :
  forall (i : nat) (c : Connection),
    (length (writeChan c) < fuel)%nat ->
    exists c' st k,
      writeLoop fuel pick fails i c = Some (c', st)
      /\ (k <= length (writeChan c))%nat
      /\ written c' = written c ++ take k (writeChan c)
      /\ (writeChan c' = drop k (writeChan c)
          \/ (st = WriteLoopReturned /\ writeChan c' = drop (S k) (writeChan c)))
      /\ ID c' = ID c /\ UserID c' = UserID c
      /\ (st = WriteLoopReturned -> closed c' = true)
      /\ (st = WriteLoopWaiting -> closed c = false /\ closed c' = false /\ writeChan c' = []).
Proof.
  induction fuel as [|fuel IH]; intros i c Hfuel; [lia|].
  assert (Hstop : exists c' st k,
            Some (Close c, WriteLoopReturned) = Some (c', st)
            /\ (k <= length (writeChan c))%nat
            /\ written c' = written c ++ take k (writeChan c)
            /\ (writeChan c' = drop k (writeChan c)
                \/ (st = WriteLoopReturned /\ writeChan c' = drop (S k) (writeChan c)))
            /\ ID c' = ID c /\ UserID c' = UserID c
            /\ (st = WriteLoopReturned -> closed c' = true)
            /\ (st = WriteLoopWaiting -> closed c = false /\ closed c' = false /\ writeChan c' = [])).
  { exists (Close c), WriteLoopReturned, 0%nat. cbn [Close writeChan written ID UserID closed].
    rewrite take_0, drop_0, app_nil_r.
    split; [reflexivity|]. split; [lia|]. split; [reflexivity|].
    split; [left; reflexivity|]. split; [reflexivity|]. split; [reflexivity|].
    split; [reflexivity | discriminate]. }
  assert (Hrecv : forall data q, writeChan c = data :: q ->
            exists c' st k,
              (if fails i then Some (Close (set_writeChan q c), WriteLoopReturned)
               else writeLoop fuel pick fails (S i) (writeLoop_step c)) = Some (c', st)
              /\ (k <= length (writeChan c))%nat
              /\ written c' = written c ++ take k (writeChan c)
              /\ (writeChan c' = drop k (writeChan c)
                  \/ (st = WriteLoopReturned /\ writeChan c' = drop (S k) (writeChan c)))
              /\ ID c' = ID c /\ UserID c' = UserID c
              /\ (st = WriteLoopReturned -> closed c' = true)
              /\ (st = WriteLoopWaiting -> closed c = false /\ closed c' = false /\ writeChan c' = [])).
  { intros data q Hq. destruct (fails i).
    - exists (Close (set_writeChan q c)), WriteLoopReturned, 0%nat.
      cbn [Close set_writeChan writeChan written ID UserID closed].
      rewrite Hq, take_0, app_nil_r. cbn [drop].
      split; [reflexivity|]. split; [lia|]. split; [reflexivity|].
      split; [right; split; reflexivity|]. split; [reflexivity|]. split; [reflexivity|].
      split; [reflexivity | discriminate].
    - destruct (IH (S i) (writeLoop_step c))
        as (c' & st & k & HW & Hk & Hwr & Hqq & Hid & Hu & Hret & Hwait).
      { unfold writeLoop_step. rewrite Hq. cbn [writeChan]. rewrite Hq in Hfuel.
        simpl in Hfuel. lia. }
      unfold writeLoop_step in Hk, Hwr, Hqq, Hid, Hu, Hwait. rewrite Hq in *.
      cbn [writeChan written ID UserID closed] in *.
      exists c', st, (S k). cbn [take drop length].
      split; [exact HW|]. split; [lia|].
      split; [rewrite Hwr, <- app_assoc; reflexivity|].
      split; [exact Hqq|]. split; [exact Hid|]. split; [exact Hu|].
      split; [exact Hret | exact Hwait]. }
  cbn [writeLoop]. unfold writeLoop_ready.
  destruct (closed c) eqn:Hcl; destruct (writeChan c) as [|data q] eqn:Hq.
  - cbn [app length]. rewrite Nat.mod_1_r. cbn [nth]. exact Hstop.
  - cbn [app length].
    destruct (nth (pick i mod 2)%nat [CaseCloseSignal; CaseReceive] CaseCloseSignal);
      [exact Hstop | apply (Hrecv data q); reflexivity].
  - cbn [app]. exists c, WriteLoopWaiting, 0%nat. rewrite Hq, app_nil_r.
    split; [reflexivity|]. split; [simpl; lia|]. split; [reflexivity|].
    split; [left; reflexivity|]. split; [reflexivity|]. split; [reflexivity|].
    split; [discriminate|]. intros _. split; [reflexivity|]. split; [exact Hcl | reflexivity].
  - cbn [app length]. rewrite Nat.mod_1_r. cbn [nth]. apply (Hrecv data q). reflexivity.
Qed.


Lemma Send_all_enqueues (pick : nat -> nat) (msgs : list protocol.Message) :
  forall (k : nat) (c : Connection),
    closed c = false ->
    Forall fits msgs ->
    (length (writeChan c) + length msgs <= writeChanCap)%nat ->
    Send_all pick k msgs c
    = set_writeChan (writeChan c ++ (frame_bytes <$> msgs)) c.
Proof.
  induction msgs as [|msg msgs IH]; intros k c Hopen Hfits Hroom.
  - simpl. rewrite app_nil_r. symmetry. apply set_writeChan_same.
  - apply Forall_cons in Hfits as [Hfit Hfits]. simpl in Hroom.
    cbn [Send_all].
    rewrite (Connection_Send_room (pick k) msg c (frame_bytes msg));
      [| rewrite (Pack_fits msg Hfit); reflexivity | exact Hopen | unfold queue_full; lia].
    cbn [fst]. rewrite IH; [| exact Hopen | exact Hfits |].
    + unfold enqueued, set_writeChan. cbn [writeChan ID UserID closed written].
      rewrite fmap_cons, <- app_assoc. reflexivity.
    + unfold enqueued. cbn [set_writeChan writeChan]. rewrite length_app. simpl. lia.
Qed.

Lemma writeLoop_drain (pick : nat -> nat) (fails : nat -> bool) (fuel : nat) :
  forall (i : nat) (c : Connection),
    closed c = false ->
    (forall j, fails j = false) ->
    (length (writeChan c) < fuel)%nat ->
    writeLoop fuel pick fails i c
    = Some ({| ID := ID c; UserID := UserID c; writeChan := []; closed := false;
               written := written c ++ writeChan c |}, WriteLoopWaiting).
Proof.
  induction fuel as [|fuel IH]; intros i c Hopen Hok Hfuel; [lia|].
  cbn [writeLoop]. unfold writeLoop_ready. rewrite Hopen.
  destruct (writeChan c) as [|data q] eqn:Hq.
  - cbn [app]. rewrite app_nil_r. destruct c; simpl in *; subst; reflexivity.
  - cbn [app length]. rewrite Nat.mod_1_r. cbn [nth]. rewrite Hok.
    rewrite IH; [| | exact Hok |].
    + unfold writeLoop_step. rewrite Hq. cbn [ID UserID writeChan closed written].
      rewrite <- app_assoc. reflexivity.
    + unfold writeLoop_step. rewrite Hq. exact Hopen.
    + unfold writeLoop_step. rewrite Hq. cbn [writeChan]. simpl in Hfuel. lia.
Qed.

(** X5.  Frames leave in the order they were sent: after [Send] calls on an
    open connection whose queue has room for them, and with every [Write]
    succeeding, [writeLoop] writes what was queued before and then the
    frames of the messages sent, in the order of the calls, and then waits
    with an empty queue. *)
Theorem Send_writeLoop_fifo (pick pick' : nat -> nat) (fails : nat -> bool)
    (msgs : list protocol.Message) (c : Connection) (fuel : nat) :
  closed c = false ->
  Forall fits msgs ->
  (length (writeChan c) + length msgs <= writeChanCap)%nat ->
  (forall j, fails j = false) ->
  (length (writeChan c) + length msgs < fuel)%nat ->
  writeLoop fuel pick' fails 0 (Send_all pick 0 msgs c)
  = Some ({| ID := ID c; UserID := UserID c; writeChan := []; closed := false;
             written := written c ++ writeChan c ++ (frame_bytes <$> msgs) |},
          WriteLoopWaiting).
Proof.
  intros Hopen Hfits Hroom Hok Hfuel.
  rewrite (Send_all_enqueues pick msgs 0 c Hopen Hfits Hroom).
  rewrite writeLoop_drain; [reflexivity | exact Hopen | exact Hok |].
  cbn [set_writeChan writeChan]. rewrite length_app, length_fmap. exact Hfuel.
Qed.

End write_loop.

Section broadcast.
Import server.

(** An open connection with a full queue drops the frame. *)
Lemma Connection_Send_full (pick : nat) (msg : protocol.Message)
    (c : Connection) (data : list byte) :
  snd (protocol.Pack msg) = Ok data ->
  closed c = false ->
  queue_full c ->
  Connection_Send pick msg c = (c, None).
Proof.
  intros HP Hc Hq. unfold Connection_Send.
  destruct (protocol.Pack msg) as [msg' [d|e]]; simpl in HP; [|discriminate].
  pose proof (select_resolves pick c) as Hsel.
  rewrite ready_cases, Hc, bool_decide_eq_true_2 in Hsel by exact Hq.
  destruct Hsel as [[_ Hs]|[Hr _]]; [|destruct Hr; reflexivity].
  rewrite Hs. reflexivity.
Qed.

Lemma Pack_again (msg : protocol.Message) :
  fits msg ->
  fits (fst (protocol.Pack msg))
  /\ frame_bytes (fst (protocol.Pack msg)) = frame_bytes msg.
Proof.
  intros Hfit. rewrite (Pack_fits msg Hfit). cbn [fst].
  destruct Hfit as [Hlen Hcmd]. split; [split; assumption | reflexivity].
Qed.

Lemma Send_other (pick : nat) (conn conn' : loc) (msg : protocol.Message) (h : Heap) :
  conn <> conn' -> fst (Send pick conn msg h) !! conn' = h !! conn'.
Proof.
  intros Hne. unfold Send. destruct (h !! conn) as [c|]; [|reflexivity].
  destruct (Connection_Send pick msg c) as [c' e]. cbn [fst].
  apply lookup_insert_ne. exact Hne.
Qed.

Lemma Broadcast_range_spec (pick : nat -> nat) (visit : list (Z * loc)) :
  forall (k : nat) (msg : protocol.Message) (h : Heap),
    fits msg ->
    NoDup visit.*2 ->
    let h' := Broadcast_range pick k msg visit h in
    (forall conn, conn ∉ visit.*2 -> h' !! conn = h !! conn)
    /\ (forall conn c, conn ∈ visit.*2 -> h !! conn = Some c -> closed c = false ->
          h' !! conn = Some (if bool_decide (queue_full c) then c
                             else enqueued (frame_bytes msg) c)).
Proof.
  induction visit as [|[id conn0] visit IH]; intros k msg h Hfit Hnd h'.
  - split; [reflexivity|]. intros conn c Hin. apply elem_of_nil in Hin. destruct Hin.
  - rewrite fmap_cons in Hnd. apply NoDup_cons in Hnd as [Hfresh Hnd].
    destruct (Pack_again msg Hfit) as [Hfit' Hsame].
    destruct (IH (S k) (fst (protocol.Pack msg)) (fst (Send (pick k) conn0 msg h)) Hfit' Hnd)
      as [Hout Hin].
    fold (Broadcast_range pick (S k) (fst (protocol.Pack msg)) visit
            (fst (Send (pick k) conn0 msg h))) in Hout, Hin.
    change h' with (Broadcast_range pick (S k) (fst (protocol.Pack msg)) visit
                      (fst (Send (pick k) conn0 msg h))).
    split.
    + intros conn Hconn. rewrite fmap_cons in Hconn. cbn [snd] in Hconn.
      apply not_elem_of_cons in Hconn as [Hne Hconn].
      rewrite Hout by exact Hconn. apply Send_other. congruence.
    + intros conn c Hconn Hc Hopen. rewrite fmap_cons in Hconn. cbn [snd] in Hconn.
      apply elem_of_cons in Hconn as [->|Hconn].
      * rewrite Hout by exact Hfresh. unfold Send. rewrite Hc.
        case_bool_decide as Hfull.
        -- rewrite (Connection_Send_full (pick k) msg c (frame_bytes msg));
             [| rewrite (Pack_fits msg Hfit); reflexivity | exact Hopen | exact Hfull].
           cbn [fst]. apply lookup_insert_eq.
        -- rewrite (Connection_Send_room (pick k) msg c (frame_bytes msg));
             [| rewrite (Pack_fits msg Hfit); reflexivity | exact Hopen | exact Hfull].
           cbn [fst]. apply lookup_insert_eq.
      * assert (Hne : conn0 <> conn) by (intros ->; contradiction).
        rewrite (Hin conn c Hconn); [rewrite Hsame; reflexivity | | exact Hopen].
        rewrite Send_other by exact Hne. exact Hc.
Qed.

(** X6.  [Broadcast], in whatever order the registry is visited, queues the
    frame of the message once on every registered connection that is open
    and has room, leaves a registered open connection with a full queue as
    it is (the frame is dropped for that connection only), and touches
    neither the connections that are not registered nor the registry
    tables.  A connection is registered under its own ID only. *)
Theorem Broadcast_reaches_registered (pick : nat -> nat) (visit : list (Z * loc))
    (msg : protocol.Message) (r : Registry) :
  fits msg ->
  visit ≡ₚ map_to_list (connections (manager r)) ->
  NoDup visit.*2 ->
  let r' := Broadcast pick visit msg r in
  manager r' = manager r
  /\ (forall id conn c,
        GetByConnID id r = Some conn -> heap r !! conn = Some c -> closed c = false ->
        (~ queue_full c -> heap r' !! conn = Some (enqueued (frame_bytes msg) c))
        /\ (queue_full c -> heap r' !! conn = Some c))
  /\ (forall conn,
        (forall id, GetByConnID id r <> Some conn) ->
        heap r' !! conn = heap r !! conn).
Proof.
  intros Hfit Hperm Hnd r'.
  destruct (Broadcast_range_spec pick visit 0 msg (heap r) Hfit Hnd) as [Hout Hin].
  split; [reflexivity|]. split.
  - intros id conn c Hreg Hc Hopen.
    assert (Hv : conn ∈ visit.*2).
    { apply list_elem_of_fmap. exists (id, conn). split; [reflexivity|].
      rewrite Hperm. apply elem_of_map_to_list. exact Hreg. }
    specialize (Hin conn c Hv Hc Hopen). cbn [r' Broadcast heap].
    split; intros Hq; rewrite Hin.
    + rewrite bool_decide_eq_false_2 by exact Hq. reflexivity.
    + rewrite bool_decide_eq_true_2 by exact Hq. reflexivity.
  - intros conn Hnot. cbn [r' Broadcast heap]. apply Hout.
    intros Hv. apply list_elem_of_fmap in Hv as ([id conn'] & -> & Hv).
    rewrite Hperm in Hv. apply elem_of_map_to_list in Hv.
    apply (Hnot id). exact Hv.
Qed.

End broadcast.

Section accepting.
Import server.

Lemma accept_step (connID : Z) (r : Registry) :
  ids_up_to connID r -> connID + 1 < 2 ^ 64 ->
  exists conn r',
    accept connID r = (connID + 1, conn, r')
    /\ heap r !! conn = None
    /\ heap r' = <[conn := NewConnection (connID + 1)]> (heap r)
    /\ connections (manager r') = <[connID + 1 := conn]> (connections (manager r))
    /\ userConns (manager r') = userConns (manager r)
    /\ connections (manager r) !! (connID + 1) = None
    /\ ids_up_to (connID + 1) r'.
Proof.
  intros [Hc Hids] Hlt. unfold accept, handleConnection_open.
  assert (Hu : uint64 (connID + 1) = connID + 1).
  { unfold uint64. rewrite Z.land_ones by lia. apply Z.mod_small. lia. }
  rewrite Hu.
  set (conn := fresh (dom (heap r))).
  assert (Hfresh : heap r !! conn = None).
  { apply not_elem_of_dom. apply is_fresh. }
  assert (Hid : GetID conn (<[conn := NewConnection (connID + 1)]> (heap r)) = connID + 1).
  { unfold GetID. rewrite lookup_insert_eq. reflexivity. }
  assert (Hnone : connections (manager r) !! (connID + 1) = None).
  { destruct (connections (manager r) !! (connID + 1)) as [c|] eqn:Hl; [|reflexivity].
    destruct (Hids _ _ Hl) as [? _]. lia. }
  exists conn. eexists. split; [reflexivity|].
  unfold Add. cbn [heap manager connections userConns]. rewrite Hid.
  split; [exact Hfresh|]. split; [reflexivity|]. split; [reflexivity|].
  split; [reflexivity|]. split; [exact Hnone|].
  split; [lia|]. intros id conn'. unfold GetByConnID. cbn [manager connections heap].
  destruct (decide (id = connID + 1)) as [->|Hne].
  - rewrite lookup_insert_eq. intros [= <-]. split; [lia | exact Hid].
  - rewrite lookup_insert_ne by congruence. intros Hl.
    destruct (Hids _ _ Hl) as [Hr Hg]. split; [lia|].
    unfold GetID in *. rewrite lookup_insert_ne; [exact Hg|].
    intros <-. rewrite Hfresh in Hg. lia.
Qed.

(** X7.  Every accepted connection gets an ID of its own: from a state in
    which the registered connections carry the IDs handed out so far, [n]
    accepted sockets (the uint64 counter not wrapping) are registered under
    the next [n] values of the counter, each as a new, open, unauthenticated
    connection object that carries that ID; the connections registered
    before keep their entries, and [Count] grows by [n]. *)
Theorem accept_assigns_ids (n : nat) :
  forall (connID : Z) (r : Registry),
    ids_up_to connID r ->
    connID + Z.of_nat n < 2 ^ 64 ->
    let connID' := (accept_all n connID r).1 in
    let r' := (accept_all n connID r).2 in
    connID' = connID + Z.of_nat n
    /\ ids_up_to connID' r'
    /\ Count r' = Count r + Z.of_nat n
    /\ (forall id, connID < id <= connID' ->
          exists conn, GetByConnID id r' = Some conn
                       /\ heap r' !! conn = Some (NewConnection id)
                       /\ heap r !! conn = None)
    /\ (forall id, id <= connID -> GetByConnID id r' = GetByConnID id r)
    /\ (forall conn c, heap r !! conn = Some c -> heap r' !! conn = Some c).
Proof.
  induction n as [|n IH]; intros connID r Hids Hlt connID' r'.
  - cbn in connID', r'. subst connID' r'.
    split; [lia|]. split; [exact Hids|]. split; [lia|].
    split; [intros id ?; lia|]. split; [reflexivity | auto].
  - destruct (accept_step connID r Hids) as (conn & r1 & Hacc & Hfresh & Hheap & Hconns & Husers & Hnone & Hids1);
      [lia|].
    assert (Hrun : accept_all (S n) connID r = accept_all n (connID + 1) r1).
    { cbn [accept_all]. rewrite Hacc. reflexivity. }
    subst connID' r'. rewrite Hrun.
    destruct (IH (connID + 1) r1 Hids1) as (Hc & Hi & Hcount & Hnew & Hold & Hobj); [lia|].
    split; [lia|]. split; [exact Hi|].
    split.
    { rewrite Hcount. unfold Count. rewrite Hconns.
      rewrite map_size_insert_None by exact Hnone. lia. }
    split.
    { intros id Hid. destruct (decide (id = connID + 1)) as [->|Hne].
      - exists conn. split; [|split; [|exact Hfresh]].
        + rewrite Hold by lia. unfold GetByConnID. rewrite Hconns. apply lookup_insert_eq.
        + apply Hobj. rewrite Hheap. apply lookup_insert_eq.
      - destruct (Hnew id) as (conn' & Hreg & Hc' & Hnot); [lia|].
        exists conn'. split; [exact Hreg|]. split; [exact Hc'|].
        rewrite Hheap in Hnot. apply lookup_insert_None in Hnot as [Hnot _]. exact Hnot. }
    split.
    { intros id Hid. rewrite Hold by lia. unfold GetByConnID. rewrite Hconns.
      apply lookup_insert_ne. lia. }
    intros conn' c Hc'. apply Hobj. rewrite Hheap.
    rewrite lookup_insert_ne; [exact Hc'|]. intros <-. congruence.
Qed.

End accepting.

Section session.
Import redis service.
Context `{Json}.

(** X8.  With the store reached, [Login] succeeds and records the user: the
    lookup of the user's gateway then returns this gateway, [IsOnline]
    answers true, the session record holds the gateway, the connection ID
    and the login time; the records of other users, the counters, the
    mailboxes and the published messages are as before. *)
Theorem Login_records_user (gatewayID userID : string) (connID now : Z)
    (s : DB Text) :
  faults s = [] ->
  let s1 := fst (Login gatewayID userID connID now s) in
  snd (Login gatewayID userID connID now s) = None
  /\ snd (GetUserGateway userID s1) = Ok gatewayID
  /\ snd (IsOnline userID s1) = true
  /\ (exists fields,
        hashes s1 !! (SessionKeyPrefix +:+ userID) = Some fields
        /\ fields !! "gateway_id" = Some (HStr gatewayID)
        /\ fields !! "conn_id" = Some (HInt connID)
        /\ fields !! "login_time" = Some (HInt now))
  /\ (forall other, other <> userID ->
        snd (GetUserGateway other s1) = snd (GetUserGateway other s)
        /\ snd (IsOnline other s1) = snd (IsOnline other s))
  /\ counters s1 = counters s /\ zsets s1 = zsets s /\ published s1 = published s
  /\ faults s1 = [].
Proof.
  intros Hf s1. unfold s1, Login, roundtrip. rewrite Hf. cbn [fst snd].
  unfold GetUserGateway, IsOnline, Get, Exists, roundtrip.
  cbn [faults set_strings set_hashes strings hashes counters zsets published].
  rewrite Hf. cbn [fst snd].
  split; [reflexivity|].
  split; [rewrite lookup_insert_eq; reflexivity|].
  split.
  { rewrite lookup_insert_eq. reflexivity. }
  split.
  { eexists. split; [apply lookup_insert_eq|].
    split; [|split]; apply lookup_union_Some_l; reflexivity. }
  split.
  { intros other Hne.
    assert (Hg : GatewayKeyPrefix +:+ userID <> GatewayKeyPrefix +:+ other)
      by (intros Heq; apply append_inj in Heq; congruence).
    assert (Hs : SessionKeyPrefix +:+ userID <> SessionKeyPrefix +:+ other)
      by (intros Heq; apply append_inj in Heq; congruence).
    rewrite !lookup_insert_ne by assumption.
    split; [destruct (strings s !! (GatewayKeyPrefix +:+ other)); reflexivity | reflexivity]. }
  repeat split.
Qed.

Lemma Del_lookups (key key' : string) (s : DB Text) :
  strings (Del key s) !! key = None
  /\ hashes (Del key s) !! key = None
  /\ (key <> key' ->
      strings (Del key s) !! key' = strings s !! key'
      /\ hashes (Del key s) !! key' = hashes s !! key'
      /\ counters (Del key s) !! key' = counters s !! key'
      /\ zsets (Del key s) !! key' = zsets s !! key').
Proof.
  unfold Del. cbn [strings hashes counters zsets].
  split; [apply lookup_delete_eq|]. split; [apply lookup_delete_eq|].
  intros Hne. rewrite !lookup_delete_ne by assumption. repeat split.
Qed.

(** X9.  With the store reached, [Logout] succeeds and erases the user's
    records: the lookup of the gateway then reports redis.Nil and
    [IsOnline] answers false; other users' records, every sequence counter
    and every mailbox are as before. *)
Theorem Logout_erases_user (userID : string) (s : DB Text) :
  faults s = [] ->
  let s1 := fst (Logout userID s) in
  snd (Logout userID s) = None
  /\ snd (GetUserGateway userID s1) = Err RedisNil
  /\ snd (IsOnline userID s1) = false
  /\ (forall other, other <> userID ->
        snd (GetUserGateway other s1) = snd (GetUserGateway other s)
        /\ snd (IsOnline other s1) = snd (IsOnline other s))
  /\ (forall conversationID,
        counters s1 !! (SequenceKeyPrefix +:+ conversationID)
        = counters s !! (SequenceKeyPrefix +:+ conversationID))
  /\ (forall user, mailbox user s1 = mailbox user s)
  /\ published s1 = published s.
Proof.
  intros Hf s1. unfold s1, Logout, roundtrip. rewrite Hf. cbn [fst snd].
  set (sk := SessionKeyPrefix +:+ userID). set (gk := GatewayKeyPrefix +:+ userID).
  assert (Hsg : sk <> gk) by discriminate.
  unfold GetUserGateway, IsOnline, Get, Exists, roundtrip.
  assert (Hfl : faults (Del gk (Del sk s)) = []) by exact Hf.
  rewrite Hfl. cbn [fst snd]. fold gk sk.
  destruct (Del_lookups gk sk (Del sk s)) as (Hg1 & _ & Hg2).
  destruct (Del_lookups sk gk s) as (_ & Hs1 & Hs2).
  assert (Hgs' : gk <> sk) by congruence.
  destruct (Hg2 Hgs') as (_ & Hg2' & _).
  split; [reflexivity|].
  split; [rewrite Hg1; reflexivity|].
  split.
  { rewrite Hg2', Hs1. reflexivity. }
  split.
  { intros other Hne.
    assert (Hgo : gk <> GatewayKeyPrefix +:+ other)
      by (intros Heq; apply append_inj in Heq; congruence).
    assert (Hso : sk <> SessionKeyPrefix +:+ other)
      by (intros Heq; apply append_inj in Heq; congruence).
    assert (Hgs : gk <> SessionKeyPrefix +:+ other) by discriminate.
    assert (Hsgo : sk <> GatewayKeyPrefix +:+ other) by discriminate.
    destruct (Del_lookups gk (GatewayKeyPrefix +:+ other) (Del sk s)) as (_ & _ & Ha).
    destruct (Del_lookups sk (GatewayKeyPrefix +:+ other) s) as (_ & _ & Hb).
    destruct (Del_lookups gk (SessionKeyPrefix +:+ other) (Del sk s)) as (_ & _ & Hc).
    destruct (Del_lookups sk (SessionKeyPrefix +:+ other) s) as (_ & _ & Hd).
    destruct (Ha Hgo) as (Ha1 & _). destruct (Hb Hsgo) as (Hb1 & _).
    destruct (Hc Hgs) as (_ & Hc1 & _). destruct (Hd Hso) as (_ & Hd1 & _).
    rewrite Ha1, Hb1, Hc1, Hd1, Hf.
    split; [destruct (strings s !! (GatewayKeyPrefix +:+ other)); reflexivity | reflexivity]. }
  split.
  { intros conv.
    destruct (Del_lookups gk (SequenceKeyPrefix +:+ conv) (Del sk s)) as (_ & _ & Ha).
    destruct (Del_lookups sk (SequenceKeyPrefix +:+ conv) s) as (_ & _ & Hb).
    destruct Ha as (_ & _ & Ha & _); [discriminate|].
    destruct Hb as (_ & _ & Hb & _); [discriminate|].
    rewrite Ha, Hb. reflexivity. }
  split; [|reflexivity].
  intros user. unfold mailbox, zset_at.
  destruct (Del_lookups gk (OfflineBoxPrefix +:+ user) (Del sk s)) as (_ & _ & Ha).
  destruct (Del_lookups sk (OfflineBoxPrefix +:+ user) s) as (_ & _ & Hb).
  destruct Ha as (_ & _ & _ & Ha); [discriminate|].
  destruct Hb as (_ & _ & _ & Hb); [discriminate|].
  rewrite Ha, Hb. reflexivity.
Qed.

End session.

Section sequence.
Import redis service.
Context `{Json}.

Lemma NextSeq_reached (conversationID : string) (s : DB Text) :
  faults s = [] ->
  counter_of conversationID s < 2 ^ 63 - 1 ->
  NextSeq conversationID s
  = (set_counters (<[SequenceKeyPrefix +:+ conversationID := counter_of conversationID s + 1]>
                     (counters s)) s,
     Ok (counter_of conversationID s + 1)).
Proof.
  intros Hf Hv. unfold NextSeq, Incr, roundtrip. rewrite Hf.
  fold (counter_of conversationID s).
  destruct (Z.geb_spec (counter_of conversationID s) (2 ^ 63 - 1)); [lia | reflexivity].
Qed.

Lemma counter_of_set (conversationID other : string) (v : Z) (s : DB Text) :
  counter_of other
    (set_counters (<[SequenceKeyPrefix +:+ conversationID := v]> (counters s)) s)
  = if bool_decide (other = conversationID) then v else counter_of other s.
Proof.
  unfold counter_of. cbn [set_counters counters]. case_bool_decide as Heq.
  - subst. rewrite lookup_insert_eq. reflexivity.
  - rewrite lookup_insert_ne; [reflexivity|].
    intros Hk. apply append_inj in Hk. congruence.
Qed.

Lemma NextSeq_all_reached (n : nat) :
  forall (conversationID : string) (s : DB Text),
    faults s = [] ->
    counter_of conversationID s + Z.of_nat n <= 2 ^ 63 - 1 ->
    NextSeq_all n conversationID s
    = (Ok <$> seqZ (counter_of conversationID s + 1) (Z.of_nat n),
       match n with
       | O => s
       | S _ =>
           set_counters (<[SequenceKeyPrefix +:+ conversationID
                           := counter_of conversationID s + Z.of_nat n]> (counters s)) s
       end).
Proof.
  induction n as [|n IH]; intros conv s Hf Hv; [reflexivity|].
  cbn [NextSeq_all]. rewrite NextSeq_reached by (assumption || lia).
  set (s1 := set_counters _ s).
  assert (Hc1 : counter_of conv s1 = counter_of conv s + 1).
  { unfold s1. rewrite counter_of_set. rewrite bool_decide_eq_true_2 by reflexivity.
    reflexivity. }
  rewrite (IH conv s1); [| exact Hf | lia]. rewrite Hc1.
  rewrite (seqZ_cons _ (Z.of_nat (S n))) by lia. rewrite fmap_cons.
  f_equal; [f_equal; f_equal; f_equal; lia|].
  destruct n as [|n]; [unfold s1; f_equal; f_equal; lia|].
  unfold s1. unfold set_counters. cbn [counters strings hashes zsets published faults].
  rewrite insert_insert_eq. f_equal. f_equal. lia.
Qed.

(** X10.  With the store reached and the counter below the int64 limit,
    [n] calls of [NextSeq] for a conversation return the [n] values that
    follow the counter, in order (1, 2, 3, ... for a conversation without a
    counter), so no value is handed out twice; the counter ends [n] higher
    and the counters of other conversations are not touched. *)
Theorem NextSeq_consecutive (n : nat) (conversationID : string) (s : DB Text) :
  faults s = [] ->
  counter_of conversationID s + Z.of_nat n <= 2 ^ 63 - 1 ->
  let results := (NextSeq_all n conversationID s).1 in
  let s' := (NextSeq_all n conversationID s).2 in
  results = Ok <$> seqZ (counter_of conversationID s + 1) (Z.of_nat n)
  /\ NoDup results
  /\ counter_of conversationID s' = counter_of conversationID s + Z.of_nat n
  /\ (forall other, other <> conversationID -> counter_of other s' = counter_of other s)
  /\ strings s' = strings s /\ hashes s' = hashes s /\ zsets s' = zsets s
  /\ published s' = published s.
Proof.
  intros Hf Hv results s'. subst results s'.
  rewrite (NextSeq_all_reached n conversationID s Hf Hv). cbn [fst snd].
  split; [reflexivity|].
  split.
  { apply NoDup_fmap_2; [intros x y [= ->]; reflexivity | apply NoDup_seqZ]. }
  destruct n as [|n].
  - split; [lia|]. split; [reflexivity | repeat split].
  - split.
    { rewrite counter_of_set. rewrite bool_decide_eq_true_2 by reflexivity. reflexivity. }
    split; [|repeat split].
    intros other Hne. rewrite counter_of_set.
    rewrite bool_decide_eq_false_2 by exact Hne. reflexivity.
Qed.

(** X11.  The conversation of two users does not depend on who sends: both
    directions share one ID, the smaller user ID first, and so one
    sequence counter. *)
Theorem getConversationID_sym (user1 user2 : string) :
  getConversationID user1 user2 = getConversationID user2 user1
  /\ (forall s, NextSeq (getConversationID user1 user2) s
                = NextSeq (getConversationID user2 user1) s)
  /\ (String.ltb user1 user2 = true ->
      getConversationID user1 user2 = user1 +:+ ":" +:+ user2).
Proof.
  assert (Hsym : getConversationID user1 user2 = getConversationID user2 user1).
  { unfold getConversationID, String.ltb.
    rewrite (String.compare_antisym user2 user1).
    destruct (String.compare user1 user2) eqn:Hc; cbn [CompOpp]; try reflexivity.
    apply String.compare_eq_iff in Hc. subst. reflexivity. }
  split; [exact Hsym|]. split; [intros s; rewrite Hsym; reflexivity|].
  intros Hlt. unfold getConversationID. rewrite Hlt. reflexivity.
Qed.

Lemma int64_small (z : Z) : - 2 ^ 63 <= z < 2 ^ 63 -> int64 z = z.
Proof.
  intros Hz. unfold int64. rewrite Z.mod_small by lia. lia.
Qed.

(** X12.  With the store reached, [NextSeqBatch] moves the counter by
    [count] in one step and returns the value after the old counter as
    start and the new counter as end: for a positive [count] these are the
    [count] values that [NextSeq] would have returned one by one, and the
    next [NextSeq] continues after the end.  The count is not checked: with
    [count] zero the start lies above the end, and with a negative [count]
    the counter moves back. *)
Theorem NextSeqBatch_range (conversationID : string) (count : Z) (s : DB Text) :
  faults s = [] ->
  let v := counter_of conversationID s in
  - 2 ^ 63 <= v < 2 ^ 63 - 1 ->
  - 2 ^ 63 <= v + count < 2 ^ 63 - 1 ->
  let s' := (NextSeqBatch conversationID count s).1 in
  (NextSeqBatch conversationID count s).2 = Ok (v + 1, v + count)
  /\ counter_of conversationID s' = v + count
  /\ (NextSeq conversationID s').2 = Ok (v + count + 1)
  /\ (0 <= count ->
      (NextSeq_all (Z.to_nat count) conversationID s).1 = Ok <$> seqZ (v + 1) count
      /\ counter_of conversationID (NextSeq_all (Z.to_nat count) conversationID s).2
         = v + count)
  /\ (forall other, other <> conversationID -> counter_of other s' = counter_of other s).
Proof.
  intros Hf v Hv Hvc s'.
  assert (HB : NextSeqBatch conversationID count s
               = (set_counters (<[SequenceKeyPrefix +:+ conversationID := v + count]>
                                  (counters s)) s,
                  Ok (v + 1, v + count))).
  { unfold NextSeqBatch, IncrBy, roundtrip. rewrite Hf.
    fold (counter_of conversationID s). fold v. cbv zeta.
    assert (Hno : ((count <? 0) && (v <? 0) && (count <? - 2 ^ 63 - v))
                  || ((count >? 0) && (v >? 0) && (count >? 2 ^ 63 - 1 - v)) = false).
    { apply orb_false_iff. split; apply andb_false_iff; right;
        [apply Z.ltb_ge | rewrite Z.gtb_ltb; apply Z.ltb_ge]; lia. }
    rewrite Hno. f_equal. f_equal. f_equal.
    replace (v + count - count + 1) with (v + 1) by lia. apply int64_small. lia. }
  subst s'. rewrite HB. cbn [fst snd].
  assert (Hc : counter_of conversationID
                 (set_counters (<[SequenceKeyPrefix +:+ conversationID := v + count]>
                                  (counters s)) s) = v + count).
  { rewrite counter_of_set. rewrite bool_decide_eq_true_2 by reflexivity. reflexivity. }
  split; [reflexivity|]. split; [exact Hc|].
  split.
  { rewrite NextSeq_reached; [rewrite Hc; reflexivity | exact Hf | rewrite Hc; lia]. }
  split.
  { intros Hcount.
    rewrite (NextSeq_all_reached (Z.to_nat count) conversationID s Hf) by (fold v; lia).
    cbn [fst snd]. rewrite Z2Nat.id by exact Hcount. fold v. split; [reflexivity|].
    destruct (Z.to_nat count) eqn:Hn; [fold v; lia|].
    rewrite counter_of_set. rewrite bool_decide_eq_true_2 by reflexivity.
    fold v. lia. }
  intros other Hne. rewrite counter_of_set.
  rewrite bool_decide_eq_false_2 by exact Hne. reflexivity.
Qed.

(** X13.  [GetCurrentSeq] reads the counter without moving it and answers 0
    for a conversation that has none, while a failure to reach the store
    is reported as an error; after [ResetSeq] the conversation has no
    counter, so the next [NextSeq] hands out 1 again, and the counters of
    other conversations are not touched. *)
Theorem GetCurrentSeq_ResetSeq (conversationID : string) (s : DB Text) :
  faults s = [] ->
  GetCurrentSeq conversationID s = (s, Ok (counter_of conversationID s))
  /\ (counters s !! (SequenceKeyPrefix +:+ conversationID) = None ->
      (GetCurrentSeq conversationID s).2 = Ok 0)
  /\ (forall fs, (GetCurrentSeq conversationID (set_faults (true :: fs) s)).2 = Err ErrStore)
  /\ (let s1 := (ResetSeq conversationID s).1 in
      (ResetSeq conversationID s).2 = None
      /\ (GetCurrentSeq conversationID s1).2 = Ok 0
      /\ (NextSeq conversationID s1).2 = Ok 1
      /\ (forall other, other <> conversationID ->
            counter_of other s1 = counter_of other s)).
Proof.
  intros Hf.
  assert (HG : GetCurrentSeq conversationID s = (s, Ok (counter_of conversationID s))).
  { unfold GetCurrentSeq, GetInt64, roundtrip, counter_of. rewrite Hf.
    destruct (counters s !! (SequenceKeyPrefix +:+ conversationID)); reflexivity. }
  split; [exact HG|].
  split; [intros Hnone; rewrite HG; unfold counter_of; rewrite Hnone; reflexivity|].
  split; [intros fs; reflexivity|].
  unfold ResetSeq, roundtrip. rewrite Hf. cbn [fst snd].
  set (key := SequenceKeyPrefix +:+ conversationID).
  assert (Hc : counter_of conversationID (Del key s) = 0).
  { unfold counter_of, Del. cbn [counters]. fold key. rewrite lookup_delete_eq. reflexivity. }
  split; [reflexivity|].
  split.
  { unfold GetCurrentSeq, GetInt64, roundtrip.
    change (faults (Del key s)) with (faults s). rewrite Hf. fold key.
    unfold Del. cbn [counters]. rewrite lookup_delete_eq. reflexivity. }
  split.
  { rewrite NextSeq_reached; [rewrite Hc; reflexivity | exact Hf | rewrite Hc; lia]. }
  intros other Hne. unfold counter_of, Del. cbn [counters].
  rewrite lookup_delete_ne; [reflexivity|].
  unfold key. intros Hk. apply append_inj in Hk. congruence.
Qed.

End sequence.

Section fetch.
Import redis service.
Context `{Json}.

Lemma float64_ge_exact (s S : Z) :
  exact_seq s -> (float64_of_int64 S <= s <-> S <= s).
Proof.
  intros Hs. unfold exact_seq in Hs.
  destruct (Z.lt_ge_cases (Z.abs S) (2 ^ 53)) as [HS|HS].
  - rewrite float64_exact by exact HS. reflexivity.
  - pose proof (float64_large S HS) as HF. lia.
Qed.

Lemma Forall_filter_keep {A : Type} (Q P : A -> Prop) `{!forall x, Decision (P x)}
    (l : list A) :
  Forall Q l -> Forall Q (filter P l).
Proof.
  rewrite !Forall_forall. intros HQ x Hx.
  apply list_elem_of_filter in Hx as [_ Hx]. apply HQ, Hx.
Qed.

Lemma filter_all {A : Type} (P : A -> Prop) `{!forall x, Decision (P x)} (l : list A) :
  Forall P l -> filter P l = l.
Proof.
  induction 1 as [|x l Hx _ IH]; [reflexivity|].
  rewrite filter_cons_True by exact Hx. f_equal. exact IH.
Qed.


Lemma mailbox_wf_filter (P : ZEntry Text -> Prop) `{!forall x, Decision (P x)}
    (zs : list (ZEntry Text)) :
  mailbox_wf zs -> mailbox_wf (filter P zs).
Proof. unfold mailbox_wf. apply Forall_filter_keep. Qed.

Lemma decode_take (n : nat) (zs : list (ZEntry Text)) :
  mailbox_wf zs ->
  decode_messages (Member <$> take n zs) = take n (decode_messages (Member <$> zs)).
Proof.
  intros Hwf. revert n. induction Hwf as [|e zs (m & Hm & _) _ IH]; intros n.
  - rewrite take_nil. cbn [fmap list_fmap decode_messages]. rewrite take_nil. reflexivity.
  - destruct n as [|n]; [reflexivity|].
    cbn [take fmap list_fmap decode_messages]. rewrite Hm. cbn [take].
    f_equal. apply IH.
Qed.

Lemma decode_from (startSeq : Z) (zs : list (ZEntry Text)) :
  mailbox_wf zs ->
  decode_messages (Member <$> filter (fun x => float64_of_int64 startSeq <= Score x) zs)
  = filter (fun m => startSeq <= OfflineMessage.SeqID m)
      (decode_messages (Member <$> zs)).
Proof.
  induction 1 as [|e zs (m & Hm & Hs & Hex) _ IH]; [reflexivity|].
  cbn [fmap list_fmap decode_messages]. rewrite Hm.
  assert (Hiff : float64_of_int64 startSeq <= Score e <-> startSeq <= OfflineMessage.SeqID m).
  { rewrite Hs, (float64_exact (OfflineMessage.SeqID m)) by exact Hex.
    apply float64_ge_exact. exact Hex. }
  destruct (decide (startSeq <= OfflineMessage.SeqID m)) as [Hy|Hn].
  - rewrite (filter_cons_True _ e) by tauto. rewrite (filter_cons_True _ m) by exact Hy.
    cbn [fmap list_fmap decode_messages]. rewrite Hm. f_equal. exact IH.
  - rewrite (filter_cons_False _ e) by tauto. rewrite (filter_cons_False _ m) by exact Hn.
    exact IH.
Qed.

Lemma decode_scores (zs : list (ZEntry Text)) :
  mailbox_wf zs ->
  OfflineMessage.SeqID <$> decode_messages (Member <$> zs) = Score <$> zs.
Proof.
  induction 1 as [|e zs (m & Hm & Hs & Hex) _ IH]; [reflexivity|].
  cbn [fmap list_fmap decode_messages]. rewrite Hm. cbn [fmap list_fmap].
  f_equal; [rewrite Hs, float64_exact by exact Hex; reflexivity | exact IH].
Qed.

Lemma sorted_scores (zs : list (ZEntry Text)) :
  StronglySorted lt_score zs -> StronglySorted Z.lt (Score <$> zs).
Proof.
  induction 1 as [|e zs _ IH Hall]; [constructor|].
  rewrite fmap_cons. constructor; [exact IH|].
  apply Forall_fmap. exact Hall.
Qed.

Lemma StronglySorted_filter {A : Type} (R : A -> A -> Prop) (P : A -> Prop)
    `{!forall x, Decision (P x)} (l : list A) :
  StronglySorted R l -> StronglySorted R (filter P l).
Proof.
  induction 1 as [|x l _ IH Hall]; [constructor|].
  destruct (decide (P x)).
  - rewrite filter_cons_True by assumption. constructor; [exact IH|].
    apply Forall_filter_keep. exact Hall.
  - rewrite filter_cons_False by assumption. exact IH.
Qed.


Lemma ascending_stored (zs : list (ZEntry Text)) :
  mailbox_wf zs -> StronglySorted lt_score zs ->
  ascending (decode_messages (Member <$> zs)).
Proof.
  intros Hwf Hs. unfold ascending. rewrite decode_scores by exact Hwf.
  apply sorted_scores. exact Hs.
Qed.



Lemma Fetch_reached (userID : string) (startSeq count : Z) (s : DB Text) :
  faults s = [] ->
  mailbox_wf (mailbox userID s) ->
  Fetch userID startSeq count s
  = (s, Ok (limited count (filter (fun m => startSeq <= OfflineMessage.SeqID m)
                             (stored_messages userID s)))).
Proof.
  intros Hf Hwf. unfold Fetch, ZRangeByScore_from, roundtrip. rewrite Hf.
  fold (mailbox userID s). f_equal. f_equal.
  unfold zrangebyscore_from, limited, stored_messages.
  change (Z.to_nat 0) with 0%nat. rewrite !drop_0.
  change (-1 <? 0) with true. cbv iota.
  destruct (Z.eqb_spec count 0) as [->|Hne].
  - cbn [andb Z.eqb]. cbv iota. change (0 <? 0) with false. cbv iota.
    apply decode_from. exact Hwf.
  - cbn [andb Z.eqb]. cbv iota.
    destruct (Z.ltb_spec count 0) as [Hneg|Hpos].
    + destruct (Z.ltb_spec 0 count); [lia|]. apply decode_from. exact Hwf.
    + destruct (Z.ltb_spec 0 count); [|lia].
      rewrite decode_take by (apply mailbox_wf_filter; exact Hwf).
      f_equal. apply decode_from. exact Hwf.
Qed.






End fetch.

Section store_more.
Import redis service.
Context `{JsonLaws}.

Lemma mailbox_inv_wf (done : list insertion) (zs : list (ZEntry Text)) :
  Forall (fun i => exact_seq (ins_seq i)) done ->
  mailbox_inv done zs -> mailbox_wf zs.
Proof.
  intros Hexact [Hfrom _ _ _].
  eapply Forall_impl; [exact Hfrom|].
  intros e (i & Hi & Hm & Hs).
  rewrite Forall_forall in Hexact. specialize (Hexact i Hi).
  exists (stamped i). split; [apply Marshal_OfflineMessage_inv; exact Hm|].
  change (OfflineMessage.SeqID (stamped i)) with (ins_seq i).
  split; [rewrite float64_exact by exact Hexact; exact Hs | exact Hexact].
Qed.

(** X16.  Nothing is lost below the cap: after at most 1000 insertions with
    distinct sequence numbers (below 2^53 in magnitude) into a user's
    empty mailbox, with the store reached, the mailbox holds exactly the
    inserted messages, each with the time [Store] stamped it with, in
    ascending order of sequence number; [Count] reports their number and
    [Fetch] from a sequence number below all of them returns them all, in
    that order. *)
Theorem Store_below_cap_keeps_all (userID : string) (ins : list insertion)
    (s0 : DB Text) :
  faults s0 = [] ->
  mailbox userID s0 = [] ->
  NoDup (ins_seq <$> ins) ->
  Forall (fun i => exact_seq (ins_seq i)) ins ->
  (length ins <= Z.to_nat MaxOfflineMessages)%nat ->
  let s := Store_all userID ins s0 in
  stored_messages userID s ≡ₚ stamped <$> ins
  /\ ascending (stored_messages userID s)
  /\ (Count userID s).2 = Ok (Z.of_nat (length ins))
  /\ (forall lo count,
        (forall i, i ∈ ins -> lo <= ins_seq i) -> count <= 0 ->
        (Fetch userID lo count s).2 = Ok (stored_messages userID s)).
Proof.
  intros Hf Hempty Hnd Hexact Hfew s.
  change (Z.to_nat MaxOfflineMessages) with 1000%nat in Hfew.
  destruct (Store_all_inv userID ins [] s0 Hf) as [Hf' Hinv];
    [rewrite Hempty; apply mailbox_inv_nil | exact Hnd | | exact Hexact |].
  { intros i _ Hin. apply elem_of_nil in Hin. destruct Hin. }
  rewrite app_nil_r in Hinv. fold s in Hf', Hinv.
  assert (Hwf : mailbox_wf (mailbox userID s)).
  { eapply mailbox_inv_wf; [|exact Hinv]. apply Forall_reverse. exact Hexact. }
  destruct Hinv as [Hfrom Hsorted Hlen _].
  rewrite length_reverse in Hlen.
  assert (Hlen' : length (mailbox userID s) = length ins) by lia.
  assert (Hdec : forall x, x ∈ mailbox userID s ->
            exists i, i ∈ ins /\ Unmarshal_OfflineMessage (Member x) = Ok (stamped i)
                      /\ Score x = ins_seq i).
  { intros x Hx. rewrite Forall_forall in Hfrom.
    destruct (Hfrom x Hx) as (i & Hi & Hm & Hs).
    exists i. split; [rewrite elem_of_reverse in Hi; exact Hi|].
    split; [apply Marshal_OfflineMessage_inv; exact Hm | exact Hs]. }
  assert (Hasc : ascending (stored_messages userID s))
    by (apply ascending_stored; assumption).
  assert (Hseqs : OfflineMessage.SeqID <$> stored_messages userID s
                  = Score <$> mailbox userID s)
    by (apply decode_scores; exact Hwf).
  assert (Hnd_scores : NoDup (Score <$> mailbox userID s)).
  { rewrite <- Hseqs. unfold ascending in Hasc.
    clear -Hasc. induction Hasc as [|x l _ IH Hall]; [constructor|].
    apply NoDup_cons. split; [|exact IH].
    intros Hin. rewrite Forall_forall in Hall. specialize (Hall x Hin). lia. }
  assert (Hperm_scores : Score <$> mailbox userID s ≡ₚ ins_seq <$> ins).
  { apply submseteq_length_Permutation.
    - apply NoDup_submseteq; [exact Hnd_scores|].
      intros v Hv. apply list_elem_of_fmap in Hv as (x & -> & Hx).
      destruct (Hdec x Hx) as (i & Hi & _ & Hs). rewrite Hs.
      apply list_elem_of_fmap. eauto.
    - rewrite !length_fmap. lia. }
  assert (Hin_stored : forall r, r ∈ stored_messages userID s <-> r ∈ stamped <$> ins).
  { intros r. unfold stored_messages. rewrite elem_of_decode_messages. split.
    - intros (d & Hd & Hu). apply list_elem_of_fmap in Hd as (x & -> & Hx).
      destruct (Hdec x Hx) as (i & Hi & Hu' & _).
      apply list_elem_of_fmap. exists i. split; [congruence | exact Hi].
    - intros Hr. apply list_elem_of_fmap in Hr as (i & -> & Hi).
      assert (Hsi : ins_seq i ∈ Score <$> mailbox userID s).
      { rewrite Hperm_scores. apply list_elem_of_fmap. eauto. }
      apply list_elem_of_fmap in Hsi as (x & Hsx & Hx).
      destruct (Hdec x Hx) as (j & Hj & Hu & Hs).
      assert (j = i) as -> by (apply (NoDup_fmap_eq ins_seq ins); [assumption.. | congruence]).
      exists (Member x). split; [|exact Hu].
      apply list_elem_of_fmap. eauto. }
  assert (Hnd_stored : NoDup (stored_messages userID s)).
  { apply (NoDup_fmap_1 OfflineMessage.SeqID). rewrite Hseqs. exact Hnd_scores. }
  assert (Hnd_ins : NoDup (stamped <$> ins)).
  { apply (NoDup_fmap_1 OfflineMessage.SeqID). rewrite <- list_fmap_compose. exact Hnd. }
  split; [apply NoDup_Permutation; assumption|].
  split; [exact Hasc|].
  split.
  { unfold Count, ZCard, roundtrip. rewrite Hf'. cbn [snd]. unfold zcard.
    fold (mailbox userID s). rewrite Hlen'. reflexivity. }
  intros lo count Hlo Hcount.
  rewrite Fetch_reached by assumption. cbn [snd]. f_equal.
  unfold limited. destruct (Z.ltb_spec 0 count); [lia|].
  apply filter_all. apply Forall_forall. intros m Hm.
  apply Hin_stored in Hm. apply list_elem_of_fmap in Hm as (i & -> & Hi).
  apply Hlo. exact Hi.
Qed.

(** X17.  The last steps of [Store] are not checked.  For a message that
    encodes: when the ZADD does not reach the store, [Store] reports the
    error and the mailbox is as before; when the ZADD goes through and the
    trimming round trip then fails, [Store] still reports success and the
    mailbox holds the new element untrimmed, one element more than before
    when the element is new (a mailbox of 1000 then holds 1001); when both
    go through the mailbox is the trimmed one. *)
Theorem Store_unchecked_trim (userID : string) (msg : OfflineMessage.t) (now : Z)
    (s : DB Text) (data : Text) (fs : list bool) :
  Marshal_OfflineMessage (OfflineMessage.set_Timestamp now msg) = Ok data ->
  let e := mkZ (float64_of_int64 (OfflineMessage.SeqID msg)) data in
  (faults s = true :: fs ->
     (Store userID msg now s).2 = Some ErrStore
     /\ mailbox userID (Store userID msg now s).1 = mailbox userID s)
  /\ (faults s = false :: true :: fs ->
        (Store userID msg now s).2 = None
        /\ mailbox userID (Store userID msg now s).1 = zadd Text_ltb e (mailbox userID s)
        /\ (Forall (fun x => Member x <> data) (mailbox userID s) ->
            length (mailbox userID (Store userID msg now s).1)
            = S (length (mailbox userID s))))
  /\ (faults s = [false] ->
        (Store userID msg now s).2 = None
        /\ mailbox userID (Store userID msg now s).1
           = zremrangebyrank 0 (- MaxOfflineMessages - 1)
               (zadd Text_ltb e (mailbox userID s))).
Proof.
  intros Hm e. set (key := OfflineBoxPrefix +:+ userID).
  assert (Hunfold : Store userID msg now s
            = match ZAdd Text_ltb key e s with
              | (s, Err err) => (s, Some err)
              | (s, Ok _) =>
                  ((Expire key (ZRemRangeByRank key 0 (- MaxOfflineMessages - 1) s).1).1,
                   None)
              end).
  { unfold Store. rewrite Hm. reflexivity. }
  rewrite Hunfold. clear Hunfold.
  assert (HE : forall s0 : DB Text, zsets (Expire key s0).1 = zsets s0).
  { intros s0. unfold Expire, roundtrip. destruct (faults s0) as [|[|] ?]; reflexivity. }
  assert (Hbox : forall s0 s1 : DB Text, zsets s0 = zsets s1 -> mailbox userID s0 = mailbox userID s1).
  { intros s0 s1 Hz. unfold mailbox, zset_at. rewrite Hz. reflexivity. }
  split; [|split].
  - intros Hf. unfold ZAdd, roundtrip. rewrite Hf. cbn [fst snd].
    split; reflexivity.
  - intros Hf.
    assert (HZ : ZAdd Text_ltb key e s
                 = (put_zset key (zadd Text_ltb e (mailbox userID s))
                      (set_faults (true :: fs) s), Ok tt)).
    { unfold ZAdd, roundtrip. rewrite Hf. reflexivity. }
    rewrite HZ. set (s1 := put_zset key _ _).
    assert (Hf1 : faults s1 = true :: fs) by (unfold s1; rewrite faults_put_zset; reflexivity).
    assert (HT : (ZRemRangeByRank key 0 (- MaxOfflineMessages - 1) s1).1 = set_faults fs s1).
    { unfold ZRemRangeByRank, roundtrip. rewrite Hf1. reflexivity. }
    rewrite HT. cbn [fst snd].
    assert (Hfinal : mailbox userID (Expire key (set_faults fs s1)).1
                     = zadd Text_ltb e (mailbox userID s)).
    { rewrite (Hbox _ s1) by (rewrite HE; reflexivity).
      unfold mailbox at 1. fold key. unfold s1. apply zset_at_put_zset. }
    split; [reflexivity|]. split; [exact Hfinal|].
    intros Hfresh. rewrite Hfinal.
    rewrite zadd_fresh by exact Hfresh. rewrite zinsert_perm. reflexivity.
  - intros Hf.
    assert (HZ : ZAdd Text_ltb key e s
                 = (put_zset key (zadd Text_ltb e (mailbox userID s))
                      (set_faults [] s), Ok tt)).
    { unfold ZAdd, roundtrip. rewrite Hf. reflexivity. }
    rewrite HZ. set (s1 := put_zset key _ _).
    assert (Hf1 : faults s1 = []) by (unfold s1; rewrite faults_put_zset; reflexivity).
    assert (HT : (ZRemRangeByRank key 0 (- MaxOfflineMessages - 1) s1).1
                 = put_zset key (zremrangebyrank 0 (- MaxOfflineMessages - 1)
                                   (zadd Text_ltb e (mailbox userID s))) s1).
    { unfold ZRemRangeByRank, roundtrip. rewrite Hf1. cbn [fst].
      unfold s1 at 1. rewrite zset_at_put_zset. reflexivity. }
    rewrite HT. cbn [fst snd]. split; [reflexivity|].
    rewrite (Hbox _ (put_zset key
                       (zremrangebyrank 0 (- MaxOfflineMessages - 1)
                          (zadd Text_ltb e (mailbox userID s))) s1))
      by (rewrite HE; reflexivity).
    unfold mailbox at 1. fold key. apply zset_at_put_zset.
Qed.

End store_more.

Section per_user.
Import redis service.
Context `{Json}.

Lemma zset_at_roundtrip {A : Type} (cmd : DB Text -> DB Text * result A)
    (key : string) (s : DB Text) :
  (forall s0, zset_at key (cmd s0).1 = zset_at key s0) ->
  zset_at key (roundtrip cmd s).1 = zset_at key s.
Proof.
  intros Hcmd. unfold roundtrip.
  destruct (faults s) as [|[|] fs]; [apply Hcmd | reflexivity | apply (Hcmd (set_faults fs s))].
Qed.

Lemma mailbox_other_Store (userID other : string) (msg : OfflineMessage.t) (now : Z)
    (s : DB Text) :
  other <> userID ->
  mailbox other (Store userID msg now s).1 = mailbox other s.
Proof.
  intros Hne. unfold mailbox.
  assert (Hk : OfflineBoxPrefix +:+ userID <> OfflineBoxPrefix +:+ other)
    by (intros Heq; apply append_inj in Heq; congruence).
  assert (Hput : forall zs s0, zset_at (OfflineBoxPrefix +:+ other)
                                 (put_zset (OfflineBoxPrefix +:+ userID) zs s0)
                               = zset_at (OfflineBoxPrefix +:+ other) s0)
    by (intros; apply zset_at_put_zset_ne; exact Hk).
  unfold Store. destruct (Marshal_OfflineMessage _) as [data|e]; [|reflexivity].
  destruct (ZAdd _ _ _ s) as [s1 [[]|e]] eqn:HZ; cbn [fst].
  - unfold Expire, ZRemRangeByRank.
    rewrite !zset_at_roundtrip by (intros; cbn [fst]; rewrite ?Hput; reflexivity).
    replace s1 with (ZAdd Text_ltb (OfflineBoxPrefix +:+ userID)
                       (mkZ (float64_of_int64
                               (OfflineMessage.SeqID (OfflineMessage.set_Timestamp now msg)))
                            data) s).1
      by (rewrite HZ; reflexivity).
    unfold ZAdd. apply zset_at_roundtrip. intros; cbn [fst]. apply Hput.
  - replace s1 with (ZAdd Text_ltb (OfflineBoxPrefix +:+ userID)
                       (mkZ (float64_of_int64
                               (OfflineMessage.SeqID (OfflineMessage.set_Timestamp now msg)))
                            data) s).1
      by (rewrite HZ; reflexivity).
    unfold ZAdd. apply zset_at_roundtrip. intros; cbn [fst]. apply Hput.
Qed.

(** X18.  A mailbox belongs to one user: [Store], [Remove] and [Clear] for a
    user leave the mailbox of every other user as it is, whether or not
    the store is reached; and with the store reached [Count] reports the
    number of elements, [Clear] succeeds (also on a mailbox that does not
    exist) and leaves the user's mailbox empty, with [Count] 0 and nothing
    to fetch. *)
Theorem mailbox_of_one_user (userID : string) (s : DB Text) :
  (forall other msg now S,
     other <> userID ->
     mailbox other (Store userID msg now s).1 = mailbox other s
     /\ mailbox other (Remove userID S s).1 = mailbox other s
     /\ mailbox other (Clear userID s).1 = mailbox other s)
  /\ (faults s = [] ->
      (Count userID s).2 = Ok (Z.of_nat (length (mailbox userID s)))
      /\ (Clear userID s).2 = None
      /\ mailbox userID (Clear userID s).1 = []
      /\ (Count userID (Clear userID s).1).2 = Ok 0
      /\ (FetchLatest userID 100 (Clear userID s).1).2 = Ok []
      /\ (forall startSeq count, (Fetch userID startSeq count (Clear userID s).1).2 = Ok [])).
Proof.
  split.
  - intros other msg now S Hne.
    assert (Hk : OfflineBoxPrefix +:+ userID <> OfflineBoxPrefix +:+ other)
      by (intros Heq; apply append_inj in Heq; congruence).
    split; [apply mailbox_other_Store; exact Hne|]. split.
    + unfold mailbox, Remove, ZRemRangeByScore_upto.
      destruct (roundtrip _ s) as [s1 [[]|e]] eqn:HR;
        replace s1 with (roundtrip (fun s0 : DB Text =>
                           (put_zset (OfflineBoxPrefix +:+ userID)
                              (zremrangebyscore_upto (float64_of_int64 S)
                                 (zset_at (OfflineBoxPrefix +:+ userID) s0)) s0, Ok tt)) s).1
          by (rewrite HR; reflexivity);
        apply zset_at_roundtrip; intros; cbn [fst]; apply zset_at_put_zset_ne; exact Hk.
    + unfold mailbox, Clear.
      destruct (roundtrip _ s) as [s1 [[]|e]] eqn:HR;
        replace s1 with (roundtrip (fun s0 : DB Text =>
                           (Del (OfflineBoxPrefix +:+ userID) s0, Ok tt)) s).1
          by (rewrite HR; reflexivity);
        apply zset_at_roundtrip; intros; cbn [fst]; unfold zset_at, Del; cbn [zsets];
        rewrite lookup_delete_ne by exact Hk; reflexivity.
  - intros Hf.
    assert (HC : Clear userID s = (Del (OfflineBoxPrefix +:+ userID) s, None)).
    { unfold Clear, roundtrip. rewrite Hf. reflexivity. }
    rewrite HC. cbn [fst snd].
    assert (Hempty : mailbox userID (Del (OfflineBoxPrefix +:+ userID) s) = []).
    { unfold mailbox, zset_at, Del. cbn [zsets]. rewrite lookup_delete_eq. reflexivity. }
    assert (Hf' : faults (Del (OfflineBoxPrefix +:+ userID) s) = []) by exact Hf.
    split.
    { unfold Count, ZCard, roundtrip. rewrite Hf. reflexivity. }
    split; [reflexivity|]. split; [exact Hempty|].
    split.
    { unfold Count, ZCard, roundtrip. rewrite Hf'. cbn [snd]. unfold zcard.
      fold (mailbox userID (Del (OfflineBoxPrefix +:+ userID) s)). rewrite Hempty.
      reflexivity. }
    split.
    { unfold FetchLatest, ZRevRange, roundtrip. rewrite Hf'.
      fold (mailbox userID (Del (OfflineBoxPrefix +:+ userID) s)). rewrite Hempty.
      reflexivity. }
    intros startSeq count.
    unfold Fetch, ZRangeByScore_from, roundtrip. rewrite Hf'.
    fold (mailbox userID (Del (OfflineBoxPrefix +:+ userID) s)). rewrite Hempty.
    unfold zrangebyscore_from. rewrite filter_nil, !drop_nil, !take_nil.
    destruct ((0 =? 0) && (count =? 0)); destruct (count <? 0); reflexivity.
Qed.

End per_user.

Section routing.
Import redis server service.
Context `{Json}.

Lemma same_content_roundtrip {A : Type} (cmd : DB Text -> DB Text * result A)
    (s : DB Text) :
  (forall s0, same_content (cmd s0).1 s0) ->
  same_content (roundtrip cmd s).1 s.
Proof.
  intros Hcmd. unfold roundtrip.
  destruct (faults s) as [|[|] fs]; [apply Hcmd | repeat split |].
  destruct (Hcmd (set_faults fs s)) as (H1 & H2 & H3 & H4 & H5).
  repeat split; assumption.
Qed.

(** X19.  No sequence number, no delivery: when [NextSeq] fails (the store
    is not reached, or the counter is at the int64 limit),
    [SendPrivateMessage] returns that error and nothing else happens: the
    registry and the connections are as before, and so is the content of
    the store: no counter moved, nothing stored, nothing published. *)
Theorem SendPrivateMessage_without_sequence (gatewayID : string) (pick : nat) (now : Z)
    (fromUserID toUserID : string) (content : list byte) (w : World)
    (s1 : DB Text) (err : error) :
  NextSeq (getConversationID fromUserID toUserID) (store w) = (s1, Err err) ->
  SendPrivateMessage gatewayID pick now fromUserID toUserID content w
  = (set_store s1 w, Some err)
  /\ err = ErrStore
  /\ same_content s1 (store w)
  /\ registry (set_store s1 w) = registry w.
Proof.
  intros HN. split; [unfold SendPrivateMessage; rewrite HN; reflexivity|].
  unfold NextSeq, Incr, roundtrip in HN.
  split.
  - destruct (faults (store w)) as [|[|] fs]; [| congruence |];
      destruct (_ >=? _); congruence.
  - split; [|reflexivity].
    destruct (faults (store w)) as [|[|] fs].
    + destruct (_ >=? _); [|discriminate]. injection HN as <- _. repeat split.
    + injection HN as <- _. repeat split.
    + destruct (_ >=? _); [|discriminate]. injection HN as <- _. repeat split.
Qed.

Lemma fits_message_frame (body : list byte) :
  Z.of_nat (length body) <= protocol.MaxPayloadLength -> fits (message_frame body).
Proof.
  intros Hlen. split; [exact Hlen|]. cbn. unfold protocol.CmdTypeMessage. lia.
Qed.

Lemma Send_full (pick : nat) (conn : loc) (msg : protocol.Message)
    (h : Heap) (c : Connection) :
  h !! conn = Some c ->
  closed c = false ->
  queue_full c ->
  fits msg ->
  server.Send pick conn msg h = (h, None).
Proof.
  intros Hc Hopen Hfull Hfit. unfold server.Send. rewrite Hc.
  assert (HS : Connection_Send pick msg c = (c, None)).
  { unfold Connection_Send. rewrite (Pack_fits msg Hfit).
    pose proof (select_resolves pick c) as Hsel.
    rewrite ready_cases, Hopen, bool_decide_eq_true_2 in Hsel by exact Hfull.
    destruct Hsel as [[_ Hs]|[Hr _]]; [|destruct Hr; reflexivity].
    rewrite Hs. reflexivity. }
  rewrite HS. rewrite insert_id by exact Hc. reflexivity.
Qed.

Lemma Send_closed_full (pick : nat) (conn : loc) (msg : protocol.Message)
    (h : Heap) (c : Connection) :
  h !! conn = Some c ->
  closed c = true ->
  queue_full c ->
  fits msg ->
  server.Send pick conn msg h = (h, Some ErrClosed).
Proof.
  intros Hc Hclosed Hfull Hfit. unfold server.Send. rewrite Hc.
  assert (HS : Connection_Send pick msg c = (c, Some ErrClosed)).
  { unfold Connection_Send. rewrite (Pack_fits msg Hfit).
    pose proof (select_resolves pick c) as Hsel.
    rewrite ready_cases, Hclosed, bool_decide_eq_true_2 in Hsel by exact Hfull.
    destruct Hsel as [[Hr _]|[_ Hs]]; [discriminate Hr|].
    apply list_elem_of_singleton in Hs. rewrite Hs. reflexivity. }
  rewrite HS. rewrite insert_id by exact Hc. reflexivity.
Qed.

Lemma lookup_keeps_boxes (fromUserID toUserID : string) (w : World)
    (s1 s2 : DB Text) (seqID : Z) (targetGateway : string) :
  NextSeq (getConversationID fromUserID toUserID) (store w) = (s1, Ok seqID) ->
  GetUserGateway toUserID s1 = (s2, Ok targetGateway) ->
  zsets s2 = zsets (store w) /\ published s2 = published (store w).
Proof.
  intros HN HG.
  assert (Hs1 : zsets s1 = zsets (store w) /\ published s1 = published (store w)).
  { unfold NextSeq, Incr, roundtrip in HN.
    destruct (faults (store w)) as [|[|] fs]; [| discriminate |];
      destruct (_ >=? _); try discriminate; injection HN as <- _; split; reflexivity. }
  assert (Hs2 : zsets s2 = zsets s1 /\ published s2 = published s1).
  { unfold GetUserGateway, Get, roundtrip in HG.
    destruct (faults s1) as [|[|] fs]; [| discriminate |];
      destruct (strings _ !! _); try discriminate; injection HG as <- _; split; reflexivity. }
  destruct Hs1 as [Ha Hb], Hs2 as [Hc' Hd]. split; congruence.
Qed.

Lemma lookup_keeps_counter (fromUserID toUserID : string) (w : World)
    (s1 s2 : DB Text) (seqID : Z) (targetGateway : string) :
  NextSeq (getConversationID fromUserID toUserID) (store w) = (s1, Ok seqID) ->
  GetUserGateway toUserID s1 = (s2, Ok targetGateway) ->
  counters s2 !! (SequenceKeyPrefix +:+ getConversationID fromUserID toUserID) = Some seqID.
Proof.
  intros HN HG.
  assert (Hs1 : counters s1 !! (SequenceKeyPrefix +:+ getConversationID fromUserID toUserID)
                = Some seqID).
  { unfold NextSeq, Incr, roundtrip in HN.
    destruct (faults (store w)) as [|[|] fs]; [| discriminate |];
      destruct (_ >=? _); try discriminate; injection HN as <- <-;
      cbn [counters set_counters]; apply lookup_insert_eq. }
  assert (Hs2 : counters s2 = counters s1).
  { unfold GetUserGateway, Get, roundtrip in HG.
    destruct (faults s1) as [|[|] fs]; [| discriminate |];
      destruct (strings _ !! _); try discriminate; injection HG as <- _; reflexivity. }
  rewrite Hs2. exact Hs1.
Qed.




Lemma Send_other_conn (pick : nat) (conn other : loc) (msg : protocol.Message) (h : Heap) :
  other <> conn -> (server.Send pick conn msg h).1 !! other = h !! other.
Proof.
  intros Hne. unfold server.Send. destruct (h !! conn) as [c|]; [|reflexivity].
  destruct (Connection_Send pick msg c) as [c' e]. cbn [fst].
  apply lookup_insert_ne. congruence.
Qed.

Lemma Send_appends (pick : nat) (conn : loc) (msg : protocol.Message) (h : Heap)
    (c : Connection) :
  h !! conn = Some c ->
  exists frames,
    (server.Send pick conn msg h).1 !! conn = Some (set_writeChan (writeChan c ++ frames) c).
Proof.
  intros Hc. unfold server.Send. rewrite Hc. unfold Connection_Send.
  destruct (protocol.Pack msg) as [msg' [data|e]].
  - destruct (select pick c); cbn [fst]; rewrite lookup_insert_eq.
    + exists [data]. reflexivity.
    + exists []. rewrite app_nil_r, set_writeChan_same. reflexivity.
    + exists []. rewrite app_nil_r, set_writeChan_same. reflexivity.
  - cbn [fst]. rewrite lookup_insert_eq.
    exists []. rewrite app_nil_r, set_writeChan_same. reflexivity.
Qed.

Lemma push_each_other (pick : nat -> nat) (conn other : loc)
    (msgs : list OfflineMessage.t) :
  other <> conn ->
  forall (i : nat) (h : Heap), push_each pick i conn msgs h !! other = h !! other.
Proof.
  intros Hne. induction msgs as [|m msgs IH]; intros i h; [reflexivity|].
  cbn [push_each]. destruct (Marshal_ChatMessage _) as [data|e]; [|apply IH].
  rewrite IH. apply Send_other_conn. exact Hne.
Qed.

Lemma push_each_appends (pick : nat -> nat) (conn : loc)
    (msgs : list OfflineMessage.t) :
  forall (i : nat) (h : Heap) (c : Connection),
    h !! conn = Some c ->
    exists frames,
      push_each pick i conn msgs h !! conn = Some (set_writeChan (writeChan c ++ frames) c).
Proof.
  induction msgs as [|m msgs IH]; intros i h c Hc.
  - exists []. rewrite app_nil_r, set_writeChan_same. exact Hc.
  - cbn [push_each]. destruct (Marshal_ChatMessage _) as [data|e]; [|apply IH; exact Hc].
    destruct (Send_appends (pick i) conn
                {| protocol.Length := 0; protocol.Version := 0;
                   protocol.CmdType := protocol.CmdTypeMessage;
                   protocol.Body := data |} h c Hc) as (f1 & H1).
    destruct (IH (S i) _ _ H1) as (f2 & H2).
    exists (f1 ++ f2). rewrite H2. cbn [set_writeChan writeChan ID UserID closed written].
    rewrite app_assoc. reflexivity.
Qed.

(** [SendPrivateMessage] when the recipient's gateway is found. *)
Lemma SendPrivateMessage_routed (gatewayID : string) (pick : nat) (now : Z)
    (fromUserID toUserID : string) (content : list byte) (w : World)
    (s1 s2 : DB Text) (seqID : Z) (targetGateway : string) :
  NextSeq (getConversationID fromUserID toUserID) (store w) = (s1, Ok seqID) ->
  GetUserGateway toUserID s1 = (s2, Ok targetGateway) ->
  SendPrivateMessage gatewayID pick now fromUserID toUserID content w
  = if bool_decide (targetGateway = gatewayID)
    then deliverLocal pick now toUserID
           (private_chat fromUserID toUserID content seqID) (set_store s2 w)
    else deliverRemote targetGateway
           (private_chat fromUserID toUserID content seqID) (set_store s2 w).
Proof.
  intros HN HG. unfold SendPrivateMessage. rewrite HN, HG. reflexivity.
Qed.

(** X20.  Local delivery.  When the recipient's gateway record names this
    gateway and the recipient is bound to an open connection whose queue
    has room, [SendPrivateMessage] queues one frame on that connection, of
    command type Message, whose body is the encoding of the chat message
    with the sender, the recipient, the content, message type private and
    the sequence number just allocated, and returns nil; no other
    connection changes, the registry tables are as before, and nothing is
    stored in a mailbox or published. *)
Theorem SendPrivateMessage_local (gatewayID : string) (pick : nat) (now : Z)
    (fromUserID toUserID : string) (content : list byte) (w : World)
    (s1 s2 : DB Text) (seqID : Z) (conn : loc) (c : Connection) (body : list byte) :
  NextSeq (getConversationID fromUserID toUserID) (store w) = (s1, Ok seqID) ->
  GetUserGateway toUserID s1 = (s2, Ok gatewayID) ->
  GetByUserID toUserID (registry w) = Some conn ->
  heap (registry w) !! conn = Some c ->
  closed c = false ->
  ~ queue_full c ->
  Marshal_ChatMessage (private_chat fromUserID toUserID content seqID) = Ok body ->
  Z.of_nat (length body) <= protocol.MaxPayloadLength ->
  let res := SendPrivateMessage gatewayID pick now fromUserID toUserID content w in
  res.2 = None
  /\ heap (registry res.1)
     = <[conn := enqueued (frame_bytes (message_frame body)) c]> (heap (registry w))
  /\ manager (registry res.1) = manager (registry w)
  /\ store res.1 = s2
  /\ zsets s2 = zsets (store w)
  /\ published s2 = published (store w).
Proof.
  intros HN HG Hbound Hc Hopen Hroom Hbody Hlen res.
  assert (Hres : res = (set_heap (<[conn := enqueued (frame_bytes (message_frame body)) c]>
                                    (heap (registry w))) (set_store s2 w), None)).
  { unfold res. rewrite (SendPrivateMessage_routed _ _ _ _ _ _ _ _ _ _ _ HN HG).
    rewrite bool_decide_eq_true_2 by reflexivity.
    unfold deliverLocal. cbn [registry set_store]. rewrite Hbound, Hbody.
    fold (message_frame body).
    rewrite (Send_enqueues pick conn (message_frame body) _ c Hc Hopen Hroom
               (fits_message_frame body Hlen)).
    reflexivity. }
  rewrite Hres. cbn [fst snd]. split; [reflexivity|]. split; [reflexivity|].
  split; [reflexivity|]. split; [reflexivity|].
  apply (lookup_keeps_boxes _ _ _ _ _ _ _ HN HG).
Qed.

(** X21.  Local delivery that does not arrive.  When the recipient's gateway
    record names this gateway and the recipient is bound to a connection
    whose queue is full, the message is neither queued nor stored in the
    recipient's mailbox: on an open connection [SendPrivateMessage] still
    returns nil, on a closed one it returns [ErrClosed]; the connections,
    the mailboxes and the published messages are as before (the sequence
    number stays allocated). *)
Theorem SendPrivateMessage_local_full (gatewayID : string) (pick : nat) (now : Z)
    (fromUserID toUserID : string) (content : list byte) (w : World)
    (s1 s2 : DB Text) (seqID : Z) (conn : loc) (c : Connection) (body : list byte) :
  NextSeq (getConversationID fromUserID toUserID) (store w) = (s1, Ok seqID) ->
  GetUserGateway toUserID s1 = (s2, Ok gatewayID) ->
  GetByUserID toUserID (registry w) = Some conn ->
  heap (registry w) !! conn = Some c ->
  queue_full c ->
  Marshal_ChatMessage (private_chat fromUserID toUserID content seqID) = Ok body ->
  Z.of_nat (length body) <= protocol.MaxPayloadLength ->
  let res := SendPrivateMessage gatewayID pick now fromUserID toUserID content w in
  res.2 = (if closed c then Some ErrClosed else None)
  /\ registry res.1 = registry w
  /\ store res.1 = s2
  /\ zsets s2 = zsets (store w)
  /\ published s2 = published (store w)
  /\ counters s2 !! (SequenceKeyPrefix +:+ getConversationID fromUserID toUserID)
     = Some seqID.
Proof.
  intros HN HG Hbound Hc Hfull Hbody Hlen res.
  assert (Hres : res = (set_store s2 w, if closed c then Some ErrClosed else None)).
  { unfold res. rewrite (SendPrivateMessage_routed _ _ _ _ _ _ _ _ _ _ _ HN HG).
    rewrite bool_decide_eq_true_2 by reflexivity.
    unfold deliverLocal. cbn [registry set_store]. rewrite Hbound, Hbody.
    fold (message_frame body).
    destruct (closed c) eqn:Hcl.
    - rewrite (Send_closed_full pick conn (message_frame body) _ c Hc Hcl Hfull
                 (fits_message_frame body Hlen)).
      unfold set_heap, set_registry. cbn [store registry]. destruct w as [s [h m]].
      reflexivity.
    - rewrite (Send_full pick conn (message_frame body) _ c Hc Hcl Hfull
                 (fits_message_frame body Hlen)).
      unfold set_heap, set_registry. cbn [store registry]. destruct w as [s [h m]].
      reflexivity. }
  rewrite Hres. cbn [fst snd]. split; [reflexivity|]. split; [reflexivity|].
  split; [reflexivity|].
  destruct (lookup_keeps_boxes _ _ _ _ _ _ _ HN HG) as [Hz Hp].
  split; [exact Hz|]. split; [exact Hp|].
  apply (lookup_keeps_counter _ _ _ _ _ _ _ HN HG).
Qed.

(** X22.  Remote delivery.  When the recipient's gateway record names
    another gateway, [SendPrivateMessage] publishes one payload, the
    encoding of the message with its sequence number, on the channel of
    that gateway, and returns nil; when the publish round trip fails it
    returns the error, and the message is not stored in the recipient's
    mailbox.  Either way the registry, the connections and the mailboxes
    are as before. *)
Theorem SendPrivateMessage_remote (gatewayID : string) (pick : nat) (now : Z)
    (fromUserID toUserID : string) (content : list byte) (w : World)
    (s1 s2 : DB Text) (seqID : Z) (targetGateway : string) (payload : list byte) :
  NextSeq (getConversationID fromUserID toUserID) (store w) = (s1, Ok seqID) ->
  GetUserGateway toUserID s1 = (s2, Ok targetGateway) ->
  targetGateway <> gatewayID ->
  Marshal_PubSubMessage
    (pubsub_of_chat (private_chat fromUserID toUserID content seqID)) = Ok payload ->
  let res := SendPrivateMessage gatewayID pick now fromUserID toUserID content w in
  registry res.1 = registry w
  /\ zsets (store res.1) = zsets (store w)
  /\ (hd false (faults s2) = false ->
      res.2 = None
      /\ published (store res.1)
         = published (store w) ++ [(channel_of targetGateway, payload)])
  /\ (hd false (faults s2) = true ->
      res.2 = Some ErrStore
      /\ published (store res.1) = published (store w)).
Proof.
  intros HN HG Hne Hpay res.
  destruct (lookup_keeps_boxes _ _ _ _ _ _ _ HN HG) as [Hz Hp].
  assert (Hres : res = let '(s, e) := Publish targetGateway
                                       (pubsub_of_chat (private_chat fromUserID toUserID content seqID)) s2 in
                       (set_store s w, e)).
  { unfold res. rewrite (SendPrivateMessage_routed _ _ _ _ _ _ _ _ _ _ _ HN HG).
    rewrite bool_decide_eq_false_2 by exact Hne. unfold deliverRemote.
    cbn [store set_store]. fold (pubsub_of_chat (private_chat fromUserID toUserID content seqID)).
    destruct (Publish _ _ s2) as [s e]. destruct w; reflexivity. }
  rewrite Hres. unfold Publish. rewrite Hpay. fold (channel_of targetGateway).
  unfold redis.Publish, roundtrip.
  destruct (faults s2) as [|[|] fs]; cbn [fst snd store registry set_store hd
                                          zsets published set_published set_faults].
  - split; [reflexivity|]. split; [exact Hz|].
    split; [intros _; split; [reflexivity | rewrite Hp; reflexivity] | discriminate].
  - split; [reflexivity|]. split; [exact Hz|].
    split; [discriminate | intros _; split; [reflexivity | exact Hp]].
  - split; [reflexivity|]. split; [exact Hz|].
    split; [intros _; split; [reflexivity | rewrite Hp; reflexivity] | discriminate].
Qed.




(** X24.  [DeliverOfflineMessages] only reads the mailbox: whatever it
    sends, the content of the store is as before (the messages stay in the
    mailbox until they are acknowledged), the registry tables and every
    other connection are as before, and on the connection itself frames
    are only added at the back of the queue.  When the mailbox cannot be
    fetched the error is returned and no connection changes. *)
Theorem DeliverOfflineMessages_reads_only (pick : nat -> nat) (userID : string)
    (conn : loc) (w : World) :
  let res := DeliverOfflineMessages pick userID conn w in
  same_content (store res.1) (store w)
  /\ manager (registry res.1) = manager (registry w)
  /\ (forall other, other <> conn ->
        heap (registry res.1) !! other = heap (registry w) !! other)
  /\ (forall c, heap (registry w) !! conn = Some c ->
        exists frames,
          heap (registry res.1) !! conn
          = Some (set_writeChan (writeChan c ++ frames) c))
  /\ (hd false (faults (store w)) = true ->
      res.2 = Some ErrStore /\ registry res.1 = registry w).
Proof.
  intros res. unfold res, DeliverOfflineMessages, FetchLatest, ZRevRange, roundtrip.
  destruct (faults (store w)) as [|[|] fs] eqn:Hf; cbn [fst snd hd].
  - split; [repeat split|]. split; [reflexivity|].
    split; [intros other Hne; apply push_each_other; exact Hne|].
    split; [intros c Hc; apply push_each_appends; exact Hc | discriminate].
  - split; [repeat split|]. split; [reflexivity|].
    split; [reflexivity|].
    split; [|intros _; split; reflexivity].
    intros c Hc. exists []. rewrite app_nil_r, set_writeChan_same. exact Hc.
  - split; [repeat split|]. split; [reflexivity|].
    split; [intros other Hne; apply push_each_other; exact Hne|].
    split; [intros c Hc; apply push_each_appends; exact Hc | discriminate].
Qed.

End routing.

(** ** Frames handled by the application *)

Section application.
Import redis server service app.
Context `{Json} `{Jwt}.

Lemma handleAuth_valid (gatewayID : string) (pick : nat) (now : Z)
    (conn : loc) (msg : protocol.Message) (w : World)
    (token : string) (claims : Claims.t) :
  Unmarshal_AuthRequest (protocol.Body msg) = Ok token ->
  ValidateToken token = Ok claims ->
  let uid := Claims.UserID claims in
  let bound := BindUser uid conn (registry w) in
  handleAuth gatewayID pick now conn msg w
  = (sendAuthResponse pick conn true uid
       (set_store (Login gatewayID uid (GetID conn (heap bound)) now (store w)).1
          (set_registry bound w)),
     [GoDeliverOfflineMessages uid conn]).
Proof.
  intros Hreq Htok uid bound.
  unfold handleAuth. rewrite Hreq, Htok. cbv zeta. cbn [store registry set_registry].
  fold uid. fold bound.
  destruct (Login gatewayID uid (GetID conn (heap bound)) now (store w)) as [s e].
  reflexivity.
Qed.

Lemma sendAuthResponse_effect (pick : nat) (conn : loc) (success : bool)
    (message : string) (w : World) :
  let w' := sendAuthResponse pick conn success message w in
  store w' = store w
  /\ manager (registry w') = manager (registry w)
  /\ heap (registry w') = (server.Send pick conn (authAck success message) (heap (registry w))).1.
Proof. repeat split. Qed.

(** X25.  A request that is not authenticated.  When the body of the request
    does not decode the reply says [Invalid request]; when the token has
    expired, [token expired]; when it does not parse or is not valid,
    [invalid token].  In each case [handleAuth] does nothing but send that
    reply, an AuthAck with success unset: the connection stays without a
    user, no user is bound to it, the store is not touched and no delivery
    of offline messages is started. *)
Theorem handleAuth_rejects (gatewayID : string) (pick : nat) (now : Z)
    (conn : loc) (msg : protocol.Message) (w : World) :
  let res := handleAuth gatewayID pick now conn msg w in
  let refused text := (sendAuthResponse pick conn false text w, [] : list goroutine) in
  ((forall e, Unmarshal_AuthRequest (protocol.Body msg) = Err e ->
      res = refused "Invalid request")
   /\ (forall token,
         Unmarshal_AuthRequest (protocol.Body msg) = Ok token ->
         (ParseWithClaims token = ParseErrExpired -> res = refused "token expired")
         /\ (ParseWithClaims token = ParseErrOther -> res = refused "invalid token")
         /\ (forall claims, ParseWithClaims token = Parsed claims false ->
               res = refused "invalid token")))
  /\ (forall text,
        let w' := (refused text).1 in
        store w' = store w
        /\ manager (registry w') = manager (registry w)
        /\ GetUserID conn (heap (registry w')) = GetUserID conn (heap (registry w))
        /\ (forall other, other <> conn ->
              heap (registry w') !! other = heap (registry w) !! other)
        /\ (forall c,
              heap (registry w) !! conn = Some c ->
              closed c = false -> ~ queue_full c ->
              fits (authAck false text) ->
              heap (registry w') !! conn
              = Some (enqueued (frame_bytes (authAck false text)) c))).
Proof.
  intros res refused. split.
  - split.
    + intros e He. unfold res, handleAuth. rewrite He. reflexivity.
    + intros token Htok. unfold res, handleAuth, ValidateToken. rewrite Htok.
      split; [intros ->; reflexivity|]. split; [intros ->; reflexivity|].
      intros claims ->. reflexivity.
  - intros text w'. unfold w', refused. cbn [fst].
    destruct (sendAuthResponse_effect pick conn false text w) as (Hs & Hm & Hh).
    split; [exact Hs|]. split; [exact Hm|]. rewrite Hh.
    split.
    { unfold GetUserID, server.Send.
      destruct (heap (registry w) !! conn) as [c|] eqn:Hc; cbn [fst]; [|rewrite Hc; reflexivity].
      destruct (Connection_Send pick (authAck false text) c) as [c' e] eqn:HS. cbn [fst].
      rewrite lookup_insert_eq. unfold Connection_Send in HS.
      destruct (protocol.Pack _) as [m [d|err]]; [destruct (select pick c)|];
        injection HS as <- _; reflexivity. }
    split.
    { intros other Hne. unfold server.Send.
      destruct (heap (registry w) !! conn) as [c|]; [|reflexivity].
      destruct (Connection_Send pick (authAck false text) c) as [c' e]. cbn [fst].
      apply lookup_insert_ne. congruence. }
    intros c Hc Hopen Hroom Hfit.
    rewrite (Send_enqueues pick conn _ _ c Hc Hopen Hroom Hfit). cbn [fst].
    apply lookup_insert_eq.
Qed.


Lemma Login_reached (gatewayID userID : string) (connID now : Z) (s : DB Text) :
  faults s = [] ->
  exists s',
    Login gatewayID userID connID now s = (s', None)
    /\ faults s' = []
    /\ strings s' !! (GatewayKeyPrefix +:+ userID) = Some gatewayID
    /\ counters s' = counters s /\ zsets s' = zsets s /\ published s' = published s.
Proof.
  intros Hf. unfold Login, roundtrip. rewrite Hf. eexists. split; [reflexivity|].
  cbn [faults strings counters zsets published set_strings set_hashes].
  split; [exact Hf|]. split; [apply lookup_insert_eq|]. repeat split.
Qed.

Lemma GetUserGateway_reached (userID gatewayID : string) (s : DB Text) :
  faults s = [] ->
  strings s !! (GatewayKeyPrefix +:+ userID) = Some gatewayID ->
  GetUserGateway userID s = (s, Ok gatewayID).
Proof.
  intros Hf Hg. unfold GetUserGateway, Get, roundtrip. rewrite Hf, Hg. reflexivity.
Qed.

(** X26.  Authentication followed by a message.  With the store reached, a
    valid token arriving on an open connection binds its user to the
    connection and records this gateway for the user; a private message
    to that user handled at this gateway afterwards is then queued on that
    connection, behind the AuthAck, as a Message frame carrying the next
    sequence number of the conversation, and nothing is put in the user's
    mailbox. *)
Theorem handleAuth_then_message (gatewayID : string) (pick pick' : nat) (now now' : Z)
    (conn : loc) (msg : protocol.Message) (w : World) (c : Connection)
    (token : string) (claims : Claims.t)
    (fromUserID : string) (content body : list byte) :
  faults (store w) = [] ->
  heap (registry w) !! conn = Some c ->
  closed c = false ->
  (length (writeChan c) + 2 <= writeChanCap)%nat ->
  Unmarshal_AuthRequest (protocol.Body msg) = Ok token ->
  ValidateToken token = Ok claims ->
  let uid := Claims.UserID claims in
  let seqID := counter_of (getConversationID fromUserID uid) (store w) + 1 in
  fits (authAck true uid) ->
  seqID <= 2 ^ 63 - 1 ->
  Marshal_ChatMessage (private_chat fromUserID uid content seqID) = Ok body ->
  Z.of_nat (length body) <= protocol.MaxPayloadLength ->
  let w1 := (handleAuth gatewayID pick now conn msg w).1 in
  let res := SendPrivateMessage gatewayID pick' now' fromUserID uid content w1 in
  (GetUserGateway uid (store w1)).2 = Ok gatewayID
  /\ GetByUserID uid (registry w1) = Some conn
  /\ res.2 = None
  /\ heap (registry res.1) !! conn
     = Some (set_writeChan
               (writeChan c ++ [frame_bytes (authAck true uid);
                                frame_bytes (message_frame body)])
               (set_UserID uid c))
  /\ mailbox uid (store res.1) = mailbox uid (store w).
Proof.
  intros Hf Hc Hopen Hroom Hreq Htok uid seqID Hfit Hseq Hbody Hlen w1 res.
  set (bound := BindUser uid conn (registry w)).
  destruct (Login_reached gatewayID uid (GetID conn (heap bound)) now (store w) Hf)
    as (sL & HL & HfL & HgL & HcL & HzL & HpL).
  assert (Hb : heap bound !! conn = Some (set_UserID uid c)).
  { unfold bound, BindUser, SetUserID. cbn [heap].
    rewrite lookup_alter_eq, Hc. reflexivity. }
  set (c1 := enqueued (frame_bytes (authAck true uid)) (set_UserID uid c)).
  assert (Hw1 : w1 = {| store := sL;
                        registry := {| heap := <[conn := c1]> (heap bound);
                                       manager := manager bound |} |}).
  { unfold w1. rewrite (handleAuth_valid gatewayID pick now conn msg w token claims Hreq Htok).
    fold uid. fold bound. rewrite HL. cbn [fst].
    unfold sendAuthResponse. fold (authAck true uid).
    cbn [registry set_store set_registry store].
    rewrite (Send_enqueues pick conn (authAck true uid) (heap bound) (set_UserID uid c)
               Hb Hopen); [reflexivity | | exact Hfit].
    unfold queue_full. cbn [set_UserID writeChan]. lia. }
  set (conv := getConversationID fromUserID uid) in *.
  assert (Hcnt : counter_of conv sL = counter_of conv (store w))
    by (unfold counter_of; rewrite HcL; reflexivity).
  assert (HN : NextSeq conv sL
               = (set_counters (<[SequenceKeyPrefix +:+ conv := seqID]> (counters sL)) sL,
                  Ok seqID)).
  { rewrite NextSeq_reached by (assumption || (rewrite Hcnt; unfold seqID in Hseq; lia)).
    rewrite Hcnt. reflexivity. }
  set (s1 := set_counters _ sL) in HN.
  assert (HG : GetUserGateway uid s1 = (s1, Ok gatewayID))
    by (apply GetUserGateway_reached; [exact HfL | exact HgL]).
  assert (Hgw : (GetUserGateway uid (store w1)).2 = Ok gatewayID).
  { rewrite Hw1. cbn [store]. rewrite (GetUserGateway_reached uid gatewayID sL HfL HgL).
    reflexivity. }
  assert (Hbound : GetByUserID uid (registry w1) = Some conn).
  { rewrite Hw1. unfold GetByUserID, bound, BindUser. cbn [registry manager userConns].
    apply lookup_insert_eq. }
  assert (Hc1 : heap (registry w1) !! conn = Some c1)
    by (rewrite Hw1; cbn [registry heap]; apply lookup_insert_eq).
  assert (Hres : res = (set_heap (<[conn := enqueued (frame_bytes (message_frame body)) c1]>
                                    (heap (registry w1))) (set_store s1 w1), None)).
  { unfold res.
    assert (HN' : NextSeq conv (store w1) = (s1, Ok seqID)) by (rewrite Hw1; exact HN).
    rewrite (SendPrivateMessage_routed gatewayID pick' now' fromUserID uid content w1
               s1 s1 seqID gatewayID HN' HG).
    rewrite bool_decide_eq_true_2 by reflexivity.
    unfold deliverLocal. cbn [registry set_store]. rewrite Hbound, Hbody.
    fold (message_frame body).
    rewrite (Send_enqueues pick' conn (message_frame body) _ c1 Hc1);
      [reflexivity | exact Hopen | | apply fits_message_frame; exact Hlen].
    unfold queue_full, c1, enqueued. cbn [set_writeChan set_UserID writeChan].
    rewrite length_app. cbn [length]. lia. }
  split; [exact Hgw|]. split; [exact Hbound|].
  rewrite Hres. cbn [fst snd]. split; [reflexivity|].
  split.
  { cbn [set_heap set_registry registry heap]. rewrite lookup_insert_eq.
    unfold c1, enqueued, set_writeChan, set_UserID.
    cbn [writeChan ID UserID closed written]. rewrite <- app_assoc. reflexivity. }
  cbn [set_heap set_registry set_store store]. unfold mailbox, zset_at.
  unfold s1. cbn [set_counters zsets]. rewrite HzL. reflexivity.
Qed.

(** X27.  What a frame does.  A heartbeat is answered by the server with a
    Heartbeat frame whose body is [pong], and touches neither the store
    (no session record is refreshed) nor the registry tables; a frame
    whose command type is none of Heartbeat, Auth, Message and MessageAck
    changes nothing; and a Message or MessageAck frame on a connection
    without a user changes nothing either: no sequence number is
    allocated, nothing is sent, stored or removed. *)
Theorem handleConnection_frame_dispatch (gatewayID : string) (pick : nat) (now : Z)
    (conn : loc) (msg : protocol.Message) (w : World) :
  let res := handleConnection_frame gatewayID pick now conn msg w in
  (protocol.CmdType msg = protocol.CmdTypeHeartbeat ->
     res.2 = []
     /\ store res.1 = store w
     /\ manager (registry res.1) = manager (registry w)
     /\ (forall other, other <> conn ->
           heap (registry res.1) !! other = heap (registry w) !! other)
     /\ (forall c,
           heap (registry w) !! conn = Some c -> closed c = false -> ~ queue_full c ->
           heap (registry res.1) !! conn
           = Some (enqueued [x00; x00; x00; x08; x00; x01; x00; x01;
                             "p"; "o"; "n"; "g"]%byte c)))
  /\ (protocol.CmdType msg <> protocol.CmdTypeHeartbeat ->
      protocol.CmdType msg <> protocol.CmdTypeAuth ->
      protocol.CmdType msg <> protocol.CmdTypeMessage ->
      protocol.CmdType msg <> protocol.CmdTypeMessageAck ->
      res = (w, []))
  /\ (GetUserID conn (heap (registry w)) = EmptyString ->
      protocol.CmdType msg = protocol.CmdTypeMessage
      \/ protocol.CmdType msg = protocol.CmdTypeMessageAck ->
      res = (w, [])).
Proof.
  intros res. split; [|split].
  - intros Hcmd. unfold res, handleConnection_frame. rewrite Hcmd.
    change (protocol.CmdTypeHeartbeat =? protocol.CmdTypeHeartbeat) with true.
    cbv iota. cbn [fst snd]. split; [reflexivity|]. split; [reflexivity|].
    split; [reflexivity|]. unfold handleHeartbeat. cbn [set_heap set_registry registry heap].
    split.
    + intros other Hne. apply Send_other_conn. exact Hne.
    + intros c Hc Hopen Hroom.
      rewrite (Send_enqueues pick conn _ _ c Hc Hopen Hroom).
      * cbn [fst]. apply lookup_insert_eq.
      * split; [apply Z.leb_le; reflexivity
               | split; [apply Z.leb_le | apply Z.ltb_lt]; reflexivity].
  - intros H1 H2 H4 H5. unfold res, handleConnection_frame, HandleConnection.
    rewrite !(proj2 (Z.eqb_neq _ _)) by assumption. reflexivity.
  - intros Huser Hcmd. unfold res, handleConnection_frame, HandleConnection.
    destruct Hcmd as [Hcmd|Hcmd]; rewrite Hcmd.
    + change (protocol.CmdTypeMessage =? protocol.CmdTypeHeartbeat) with false.
      change (protocol.CmdTypeMessage =? protocol.CmdTypeAuth) with false.
      change (protocol.CmdTypeMessage =? protocol.CmdTypeMessage) with true.
      cbv iota. unfold handleMessage. rewrite Huser.
      rewrite bool_decide_eq_true_2 by reflexivity. reflexivity.
    + change (protocol.CmdTypeMessageAck =? protocol.CmdTypeHeartbeat) with false.
      change (protocol.CmdTypeMessageAck =? protocol.CmdTypeAuth) with false.
      change (protocol.CmdTypeMessageAck =? protocol.CmdTypeMessage) with false.
      change (protocol.CmdTypeMessageAck =? protocol.CmdTypeMessageAck) with true.
      cbv iota. unfold handleMessageAck. rewrite Huser.
      rewrite bool_decide_eq_true_2 by reflexivity. reflexivity.
Qed.

(** X28.  An acknowledgement acts on the mailbox of the user bound to the
    connection it arrives on, and on nothing else: [handleMessageAck]
    leaves the registry, the mailboxes of other users, the counters, the
    session records and the published messages as they are; when the
    store is reached the user's mailbox loses exactly the elements whose
    score is at most the acknowledged number, and it never gains one. *)
Theorem handleMessageAck_own_mailbox (conn : loc) (msg : protocol.Message) (w : World)
    (userID : string) (S : Z) :
  GetUserID conn (heap (registry w)) = userID ->
  userID <> EmptyString ->
  Unmarshal_AckMsg (protocol.Body msg) = Ok S ->
  let w' := handleMessageAck conn msg w in
  registry w' = registry w
  /\ store w' = (Remove userID S (store w)).1
  /\ (forall other, other <> userID ->
        mailbox other (store w') = mailbox other (store w))
  /\ strings (store w') = strings (store w)
  /\ counters (store w') = counters (store w)
  /\ hashes (store w') = hashes (store w)
  /\ published (store w') = published (store w)
  /\ (hd false (faults (store w)) = false ->
      mailbox userID (store w')
      = zremrangebyscore_upto (float64_of_int64 S) (mailbox userID (store w)))
  /\ (forall e, e ∈ mailbox userID (store w') -> e ∈ mailbox userID (store w)).
Proof.
  intros Huser Hne Hack w'.
  assert (Hw' : w' = set_store (Remove userID S (store w)).1 w).
  { unfold w', handleMessageAck. rewrite Huser.
    rewrite bool_decide_eq_false_2 by exact Hne. rewrite Hack. reflexivity. }
  rewrite Hw'. cbn [set_store store registry].
  split; [reflexivity|]. split; [reflexivity|].
  set (key := OfflineBoxPrefix +:+ userID).
  assert (HR : (Remove userID S (store w)).1
               = (roundtrip (fun s0 : DB Text =>
                    (put_zset key (zremrangebyscore_upto (float64_of_int64 S)
                                     (zset_at key s0)) s0, Ok tt)) (store w)).1).
  { unfold Remove, ZRemRangeByScore_upto. fold key.
    destruct (roundtrip _ (store w)) as [s1 [[]|e]]; reflexivity. }
  rewrite HR. unfold roundtrip.
  assert (Hput : forall zs (s0 : DB Text),
            strings (put_zset key zs s0) = strings s0
            /\ counters (put_zset key zs s0) = counters s0
            /\ hashes (put_zset key zs s0) = hashes s0
            /\ published (put_zset key zs s0) = published s0)
    by (intros zs s0; unfold put_zset; destruct zs; repeat split).
  assert (Hother : forall other zs (s0 : DB Text), other <> userID ->
            mailbox other (put_zset key zs s0) = mailbox other s0).
  { intros other zs s0 Ho. unfold mailbox. apply zset_at_put_zset_ne.
    unfold key. intros Hk. apply append_inj in Hk. congruence. }
  destruct (faults (store w)) as [|[|] fs] eqn:Hf; cbn [fst hd].
  - destruct (Hput (zremrangebyscore_upto (float64_of_int64 S) (zset_at key (store w)))
                (store w)) as (H1 & H2 & H3 & H4).
    split; [intros other Ho; apply Hother; exact Ho|].
    split; [exact H1|]. split; [exact H2|]. split; [exact H3|]. split; [exact H4|].
    split.
    + intros _. unfold mailbox at 1. fold key. apply zset_at_put_zset.
    + intros e He. unfold mailbox at 1 in He. fold key in He.
      rewrite zset_at_put_zset in He.
      apply zremrangebyscore_upto_spec in He as [He _]. exact He.
  - split; [reflexivity|]. repeat (split; [reflexivity|]).
    split; [discriminate|]. auto.
  - destruct (Hput (zremrangebyscore_upto (float64_of_int64 S)
                      (zset_at key (set_faults fs (store w))))
                (set_faults fs (store w))) as (H1 & H2 & H3 & H4).
    split; [intros other Ho; rewrite Hother by exact Ho; reflexivity|].
    split; [exact H1|]. split; [exact H2|]. split; [exact H3|]. split; [exact H4|].
    split.
    + intros _. unfold mailbox at 1. fold key. apply zset_at_put_zset.
    + intros e He. unfold mailbox at 1 in He. fold key in He.
      rewrite zset_at_put_zset in He.
      apply zremrangebyscore_upto_spec in He as [He _]. exact He.
Qed.


End application.

(** ** The further statements at concrete inputs *)

Section more_witnesses.
Import redis server service app.
#[local] Existing Instance plain.json.
#[local] Existing Instance plain_laws.
#[local] Existing Instance plain.jwt.
#[local] Existing Instance plain.pubsub.

Lemma Unpack_sound_witness :
  let msg := protocol.mkMessage 5 1 4 ["H"]%byte in
  let reader := [x00; x00; x00; x05; x00; x01; x00; x04; "H"; "x"]%byte in
  protocol.Pack msg = (msg, Ok (frame_bytes msg))
  /\ reader = frame_bytes msg ++ ["x"]%byte.
Proof.
  intros msg reader.
  destruct (Unpack_sound reader ["x"]%byte msg) as (_ & _ & _ & _ & _ & Hpack);
    [reflexivity|].
  apply Hpack. reflexivity.
Defined.

Lemma Unpack_failures_witness :
  protocol.Unpack [x00; x00; x00]%byte = ([], Err ErrUnexpectedEOF)
  /\ protocol.Unpack [x00; x10; x00; x05; x00; x01; x00; x04; "H"]%byte
     = (["H"]%byte, Err ErrPayloadTooLarge)
  /\ protocol.Unpack [x00; x00; x00; x06; x00; x01; x00; x04]%byte = ([], Err EOF)
  /\ protocol.Unpack [x00; x00; x00; x06; x00; x01; x00; x04; "H"]%byte
     = ([], Err ErrUnexpectedEOF).
Proof.
  destruct (Unpack_failures [x00; x00; x00]%byte
              [x00; x10; x00; x05; x00; x01; x00; x04]%byte ["H"]%byte)
    as (_ & Hshort & Hbig).
  destruct (Unpack_failures []
              [x00; x00; x00; x06; x00; x01; x00; x04]%byte ["H"]%byte)
    as (_ & _ & Hcut).
  split; [apply Hshort; simpl; lia|].
  split; [apply (Hbig eq_refl); vm_compute; reflexivity|].
  destruct (Hcut eq_refl) as (_ & Heof & Hbody).
  split; [apply Heof | apply Hbody]; vm_compute; split; congruence.
Defined.

Lemma readLoop_cut_stream_witness :
  let ping := protocol.mkMessage 0 0 protocol.CmdTypeHeartbeat [] in
  let stream := [x00; x00; x00; x04; x00; x01; x00; x01;
                 x00; x00; x00; x09; x00; x01; x00; x04; "H"; "e"]%byte in
  exists e,
    protocol.readLoop 2 stream = Some ([protocol.mkMessage 4 1 1 []], e)
    /\ (e = EOF \/ e = ErrUnexpectedEOF)
    /\ (e = EOF <-> [x00; x00; x00; x09; x00; x01; x00; x04; "H"; "e"]%byte = []
                    \/ length [x00; x00; x00; x09; x00; x01; x00; x04; "H"; "e"]%byte = 8%nat).
Proof.
  intros ping stream.
  apply (readLoop_cut_stream [ping]
           (protocol.mkMessage 0 0 protocol.CmdTypeMessage ["H"; "e"; "l"; "l"; "o"]%byte)
           [x00; x00; x00; x09; x00; x01; x00; x04; "H"; "e"]%byte
           ["l"; "l"; "o"]%byte 2).
  - apply Forall_cons_2; [|apply Forall_nil_2].
    split; [apply Z.leb_le; reflexivity
           | split; [apply Z.leb_le | apply Z.ltb_lt]; reflexivity].
  - split; [apply Z.leb_le; reflexivity
           | split; [apply Z.leb_le | apply Z.ltb_lt]; reflexivity].
  - reflexivity.
  - discriminate.
  - simpl. lia.
Defined.

Lemma Send_writeLoop_fifo_witness :
  let ping := protocol.mkMessage 0 0 protocol.CmdTypeHeartbeat [] in
  let hi := protocol.mkMessage 0 0 protocol.CmdTypeMessage ["h"; "i"]%byte in
  writeLoop 3 (fun _ => 1%nat) (fun _ => false) 0
    (Send_all (fun _ => 0%nat) 0 [ping; hi] (NewConnection 1))
  = Some ({| ID := 1; UserID := EmptyString; writeChan := []; closed := false;
             written := [[x00; x00; x00; x04; x00; x01; x00; x01];
                         [x00; x00; x00; x06; x00; x01; x00; x04; "h"; "i"]]%byte |},
          WriteLoopWaiting).
Proof.
  intros ping hi.
  apply (Send_writeLoop_fifo (fun _ => 0%nat) (fun _ => 1%nat) (fun _ => false)
           [ping; hi] (NewConnection 1) 3).
  - reflexivity.
  - repeat (apply Forall_cons_2;
            [split; [apply Z.leb_le; reflexivity
                    | split; [apply Z.leb_le | apply Z.ltb_lt]; reflexivity]|]).
    apply Forall_nil_2.
  - vm_compute. lia.
  - reflexivity.
  - simpl. lia.
Defined.

Lemma writeLoop_outcome_witness :
  let c := {| ID := 1; UserID := "bob"; writeChan := [[x01]; [x02]; [x03]]%byte;
              closed := false; written := [] |} in
  exists c' st k,
    writeLoop 4 (fun _ => 0%nat) (fun i => bool_decide (i = 1%nat)) 0 c = Some (c', st)
    /\ (k <= 3)%nat
    /\ written c' = take k [[x01]; [x02]; [x03]]%byte
    /\ (st = WriteLoopReturned -> closed c' = true).
Proof.
  intros c.
  destruct (writeLoop_outcome 4 (fun _ => 0%nat) (fun i => bool_decide (i = 1%nat)) 0 c)
    as (c' & st & k & H1 & H2 & H3 & _ & _ & _ & H7 & _); [simpl; lia|].
  exists c', st, k. split; [exact H1|]. split; [exact H2|]. split; [exact H3 | exact H7].
Defined.

Lemma Broadcast_reaches_registered_witness :
  let r := Add 2 (Add 1 plain.two_conns) in
  let ping := protocol.mkMessage 0 0 protocol.CmdTypeHeartbeat [] in
  let r' := Broadcast (fun _ => 0%nat) [(1, 1%positive); (2, 2%positive)] ping r in
  heap r' !! 1%positive
  = Some (enqueued [x00; x00; x00; x04; x00; x01; x00; x01]%byte (NewConnection 1))
  /\ heap r' !! 2%positive
     = Some (enqueued [x00; x00; x00; x04; x00; x01; x00; x01]%byte (NewConnection 2))
  /\ heap r' !! 3%positive = None.
Proof.
  intros r ping r'.
  assert (Hlist : map_to_list (connections (manager r)) = [(2, 2%positive); (1, 1%positive)])
    by (vm_compute; reflexivity).
  destruct (Broadcast_reaches_registered (fun _ => 0%nat)
              [(1, 1%positive); (2, 2%positive)] ping r)
    as (_ & Hreg & Hnot).
  - split; [apply Z.leb_le; reflexivity
           | split; [apply Z.leb_le | apply Z.ltb_lt]; reflexivity].
  - rewrite Hlist. apply Permutation_swap.
  - apply (bool_decide_unpack _). vm_compute. exact I.
  - fold r' in Hreg, Hnot.
    split; [apply (Hreg 1 1%positive (NewConnection 1));
              [reflexivity | reflexivity | reflexivity | vm_compute; lia]|].
    split; [apply (Hreg 2 2%positive (NewConnection 2));
              [reflexivity | reflexivity | reflexivity | vm_compute; lia]|].
    rewrite Hnot; [reflexivity|].
    intros id Hl. unfold GetByConnID in Hl. apply elem_of_map_to_list in Hl.
    rewrite Hlist in Hl.
    apply elem_of_cons in Hl as [Hl|Hl]; [discriminate Hl|].
    apply elem_of_cons in Hl as [Hl|Hl]; [discriminate Hl|].
    apply elem_of_nil in Hl. exact Hl.
Defined.

Lemma accept_assigns_ids_witness :
  let start := {| heap := ∅; manager := NewConnectionManager |} in
  (accept_all 3 0 start).1 = 3
  /\ server.Count (accept_all 3 0 start).2 = 3
  /\ (forall id, 0 < id <= 3 ->
        exists conn, GetByConnID id (accept_all 3 0 start).2 = Some conn
                     /\ heap (accept_all 3 0 start).2 !! conn = Some (NewConnection id)).
Proof.
  intros start.
  destruct (accept_assigns_ids 3 0 start) as (Hid & _ & Hcount & Hnew & _ & _).
  - split; [lia|]. intros id conn Hl. unfold GetByConnID in Hl. cbn in Hl.
    rewrite lookup_empty in Hl. discriminate.
  - vm_compute. reflexivity.
  - split; [exact Hid|]. split; [exact Hcount|].
    intros id Hr. destruct (Hnew id) as (conn & H1 & H2 & _); [rewrite Hid; lia|].
    exists conn. split; assumption.
Defined.

Lemma Login_records_user_witness :
  let s1 := (Login "gateway_1" "bob" 7 100 (redis.empty (M := Text))).1 in
  (GetUserGateway "bob" s1).2 = Ok "gateway_1"
  /\ (IsOnline "bob" s1).2 = true
  /\ (IsOnline "alice" s1).2 = false.
Proof.
  intros s1.
  destruct (Login_records_user "gateway_1" "bob" 7 100 (redis.empty (M := Text)))
    as (_ & Hgw & Hon & _ & Hother & _); [reflexivity|].
  split; [exact Hgw|]. split; [exact Hon|].
  destruct (Hother "alice") as [_ Ho]; [discriminate|]. exact Ho.
Defined.

Lemma Logout_erases_user_witness :
  let s := store (plain.bob_at "gateway_1") in
  (GetUserGateway "bob" s).2 = Ok "gateway_1"
  /\ (GetUserGateway "bob" (Logout "bob" s).1).2 = Err RedisNil
  /\ (IsOnline "bob" (Logout "bob" s).1).2 = false.
Proof.
  intros s.
  destruct (Logout_erases_user "bob" s) as (_ & Hgw & Hon & _); [reflexivity|].
  split; [reflexivity|]. split; [exact Hgw | exact Hon].
Defined.

Lemma NextSeq_consecutive_witness :
  (NextSeq_all 3 "alice:bob" (redis.empty (M := Text))).1 = [Ok 1; Ok 2; Ok 3]
  /\ counter_of "alice:bob" (NextSeq_all 3 "alice:bob" (redis.empty (M := Text))).2 = 3.
Proof.
  destruct (NextSeq_consecutive 3 "alice:bob" (redis.empty (M := Text)))
    as (Hres & _ & Hcnt & _); [reflexivity | vm_compute; congruence |].
  split; [exact Hres | exact Hcnt].
Defined.

Lemma getConversationID_sym_witness :
  getConversationID "bob" "alice" = "alice:bob"
  /\ getConversationID "alice" "bob" = "alice:bob".
Proof.
  destruct (getConversationID_sym "alice" "bob") as (Hsym & _ & Hlt).
  split; [rewrite <- Hsym|]; apply Hlt; reflexivity.
Defined.

Lemma NextSeqBatch_range_witness :
  (NextSeqBatch "room" 10 (redis.empty (M := Text))).2 = Ok (1, 10)
  /\ (NextSeq "room" (NextSeqBatch "room" 10 (redis.empty (M := Text))).1).2 = Ok 11
  /\ (NextSeqBatch "room" (-2) (NextSeqBatch "room" 10 (redis.empty (M := Text))).1).2
     = Ok (11, 8).
Proof.
  destruct (NextSeqBatch_range "room" 10 (redis.empty (M := Text)))
    as (Hres & _ & Hnext & _); [reflexivity | vm_compute; split; congruence
                               | vm_compute; split; congruence |].
  destruct (NextSeqBatch_range "room" (-2)
              (NextSeqBatch "room" 10 (redis.empty (M := Text))).1)
    as (Hback & _); [reflexivity | vm_compute; split; congruence
                    | vm_compute; split; congruence |].
  split; [exact Hres|]. split; [exact Hnext | exact Hback].
Defined.

Lemma GetCurrentSeq_ResetSeq_witness :
  let s := (NextSeq_all 3 "alice:bob" (redis.empty (M := Text))).2 in
  GetCurrentSeq "alice:bob" s = (s, Ok 3)
  /\ (GetCurrentSeq "carol:dave" s).2 = Ok 0
  /\ (NextSeq "alice:bob" (ResetSeq "alice:bob" s).1).2 = Ok 1.
Proof.
  intros s.
  destruct (GetCurrentSeq_ResetSeq "alice:bob" s) as (Hget & _ & _ & _ & _ & Hnext & _);
    [reflexivity|].
  destruct (GetCurrentSeq_ResetSeq "carol:dave" s) as (_ & Hzero & _); [reflexivity|].
  split; [exact Hget|]. split; [apply Hzero; reflexivity | exact Hnext].
Defined.





Lemma Store_below_cap_keeps_all_witness :
  (service.Count "bob" (plain.bob_box 3)).2 = Ok 3
  /\ (Fetch "bob" 1 0 (plain.bob_box 3)).2 = Ok (stored_messages "bob" (plain.bob_box 3)).
Proof.
  destruct (Store_below_cap_keeps_all "bob" (plain.insertions 3) (redis.empty (M := Text)))
    as (_ & _ & Hcount & Hfetch).
  - reflexivity.
  - reflexivity.
  - apply (bool_decide_unpack _). vm_compute. exact I.
  - unfold exact_seq. apply (bool_decide_unpack _). vm_compute. exact I.
  - vm_compute. lia.
  - split; [exact Hcount|]. apply Hfetch; [|lia].
    intros i Hi. unfold plain.insertions in Hi.
    apply list_elem_of_fmap in Hi as (k & -> & Hk). apply elem_of_seqZ in Hk.
    cbn. lia.
Defined.

Lemma Store_unchecked_trim_witness :
  let s := set_faults [false; true] (plain.bob_box 2) in
  let res := Store "bob" (plain.message "alice" "bob" 3) 3 s in
  res.2 = None
  /\ length (mailbox "bob" res.1) = 3%nat
  /\ (Store "bob" (plain.message "alice" "bob" 3) 3 (set_faults [true] (plain.bob_box 2))).2
     = Some ErrStore.
Proof.
  intros s res.
  destruct (Store_unchecked_trim "bob" (plain.message "alice" "bob" 3) 3 s
              (OfflineMessage.set_Timestamp 3 (plain.message "alice" "bob" 3)) [])
    as (_ & Htrim & _); [reflexivity|].
  destruct (Store_unchecked_trim "bob" (plain.message "alice" "bob" 3) 3
              (set_faults [true] (plain.bob_box 2))
              (OfflineMessage.set_Timestamp 3 (plain.message "alice" "bob" 3)) [])
    as (Hzadd & _); [reflexivity|].
  destruct (Htrim eq_refl) as (Hnil & _ & Hlen).
  split; [exact Hnil|]. split; [|apply (Hzadd eq_refl)].
  fold res in Hlen. rewrite Hlen; [vm_compute; reflexivity|].
  apply (bool_decide_unpack _). vm_compute. exact I.
Defined.

Lemma mailbox_of_one_user_witness :
  mailbox "bob" (Store "alice" (plain.message "bob" "alice" 9) 9 (plain.bob_box 3)).1
  = mailbox "bob" (plain.bob_box 3)
  /\ (service.Count "bob" (Clear "bob" (plain.bob_box 3)).1).2 = Ok 0.
Proof.
  destruct (mailbox_of_one_user "alice" (plain.bob_box 3)) as [Hother _].
  destruct (mailbox_of_one_user "bob" (plain.bob_box 3)) as [_ Hclear].
  split.
  - apply (Hother "bob" (plain.message "bob" "alice" 9) 9 0). discriminate.
  - apply Hclear. reflexivity.
Defined.

Lemma SendPrivateMessage_without_sequence_witness :
  let w := plain.one_conn [true] in
  let res := SendPrivateMessage "gateway_1" 0 5 "alice" "bob" ["h"; "i"]%byte w in
  res.2 = Some ErrStore
  /\ registry res.1 = registry w
  /\ same_content (store res.1) (store w).
Proof.
  intros w res.
  destruct (SendPrivateMessage_without_sequence "gateway_1" 0 5 "alice" "bob"
              ["h"; "i"]%byte w (NextSeq "alice:bob" (store w)).1 ErrStore)
    as (Hres & _ & Hsame & Hreg); [vm_compute; reflexivity|].
  subst res. rewrite Hres. split; [reflexivity|]. split; [exact Hreg | exact Hsame].
Defined.

Lemma SendPrivateMessage_local_witness :
  let w := plain.bob_at "gateway_1" in
  let res := SendPrivateMessage "gateway_1" 0 5 "alice" "bob" ["h"; "i"]%byte w in
  res.2 = None
  /\ (writeChan <$> heap (registry res.1) !! 1%positive)
     = Some [[x00; x00; x00; x07; x00; x01; x00; x04; x01; "h"; "i"]%byte]
  /\ mailbox "bob" (store res.1) = [].
Proof.
  intros w res.
  destruct (SendPrivateMessage_local "gateway_1" 0 5 "alice" "bob" ["h"; "i"]%byte w
              (NextSeq "alice:bob" (store w)).1 (NextSeq "alice:bob" (store w)).1
              1 1%positive (set_UserID "bob" (NewConnection 7)) [x01; "h"; "i"]%byte)
    as (Hnil & Hheap & _ & Hstore & Hz & _).
  - vm_compute; reflexivity.
  - vm_compute; reflexivity.
  - vm_compute; reflexivity.
  - vm_compute; reflexivity.
  - reflexivity.
  - vm_compute; lia.
  - reflexivity.
  - vm_compute; discriminate.
  - fold res in Hnil, Hheap, Hstore.
    split; [exact Hnil|]. split.
    + rewrite Hheap, lookup_insert_eq. vm_compute; reflexivity.
    + rewrite Hstore. vm_compute; reflexivity.
Defined.

Lemma SendPrivateMessage_local_full_witness :
  let w := plain.bob_busy in
  let res := SendPrivateMessage "gateway_1" 0 5 "alice" "bob" ["h"; "i"]%byte w in
  res.2 = None
  /\ registry res.1 = registry w
  /\ mailbox "bob" (store res.1) = []
  /\ counter_of "alice:bob" (store res.1) = 1.
Proof.
  intros w res.
  destruct (SendPrivateMessage_local_full "gateway_1" 0 5 "alice" "bob" ["h"; "i"]%byte w
              (NextSeq "alice:bob" (store w)).1 (NextSeq "alice:bob" (store w)).1
              1 1%positive
              (set_writeChan (replicate 256 [x00]%byte)
                 (set_UserID "bob" (NewConnection 7)))
              [x01; "h"; "i"]%byte)
    as (Hres & Hreg & Hstore & Hz & _ & Hc).
  - vm_compute; reflexivity.
  - vm_compute; reflexivity.
  - vm_compute; reflexivity.
  - vm_compute; reflexivity.
  - vm_compute; lia.
  - reflexivity.
  - vm_compute; discriminate.
  - fold res in Hres, Hreg, Hstore.
    split; [exact Hres|]. split; [exact Hreg|]. split.
    + rewrite Hstore. vm_compute; reflexivity.
    + unfold counter_of. rewrite Hstore. cbv [getConversationID] in Hc.
      vm_compute in Hc |- *. reflexivity.
Defined.

Lemma SendPrivateMessage_remote_witness :
  let w := plain.bob_at "gateway_2" in
  let res := SendPrivateMessage "gateway_1" 0 5 "alice" "bob" ["h"; "i"]%byte w in
  res.2 = None
  /\ registry res.1 = registry w
  /\ published (store res.1) = [("channel:gateway_gateway_2", [x01; "h"; "i"]%byte)]
  /\ mailbox "bob" (store res.1) = [].
Proof.
  intros w res.
  destruct (SendPrivateMessage_remote "gateway_1" 0 5 "alice" "bob" ["h"; "i"]%byte w
              (NextSeq "alice:bob" (store w)).1 (NextSeq "alice:bob" (store w)).1
              1 "gateway_2" [x01; "h"; "i"]%byte)
    as (Hreg & Hz & Hok & _).
  - vm_compute; reflexivity.
  - vm_compute; reflexivity.
  - discriminate.
  - reflexivity.
  - fold res in Hreg, Hz, Hok.
    destruct Hok as [Hnil Hpub]; [vm_compute; reflexivity|].
    split; [exact Hnil|]. split; [exact Hreg|]. split.
    + rewrite Hpub. vm_compute; reflexivity.
    + unfold mailbox, zset_at. rewrite Hz. vm_compute; reflexivity.
Defined.


Lemma DeliverOfflineMessages_reads_only_witness :
  let w := set_store (plain.bob_box 3) (plain.bob_at "gateway_1") in
  let res := DeliverOfflineMessages (fun _ => 0%nat) "bob" 1%positive w in
  mailbox "bob" (store res.1) = mailbox "bob" (plain.bob_box 3)
  /\ (length <$> (writeChan <$> heap (registry res.1) !! 1%positive)) = Some 3%nat.
Proof.
  intros w res.
  destruct (DeliverOfflineMessages_reads_only (fun _ => 0%nat) "bob" 1%positive w)
    as ((_ & _ & _ & Hz & _) & _ & _ & Hconn & _).
  fold res in Hz, Hconn. split.
  - unfold mailbox, zset_at. rewrite Hz. reflexivity.
  - destruct (Hconn (set_UserID "bob" (NewConnection 7))) as [frames Hframes];
      [vm_compute; reflexivity|].
    vm_compute; reflexivity.
Defined.

Lemma handleAuth_rejects_witness :
  let w := plain.one_conn [] in
  let msg := {| protocol.Length := 0; protocol.Version := 0;
                protocol.CmdType := protocol.CmdTypeAuth; protocol.Body := [] |} in
  let res := handleAuth "gateway_1" 0 5 1%positive msg w in
  res.2 = []
  /\ store res.1 = store w
  /\ heap (registry res.1) !! 1%positive
     = Some (enqueued (frame_bytes (authAck false "invalid token")) (NewConnection 7))
  /\ GetByUserID EmptyString (registry res.1) = None.
Proof.
  intros w msg res.
  destruct (handleAuth_rejects "gateway_1" 0 5 1%positive msg w) as [[_ Htoken] Hreply].
  destruct (Htoken EmptyString eq_refl) as (_ & Hother & _).
  specialize (Hother eq_refl). fold res in Hother.
  destruct (Hreply "invalid token") as (Hstore & Hman & _ & _ & Hconn).
  rewrite Hother. cbn [fst snd] in *.
  split; [reflexivity|]. split; [exact Hstore|]. split.
  - apply Hconn; [reflexivity | reflexivity | vm_compute; lia |].
    repeat split; vm_compute; congruence.
  - unfold GetByUserID. rewrite Hman. reflexivity.
Defined.

Lemma handleAuth_then_message_witness :
  let w := plain.one_conn [] in
  let msg := {| protocol.Length := 0; protocol.Version := 0;
                protocol.CmdType := protocol.CmdTypeAuth;
                protocol.Body := ["b"; "o"; "b"]%byte |} in
  let w1 := (handleAuth "gateway_1" 0 5 1%positive msg w).1 in
  let res := SendPrivateMessage "gateway_1" 0 6 "alice" "bob" ["h"; "i"]%byte w1 in
  GetByUserID "bob" (registry w1) = Some 1%positive
  /\ res.2 = None
  /\ heap (registry res.1) !! 1%positive
     = Some (set_writeChan
               [frame_bytes (authAck true "bob");
                frame_bytes (message_frame [x01; "h"; "i"]%byte)]
               (set_UserID "bob" (NewConnection 7)))
  /\ mailbox "bob" (store res.1) = [].
Proof.
  intros w msg w1 res.
  destruct (handleAuth_then_message "gateway_1" 0 0 5 6 1%positive msg w (NewConnection 7)
              "bob" (Claims.mk "bob" "bob") "alice" ["h"; "i"]%byte
              [x01; "h"; "i"]%byte)
    as (_ & Hbound & Hnil & Hheap & Hbox).
  - reflexivity.
  - reflexivity.
  - reflexivity.
  - vm_compute; lia.
  - reflexivity.
  - reflexivity.
  - repeat split; vm_compute; congruence.
  - vm_compute; congruence.
  - reflexivity.
  - vm_compute; discriminate.
  - fold w1 in Hbound, Hnil, Hheap, Hbox. fold res in Hnil, Hheap, Hbox.
    split; [exact Hbound|]. split; [exact Hnil|]. split; [exact Hheap|].
    etransitivity; [exact Hbox | reflexivity].
Defined.

Lemma handleConnection_frame_dispatch_witness :
  let w := plain.one_conn [] in
  let ping := {| protocol.Length := 0; protocol.Version := 0;
                 protocol.CmdType := protocol.CmdTypeHeartbeat; protocol.Body := [] |} in
  let chat := {| protocol.Length := 0; protocol.Version := 0;
                 protocol.CmdType := protocol.CmdTypeMessage;
                 protocol.Body := ["b"; "h"; "i"]%byte |} in
  (writeChan <$> heap (registry (handleConnection_frame "gateway_1" 0 5 1%positive ping w).1)
                 !! 1%positive)
  = Some [[x00; x00; x00; x08; x00; x01; x00; x01; "p"; "o"; "n"; "g"]%byte]
  /\ handleConnection_frame "gateway_1" 0 5 1%positive chat w = (w, []).
Proof.
  intros w ping chat.
  destruct (handleConnection_frame_dispatch "gateway_1" 0 5 1%positive ping w)
    as (Hping & _ & _).
  destruct (handleConnection_frame_dispatch "gateway_1" 0 5 1%positive chat w)
    as (_ & _ & Hchat).
  destruct (Hping eq_refl) as (_ & _ & _ & _ & Hpong).
  split.
  - rewrite (Hpong (NewConnection 7)); [reflexivity | reflexivity | reflexivity |].
    vm_compute; lia.
  - apply Hchat; [reflexivity | left; reflexivity].
Defined.

Lemma handleMessageAck_own_mailbox_witness :
  let w := set_store (plain.bob_box 3) (plain.bob_at "gateway_1") in
  let ack := {| protocol.Length := 0; protocol.Version := 0;
                protocol.CmdType := protocol.CmdTypeMessageAck;
                protocol.Body := [x02]%byte |} in
  let w' := handleMessageAck 1%positive ack w in
  registry w' = registry w
  /\ mailbox "bob" (store w') = [plain.stored 3].
Proof.
  intros w ack w'.
  destruct (handleMessageAck_own_mailbox 1%positive ack w "bob" 2)
    as (Hreg & _ & _ & _ & _ & _ & _ & Hbox & _).
  - vm_compute; reflexivity.
  - discriminate.
  - reflexivity.
  - fold w' in Hreg, Hbox. split; [exact Hreg|].
    rewrite Hbox by reflexivity.
    change (store w) with (plain.bob_box 3). rewrite bob_box_3.
    vm_compute; reflexivity.
Defined.


End more_witnesses.
